(** * Medallion: workflow executor, knowledge-graph driver and query parser

    A shallow embedding of

    - [internal/kg] query parser ([QueryParser.ParseQuery] and its helpers),
    - [internal/kg/driver.go] (the SQLite tables touched by the executor),
    - [internal/providers] (the [Provider] request and response types, and
      the request built by the Ollama and OpenAI clients),
    - [internal/orchestrator] ([ExecuteWorkflow], [executeStep],
      [areDependenciesSatisfied], [substituteVariables]),

    followed by the properties of the specification checked against it. *)

From Stdlib Require Import QArith Ascii.
From stdpp Require Import gmap strings list pretty sorting.

Local Open Scope Z_scope.

(** ** Go's [strings] package, on byte strings

    A Go string is a sequence of bytes, here a [string] of [ascii].
    [HasPrefix], [Index], [Contains], slicing and [ReplaceAll] with a
    non-empty pattern work on bytes and are modelled exactly.  [ToUpper]
    and [TrimSpace] are Unicode-aware in Go; the model maps and trims the
    ASCII range and leaves bytes above 127 alone. *)
Module GoStrings.

Fixpoint HasPrefix (s prefix : string) {struct prefix} : bool :=
  match prefix, s with
  | EmptyString, _ => true
  | String p prefix', String c s' =>
      if decide (c = p) then HasPrefix s' prefix' else false
  | String _ _, EmptyString => false
  end.

(** Position of the first occurrence of [substr] in [s]. *)
Fixpoint index_of (s substr : string) : option nat :=
  if HasPrefix s substr then Some 0%nat
  else match s with
       | EmptyString => None
       | String _ s' => S <$> index_of s' substr
       end.

(** [strings.Index]: the byte index of the first instance, or -1. *)
Definition Index (s substr : string) : Z :=
  match index_of s substr with
  | Some i => Z.of_nat i
  | None => -1
  end.

(** [strings.Contains] is [Index(s, substr) >= 0]. *)
Definition Contains (s substr : string) : bool :=
  bool_decide (0 <= Index s substr).

(** The slice expression [s[n:]]. *)
Fixpoint slice_from (n : nat) (s : string) : string :=
  match n, s with
  | O, _ => s
  | S n', String _ s' => slice_from n' s'
  | S _, EmptyString => EmptyString
  end.

(** Replacement of the non-overlapping instances of a non-empty [old],
    left to right; [skip] counts the bytes of a match still to drop. *)
Fixpoint replace_from (skip : nat) (s old new : string) : string :=
  match s with
  | EmptyString => EmptyString
  | String c s' =>
      match skip with
      | S k => replace_from k s' old new
      | O =>
          if HasPrefix s old
          then new +:+ replace_from (String.length old - 1) s' old new
          else String c (replace_from 0 s' old new)
      end
  end.

(** With an empty [old], Go inserts [new] before every character and at
    the end. *)
Fixpoint intersperse_all (s new : string) : string :=
  match s with
  | EmptyString => new
  | String c s' => new +:+ String c (intersperse_all s' new)
  end.

Definition ReplaceAll (s old new : string) : string :=
  match old with
  | EmptyString => intersperse_all s new
  | String _ _ => replace_from 0 s old new
  end.

(** The ASCII white space: tab, line feed, vertical tab, form feed,
    carriage return and space. *)
Definition is_space (c : ascii) : bool :=
  let n := nat_of_ascii c in
  bool_decide (n = 9 ∨ n = 10 ∨ n = 11 ∨ n = 12 ∨ n = 13 ∨ n = 32)%nat.

Fixpoint trim_left (s : string) : string :=
  match s with
  | String c s' => if is_space c then trim_left s' else s
  | EmptyString => EmptyString
  end.

Fixpoint trim_right (s : string) : string :=
  match s with
  | EmptyString => EmptyString
  | String c s' =>
      match trim_right s' with
      | EmptyString => if is_space c then EmptyString else String c EmptyString
      | r => String c r
      end
  end.

(** [strings.TrimSpace] for ASCII white space.  Go trims the Unicode
    white space above byte 127 as well (U+0085, U+00A0, ...): model and
    Go agree on the strings that, once their ASCII white space is
    trimmed, neither start nor end with such a character. *)
Definition TrimSpace (s : string) : string := trim_right (trim_left s).

Definition upper_char (c : ascii) : ascii :=
  let n := nat_of_ascii c in
  if bool_decide (97 <= n <= 122)%nat then ascii_of_nat (n - 32) else c.

(** [strings.ToUpper] for the ASCII letters.  Go maps the letters
    above byte 127 as well: model and Go agree on ASCII strings and, on
    any string, on the ASCII bytes before its first byte above 127. *)
Fixpoint ToUpper (s : string) : string :=
  match s with
  | EmptyString => EmptyString
  | String c s' => String (upper_char c) (ToUpper s')
  end.

(** The double quote character, and a quoted literal. *)
Definition dquote : string := String (ascii_of_nat 34) EmptyString.
Definition quoted (s : string) : string := dquote +:+ s +:+ dquote.

End GoStrings.

(** ** [internal/kg]: the query parser *)
Module QueryParser.
Import GoStrings.

(** A Go [(string, error)] result; the error carries its message. *)
Inductive result :=
| Ok (sql : string)
| Err (msg : string).

Definition parseCountQuery (query : string) : result :=
  if Contains query ":Claim" then Ok "SELECT COUNT(*) FROM claims"
  else if Contains query ":Agent" then Ok "SELECT COUNT(*) FROM agents"
  else if Contains query ":Run" then Ok "SELECT COUNT(*) FROM runs"
  else if Contains query ":Artifact" then Ok "SELECT COUNT(*) FROM artifacts"
  else Err "unsupported entity type in COUNT query".

Definition parseWhereQuery (query : string) : result :=
  if Contains query ":Agent" then
    let whereStart := Index query "WHERE" in
    if bool_decide (whereStart = -1) then Err "WHERE clause not found"
    else
      let whereClause := slice_from (Z.to_nat (whereStart + 5)) query in
      let whereClause := TrimSpace whereClause in
      let whereClause := ReplaceAll whereClause "n." "" in
      let whereClause := ReplaceAll whereClause dquote "'" in
      Ok ("SELECT * FROM agents WHERE " +:+ whereClause)
  else Err "unsupported entity type in WHERE query".

Definition parseSimpleMatchQuery (query : string) : result :=
  if Contains query ":Claim" then Ok "SELECT * FROM claims"
  else if Contains query ":Agent" then Ok "SELECT * FROM agents"
  else if Contains query ":Run" then Ok "SELECT * FROM runs"
  else if Contains query ":Artifact" then Ok "SELECT * FROM artifacts"
  else Err "unsupported entity type in simple MATCH query".

Definition parseMatchQuery (query : string) : result :=
  if Contains query "COUNT" then parseCountQuery query
  else if Contains query "WHERE" then parseWhereQuery query
  else parseSimpleMatchQuery query.

Definition ParseQuery (cypherQuery : string) : result :=
  let query := TrimSpace cypherQuery in
  let query := ToUpper query in
  if HasPrefix query "MATCH" then parseMatchQuery cypherQuery
  else if HasPrefix query "SELECT" then Ok cypherQuery
  else Err ("unsupported query type: " +:+ query).

End QueryParser.

(** ** Values, time and errors *)

(** An [interface{}] value of a variables or metadata map, and its [%v]
    rendering. *)
Inductive value :=
| VString (s : string)
| VInt (n : Z)
| VBool (b : bool).

Definition fmt_v (v : value) : string :=
  match v with
  | VString s => s
  | VInt n => pretty n
  | VBool true => "true"
  | VBool false => "false"
  end.

(** [fmt.Sprintf("%v", m)] for a [map[string]interface{}]: the entries in
    key order, as [map[k1:v1 k2:v2]]. *)
Definition fmt_map (m : gmap string value) : string :=
  "map["
    +:+ String.concat " "
          ((λ kv : string * value, kv.1 +:+ ":" +:+ fmt_v kv.2)
             <$> merge_sort (λ a b : string * value, String.leb a.1 b.1)
                   (map_to_list m))
    +:+ "]".

(** A [time.Time] is the number of nanoseconds since the epoch. *)
Definition Unix (t : Z) : Z := t `div` 1000000000.

(** Go errors, by origin. *)
Inductive error :=
| ErrNoRows                      (* sql.ErrNoRows, from [Row.Scan] *)
| ErrConstraint (column : string) (* a UNIQUE constraint violation *)
| ErrDatabase (msg : string)      (* any other failure of the database *)
| ErrProvider (msg : string)      (* an error returned by [Provider.Generate] *)
| ErrCreateRun (cause : error)    (* "failed to create run record: %w" *)
| ErrStalled.                     (* the stall error of [ExecuteWorkflow] *)

Fixpoint Error (e : error) : string :=
  match e with
  | ErrNoRows => "sql: no rows in result set"
  | ErrConstraint column => "constraint failed: UNIQUE constraint failed: " +:+ column
  | ErrDatabase msg => msg
  | ErrProvider msg => msg
  | ErrCreateRun cause => "failed to create run record: " +:+ Error cause
  | ErrStalled => "workflow execution stalled - circular dependency or missing step"
  end.

(** ** [internal/kg/driver.go]: the tables *)
Module kg.

Module Agent.
Record t := mk {
  ID : string;
  Name : string;
  Type_ : string;
  Description : string;
  ModelProvider : string;
  ModelName : string;
  SystemPrompt : string;
  CreatedAt : Z;
  UpdatedAt : Z;
}.
End Agent.

(** The [kg.Run] struct as [ExecuteWorkflow] fills it. *)
Module Run.
Record t := mk {
  ID : string;
  WorkflowName : string;
  Status : string;
  InputData : string;
  Metadata : string;
}.
End Run.

(** A row of the [runs] table; the columns without NOT NULL or a
    default are optional. *)
Module RunRow.
Record t := mk {
  id : string;
  workflow_name : string;
  status : string;
  input_data : string;
  output_data : option string;
  started_at : Z;
  completed_at : option Z;
  duration_ms : option Z;
  error_message : option string;
  metadata : string;
}.
End RunRow.

(** The [kg.Artifact] struct as [executeStep] fills it. *)
Module Artifact.
Record t := mk {
  ID : string;
  RunID : string;
  StepName : string;
  AgentID : string;
  Content : string;
  ContentType : string;
  Metadata : string;
}.
End Artifact.

Module ArtifactRow.
Record t := mk {
  id : string;
  run_id : string;
  step_name : string;
  agent_id : string;
  content : string;
  content_type : string;
  metadata : string;
  created_at : Z;
}.
End ArtifactRow.

Record DB := mkDB {
  agents : list Agent.t;
  runs : list RunRow.t;
  artifacts : list ArtifactRow.t;
}.

(** [SELECT ... FROM agents WHERE id = ?], first row. *)
Definition select_agent (id : string) (d : DB) : option Agent.t :=
  List.find (λ a, bool_decide (Agent.ID a = id)) (agents d).

(** [INSERT INTO runs (id, workflow_name, status, input_data, metadata)];
    [started_at] takes its default, the current time. *)
Definition insert_run (run : Run.t) (t : Z) (d : DB) : option error * DB :=
  if bool_decide (Run.ID run ∈ RunRow.id <$> runs d)
  then (Some (ErrConstraint "runs.id"), d)
  else (None,
        mkDB (agents d)
             (runs d ++ [RunRow.mk (Run.ID run) (Run.WorkflowName run)
                           (Run.Status run) (Run.InputData run) None t None
                           None None (Run.Metadata run)])
             (artifacts d)).

(** The UPDATE of [UpdateRunStatus] on one row, at database time [t]. *)
Definition update_row (runID status outputData errorMessage : string) (t : Z)
    (r : RunRow.t) : RunRow.t :=
  if bool_decide (RunRow.id r = runID)
  then RunRow.mk (RunRow.id r) (RunRow.workflow_name r) status
         (RunRow.input_data r) (Some outputData) (RunRow.started_at r)
         (Some t)
         (Some (Unix t * 1000 - Unix (RunRow.started_at r) * 1000))
         (Some errorMessage) (RunRow.metadata r)
  else r.

Definition update_run_status (runID status outputData errorMessage : string)
    (t : Z) (d : DB) : DB :=
  mkDB (agents d)
       (update_row runID status outputData errorMessage t <$> runs d)
       (artifacts d).

(** [INSERT INTO artifacts (...)]; [created_at] takes its default. *)
Definition insert_artifact (a : Artifact.t) (t : Z) (d : DB) : option error * DB :=
  if bool_decide (Artifact.ID a ∈ ArtifactRow.id <$> artifacts d)
  then (Some (ErrConstraint "artifacts.id"), d)
  else (None,
        mkDB (agents d) (runs d)
             (artifacts d ++ [ArtifactRow.mk (Artifact.ID a) (Artifact.RunID a)
                                (Artifact.StepName a) (Artifact.AgentID a)
                                (Artifact.Content a) (Artifact.ContentType a)
                                (Artifact.Metadata a) t])).

End kg.

(** ** [internal/providers] *)
Module providers.

Module GenerateRequest.
Record t := mk {
  Prompt : string;
  SystemPrompt : string;
  MaxTokens : Z;
  Temperature : Q;
  TopP : Q;
  Stop : list string;
  Metadata : gmap string string;
}.
End GenerateRequest.

Module GenerateResponse.
Record t := mk {
  Text : string;
  TokensUsed : Z;
  FinishReason : string;
  Metadata : gmap string string;
}.
End GenerateResponse.

(** The [Provider] interface, restricted to [Generate].  A backend is
    outside the program: the answer to a request may depend on how many
    calls were made before it ([n]). *)
Record Provider := mkProvider {
  Generate : nat → GenerateRequest.t → GenerateResponse.t + error;
}.

(** The request struct the Ollama client builds for a
    [GenerateRequest], before [json.Marshal]. *)
Module ollama.
Record Client := mkClient { baseURL : string; model : string }.

Record GenerateRequest := mkRequest {
  Model : string;
  Prompt : string;
  System : string;
  Stream : bool;
  Options : gmap string Q;
}.

Definition request (c : Client) (req : providers.GenerateRequest.t)
    : GenerateRequest :=
  mkRequest (model c) (GenerateRequest.Prompt req)
    (GenerateRequest.SystemPrompt req) false
    (<["temperature" := GenerateRequest.Temperature req]>
       (<["top_p" := GenerateRequest.TopP req]> ∅)).
End ollama.

(** The request struct the OpenAI client builds for a
    [GenerateRequest], before [json.Marshal]. *)
Module openai.
Record Client := mkClient { baseURL : string; apiKey : string; model : string }.

Record ChatCompletionMessage := mkMessage { Role : string; Content : string }.

Record ChatCompletionRequest := mkRequest {
  Model : string;
  Messages : list ChatCompletionMessage;
  MaxTokens : Z;
  Temperature : Q;
  TopP : Q;
  Stop : list string;
}.

Definition request (c : Client) (req : providers.GenerateRequest.t)
    : ChatCompletionRequest :=
  let messages :=
    if bool_decide (GenerateRequest.SystemPrompt req ≠ "")
    then [mkMessage "system" (GenerateRequest.SystemPrompt req)]
    else [] in
  let messages := messages ++ [mkMessage "user" (GenerateRequest.Prompt req)] in
  mkRequest (model c) messages (GenerateRequest.MaxTokens req)
    (GenerateRequest.Temperature req) (GenerateRequest.TopP req)
    (GenerateRequest.Stop req).
End openai.

End providers.

(** ** [internal/orchestrator] *)
Module orchestrator.
Import GoStrings.

Record Orchestrator := mkOrchestrator {
  providers : gmap string providers.Provider;
}.

Definition NewOrchestrator : Orchestrator := mkOrchestrator ∅.

Definition RegisterProvider (o : Orchestrator) (name : string)
    (provider : providers.Provider) : Orchestrator :=
  mkOrchestrator (<[name := provider]> (providers o)).

Module WorkflowStep.
Record t := mk {
  Name : string;
  Agent : string;
  Input : string;
  DependsOn : list string;
  SuccessWhen : string;
}.
End WorkflowStep.

Module Workflow.
Record t := mk {
  Name : string;
  Description : string;
  Agents : list string;
  Steps : list WorkflowStep.t;
  Variables : gmap string value;
}.
End Workflow.

Module StepResult.
Record t := mk {
  Name : string;
  Agent : string;
  Status : string;
  Input : string;
  Output : string;
  StartTime : Z;
  EndTime : option Z;
  Duration : option Z;
  Error : string;
  Metadata : gmap string value;
}.
End StepResult.

Module ExecutionResult.
Record t := mk {
  RunID : string;
  Status : string;
  StartTime : Z;
  EndTime : option Z;
  Duration : option Z;
  Steps : gmap string StepResult.t;
  Output : gmap string value;
  Error : string;
}.
End ExecutionResult.

(** ** The environment and the state of the world

    [ExecuteWorkflow] reads the clock, talks to the database and to the
    providers, ranges over Go maps and prints to standard output.  What
    the outside decides is an [Env]: the time of the n-th clock reading,
    whether the n-th database operation fails for a reason of its own
    (I/O, a closed handle), and the order in which the n-th [range] loop
    visits the keys of its map, given as a list in a standard order.
    What changes is a [World]. *)
Record Env := mkEnv {
  now : nat → Z;
  db_fault : nat → option string;
  range_order : nat → list string → list string;
}.

Record World := mkWorld {
  db : kg.DB;
  ticks : nat;        (* clock readings so far *)
  ops : nat;          (* database operations so far *)
  ranges : nat;       (* map range loops so far *)
  stdout : list string;
  calls : list (string * providers.GenerateRequest.t);
                      (* the Generate calls made, with the provider name *)
  trace : list (WorkflowStep.t * bool);
                      (* ghost: the steps handed to executeStep, in order,
                         each with whether it came back without error *)
}.

Definition M (A : Type) : Type := World → A * World.

#[global] Instance M_ret : MRet M := λ A a w, (a, w).
#[global] Instance M_bind : MBind M :=
  λ A B f m w, let '(a, w') := m w in f a w'.

Section primitives.
Context (E : Env).

(** [time.Now()]. *)
Definition Now : M Z := λ w,
  (now E (ticks w),
   mkWorld (db w) (S (ticks w)) (ops w) (ranges w) (stdout w) (calls w) (trace w)).

(** One statement on the database: it fails as a whole, leaving the
    tables as they are, when the environment says so. *)
Definition db_exec {A} (stmt : kg.DB → (A + error) * kg.DB) : M (A + error) := λ w,
  let w' := mkWorld (db w) (ticks w) (S (ops w)) (ranges w) (stdout w)
              (calls w) (trace w) in
  match db_fault E (ops w) with
  | Some msg => (inr (ErrDatabase msg), w')
  | None =>
      let '(r, d) := stmt (db w) in
      (r, mkWorld d (ticks w) (S (ops w)) (ranges w) (stdout w) (calls w)
            (trace w))
  end.

Definition as_error (r : unit + error) : option error :=
  match r with inl _ => None | inr e => Some e end.

(** [Driver.GetAgent]. *)
Definition GetAgent (id : string) : M (kg.Agent.t + error) :=
  db_exec (λ d, (match kg.select_agent id d with
                 | Some agent => inl agent
                 | None => inr ErrNoRows
                 end, d)).

(** [Driver.CreateRun]. *)
Definition CreateRun (run : kg.Run.t) : M (option error) :=
  t ← Now;
  r ← db_exec (λ d, let '(e, d') := kg.insert_run run t d in
                    (match e with Some e => inr e | None => inl () end, d'));
  mret (as_error r).

(** [Driver.UpdateRunStatus]. *)
Definition UpdateRunStatus (runID status outputData errorMessage : string)
    : M (option error) :=
  t ← Now;
  r ← db_exec (λ d, (inl (),
                     kg.update_run_status runID status outputData errorMessage t d));
  mret (as_error r).

(** [Driver.CreateArtifact]. *)
Definition CreateArtifact (artifact : kg.Artifact.t) : M (option error) :=
  t ← Now;
  r ← db_exec (λ d, let '(e, d') := kg.insert_artifact artifact t d in
                    (match e with Some e => inr e | None => inl () end, d'));
  mret (as_error r).

(** [fmt.Printf]. *)
Definition Printf (line : string) : M unit := λ w,
  ((), mkWorld (db w) (ticks w) (ops w) (ranges w) (stdout w ++ [line])
         (calls w) (trace w)).

(** A call of [provider.Generate]; the call is logged. *)
Definition call_Generate (name : string) (provider : providers.Provider)
    (req : providers.GenerateRequest.t)
    : M (providers.GenerateResponse.t + error) := λ w,
  (providers.Generate provider (length (calls w)) req,
   mkWorld (db w) (ticks w) (ops w) (ranges w) (stdout w)
     (calls w ++ [(name, req)]) (trace w)).

(** The keys of a map in the order a [for k, v := range m] visits them:
    the order the environment picks for the key set. *)
Definition range_keys {V} (m : gmap string V) : M (list string) := λ w,
  (range_order E (ranges w) (elements (dom m)),
   mkWorld (db w) (ticks w) (ops w) (S (ranges w)) (stdout w) (calls w) (trace w)).

(** Ghost: record that [executeStep] was run on a step and whether it
    came back with a nil error. *)
Definition note_step (step : WorkflowStep.t) (ok : bool) : M unit := λ w,
  ((), mkWorld (db w) (ticks w) (ops w) (ranges w) (stdout w) (calls w)
         (trace w ++ [(step, ok)])).

End primitives.

(** What a call of [ExecuteWorkflow] gives back: the Go pair of a
    result pointer (nil is [None]) and an error, or no answer when the
    loop is cut off (which does not happen, see
    [ExecuteWorkflow_returns]). *)
Inductive outcome :=
| Returned (result : option ExecutionResult.t) (err : option error)
| OutOfFuel.

(** The local variables of the loop of [ExecuteWorkflow]. *)
Record LoopState := mkLoop {
  executedSteps : gmap string bool;
  stepResults : gmap string StepResult.t;
  result : ExecutionResult.t;
  progress : bool;
}.

(** [executedSteps[name]]: a missing key reads as false. *)
Definition executed (executedSteps : gmap string bool) (name : string) : bool :=
  default false (executedSteps !! name).

Fixpoint areDependenciesSatisfied (dependencies : list string)
    (executedSteps : gmap string bool) : bool :=
  match dependencies with
  | [] => true
  | dep :: rest =>
      if negb (executed executedSteps dep) then false
      else areDependenciesSatisfied rest executedSteps
  end.

Section with_env.
Context (E : Env).

Definition substituteVariables (input : string)
    (variables : gmap string value)
    (stepResults : gmap string StepResult.t) : M string :=
  let result := input in
  keys ← range_keys E variables;
  let result :=
    foldl (λ result key,
             match variables !! key with
             | Some value =>
                 let placeholder := "{{." +:+ key +:+ "}}" in
                 let valueStr := fmt_v value in
                 ReplaceAll result placeholder valueStr
             | None => result
             end) result keys in
  stepNames ← range_keys E stepResults;
  let result :=
    foldl (λ result stepName,
             match stepResults !! stepName with
             | Some stepResult =>
                 let placeholder := "{{." +:+ stepName +:+ ".output}}" in
                 ReplaceAll result placeholder (StepResult.Output stepResult)
             | None => result
             end) result stepNames in
  mret result.

Definition executeStep (o : Orchestrator) (runID : string)
    (step : WorkflowStep.t) (variables : gmap string value)
    (stepResults : gmap string StepResult.t)
    : M (StepResult.t * option error) :=
  startTime ← Now E;
  let stepResult :=
    StepResult.mk (WorkflowStep.Name step) (WorkflowStep.Agent step)
      "running" "" "" startTime None None "" ∅ in
  got ← GetAgent E (WorkflowStep.Agent step);
  match got with
  | inr err =>
      mret (StepResult.mk (StepResult.Name stepResult)
              (StepResult.Agent stepResult) "failed" "" "" startTime None
              None ("failed to get agent: " +:+ Error err) ∅,
            Some err)
  | inl agent =>
      (* from here on [err] is the nil error of GetAgent *)
      let err : option error := None in
      input ← substituteVariables (WorkflowStep.Input step) variables
                stepResults;
      match providers o !! kg.Agent.ModelProvider agent with
      | None =>
          mret (StepResult.mk (StepResult.Name stepResult)
                  (StepResult.Agent stepResult) "failed" "" "" startTime
                  None None
                  ("provider '" +:+ kg.Agent.ModelProvider agent
                     +:+ "' not found") ∅,
                err)
      | Some provider =>
          let generateReq :=
            providers.GenerateRequest.mk input (kg.Agent.SystemPrompt agent)
              1000 (7 # 10) 0 [] ∅ in
          answer ← call_Generate (kg.Agent.ModelProvider agent) provider
                     generateReq;
          match answer with
          | inr err =>
              mret (StepResult.mk (StepResult.Name stepResult)
                      (StepResult.Agent stepResult) "failed" "" ""
                      startTime None None
                      ("failed to generate response: " +:+ Error err) ∅,
                    Some err)
          | inl resp =>
              endTime ← Now E;
              let duration := endTime - startTime in
              let metadata : gmap string value :=
                <["finish_reason" :=
                    VString (providers.GenerateResponse.FinishReason resp)]>
                  (<["tokens_used" :=
                       VInt (providers.GenerateResponse.TokensUsed resp)]> ∅) in
              let stepResult :=
                StepResult.mk (StepResult.Name stepResult)
                  (StepResult.Agent stepResult) "completed" ""
                  (providers.GenerateResponse.Text resp) startTime
                  (Some endTime) (Some duration) "" metadata in
              idTime ← Now E;
              let artifact :=
                kg.Artifact.mk
                  ("ART_" +:+ WorkflowStep.Name step +:+ "_"
                     +:+ pretty (Unix idTime))
                  runID (WorkflowStep.Name step) (kg.Agent.ID agent)
                  (providers.GenerateResponse.Text resp) "text/plain"
                  (fmt_map metadata) in
              failed ← CreateArtifact E artifact;
              match failed with
              | Some err =>
                  _ ← Printf ("Warning: failed to create artifact: "
                                +:+ Error err);
                  mret (stepResult, None)
              | None => mret (stepResult, None)
              end
          end
      end
  end.

(** What the loop body does to the local variables once a step has
    returned without error. *)
Definition record_step (st : LoopState) (name : string)
    (stepResult : StepResult.t) : LoopState :=
  let r := result st in
  mkLoop (<[name := true]> (executedSteps st))
         (<[name := stepResult]> (stepResults st))
         (ExecutionResult.mk (ExecutionResult.RunID r)
            (ExecutionResult.Status r) (ExecutionResult.StartTime r)
            (ExecutionResult.EndTime r) (ExecutionResult.Duration r)
            (<[name := stepResult]> (ExecutionResult.Steps r))
            (ExecutionResult.Output r) (ExecutionResult.Error r))
         true.

(** The result with its terminal status, error message, end time and
    duration. *)
Definition finish (r : ExecutionResult.t) (status err : string) (endTime : Z)
    : ExecutionResult.t :=
  ExecutionResult.mk (ExecutionResult.RunID r) status
    (ExecutionResult.StartTime r) (Some endTime)
    (Some (endTime - ExecutionResult.StartTime r))
    (ExecutionResult.Steps r) (ExecutionResult.Output r) err.

(** One pass of [for _, step := range workflow.Steps]: the state after
    the pass, or the early return of a failed step. *)
Fixpoint scan (o : Orchestrator) (runID : string)
    (variables : gmap string value) (steps : list WorkflowStep.t)
    (st : LoopState) : M (LoopState + ExecutionResult.t * error) :=
  match steps with
  | [] => mret (inl st)
  | step :: rest =>
      if executed (executedSteps st) (WorkflowStep.Name step)
      then scan o runID variables rest st
      else if negb (areDependenciesSatisfied (WorkflowStep.DependsOn step)
                      (executedSteps st))
      then scan o runID variables rest st
      else
        '(stepResult, err) ← executeStep o runID step variables
                               (stepResults st);
        _ ← note_step step (bool_decide (err = None));
        match err with
        | Some err =>
            endTime ← Now E;
            let result := finish (result st) "failed" (Error err) endTime in
            _ ← UpdateRunStatus E runID "failed" "" (Error err);
            mret (inr (result, err))
        | None =>
            scan o runID variables rest
              (record_step st (WorkflowStep.Name step) stepResult)
        end
  end.

Definition reset_progress (st : LoopState) : LoopState :=
  mkLoop (executedSteps st) (stepResults st) (result st) false.

(** [for len(executedSteps) < len(workflow.Steps) { ... }] and what
    follows it; every pass uses one unit of [fuel]. *)
Fixpoint loop (fuel : nat) (o : Orchestrator) (runID : string)
    (workflow : Workflow.t) (variables : gmap string value)
    (st : LoopState) : M outcome :=
  if bool_decide (size (executedSteps st) < length (Workflow.Steps workflow))%nat
  then
    match fuel with
    | O => mret OutOfFuel
    | S fuel' =>
        pass ← scan o runID variables (Workflow.Steps workflow)
                 (reset_progress st);
        match pass with
        | inr (result, err) => mret (Returned (Some result) (Some err))
        | inl st' =>
            if negb (progress st')
            then mret (Returned None (Some ErrStalled))
            else loop fuel' o runID workflow variables st'
        end
    end
  else
    endTime ← Now E;
    let result := finish (result st) "completed" "" endTime in
    _ ← UpdateRunStatus E runID "completed"
          (fmt_map (ExecutionResult.Output result)) "";
    mret (Returned (Some result) None).

Definition ExecuteWorkflow (o : Orchestrator) (workflow : Workflow.t)
    (variables : gmap string value) : M outcome :=
  idTime ← Now E;
  let runID := "RUN_" +:+ pretty (Unix idTime) in
  startTime ← Now E;
  let result :=
    ExecutionResult.mk runID "running" startTime None None ∅ ∅ "" in
  let run :=
    kg.Run.mk runID (Workflow.Name workflow) "running" (fmt_map variables)
      (fmt_map (Workflow.Variables workflow)) in
  failed ← CreateRun E run;
  match failed with
  | Some err => mret (Returned None (Some (ErrCreateRun err)))
  | None =>
      loop (length (Workflow.Steps workflow)) o runID workflow variables
        (mkLoop ∅ ∅ result false)
  end.

End with_env.
End orchestrator.

(** ** Queries: the shapes of the specification and some instances *)
Module Queries.
Import GoStrings QueryParser.

(** The fixed label to table mapping of the specification. *)
Inductive label := LClaim | LAgent | LRun | LArtifact.

Definition label_name (l : label) : string :=
  match l with
  | LClaim => "Claim" | LAgent => "Agent" | LRun => "Run" | LArtifact => "Artifact"
  end.

Definition collection (l : label) : string :=
  match l with
  | LClaim => "claims" | LAgent => "agents" | LRun => "runs" | LArtifact => "artifacts"
  end.

(** The query [MATCH (var:Label) WHERE cond RETURN proj]. *)
Definition match_where (var : string) (l : label) (cond proj : string) : string :=
  "MATCH (" +:+ var +:+ ":" +:+ label_name l +:+ ") WHERE " +:+ cond
    +:+ " RETURN " +:+ proj.

(** The query [MATCH (var:Label)rest], [rest] holding the optional WHERE
    clause and the projection. *)
Definition match_query (var : string) (l : label) (rest : string) : string :=
  "MATCH (" +:+ var +:+ ":" +:+ label_name l +:+ ")" +:+ rest.

(** The filtered query of the comment in [parseWhereQuery]. *)
Definition planner_query : string :=
  "MATCH (n:Agent) WHERE n.name = " +:+ quoted "planner" +:+ " RETURN n".

(** A count over agents whose filter mentions a claim marker. *)
Definition count_agents_marker_query : string :=
  "MATCH (n:Agent) WHERE n.name = " +:+ quoted ":Claim" +:+ " RETURN COUNT(n)".

(** The count rule as the specification words it: a MATCH over a
    supported label whose projection holds COUNT gives the count query
    over the label's collection, whatever the WHERE clause. *)
Definition count_rule_as_specified : Prop :=
  ∀ (var : string) (l : label) (clause proj : string),
    Contains proj "COUNT" = true →
    ParseQuery (match_query var l (clause +:+ " RETURN " +:+ proj))
    = Ok ("SELECT COUNT(*) FROM " +:+ collection l).

(** The text by which [parseCountQuery] and [parseSimpleMatchQuery]
    recognise a label. *)
Definition marker (l : label) : string := ":" +:+ label_name l.

(** The labels whose marker [parseCountQuery] tests before that of
    [l]: the tests come in the order Claim, Agent, Run, Artifact. *)
Definition tested_before (l : label) : list label :=
  match l with
  | LClaim => []
  | LAgent => [LClaim]
  | LRun => [LClaim; LAgent]
  | LArtifact => [LClaim; LAgent; LRun]
  end.

(** Whether the byte [c] occurs in [s]. *)
Fixpoint mem_char (c : ascii) (s : string) : bool :=
  match s with
  | EmptyString => false
  | String c' s' => if decide (c' = c) then true else mem_char c s'
  end.

End Queries.

(** ** Notions used to state the properties of the executor *)
Module Notions.
Import GoStrings orchestrator.

(** The request [executeStep] sends for a rendered input and an agent. *)
Definition request_for (input : string) (agent : kg.Agent.t)
    : providers.GenerateRequest.t :=
  providers.GenerateRequest.mk input (kg.Agent.SystemPrompt agent) 1000
    (7 # 10) 0 [] ∅.

(** A logged call that [executeStep] can have made for some agent of
    the store. *)
Definition call_ok (agents : list kg.Agent.t)
    (c : string * providers.GenerateRequest.t) : Prop :=
  ∃ agent input,
    agent ∈ agents ∧ c = (kg.Agent.ModelProvider agent, request_for input agent).

(** The calls made between world [w] and a later [w']. *)
Definition run_calls (w w' : World) : list (string * providers.GenerateRequest.t) :=
  drop (length (calls w)) (calls w').

(** The unchanged parts of the world across one [executeStep]. *)
Definition step_frame (w w' : World) : Prop :=
  trace w' = trace w
  ∧ kg.agents (db w') = kg.agents (db w)
  ∧ kg.runs (db w') = kg.runs (db w).

(** The rendering of [substituteVariables], [n] being the number of
    range loops made before. *)
Definition render (E : Env) (n : nat) (input : string)
    (variables : gmap string value) (results : gmap string StepResult.t) : string :=
  foldl (λ result stepName,
           match results !! stepName with
           | Some stepResult =>
               ReplaceAll result ("{{." +:+ stepName +:+ ".output}}")
                 (StepResult.Output stepResult)
           | None => result
           end)
    (foldl (λ result key,
              match variables !! key with
              | Some value => ReplaceAll result ("{{." +:+ key +:+ "}}") (fmt_v value)
              | None => result
              end)
       input (range_order E n (elements (dom variables))))
    (range_order E (S n) (elements (dom results))).

(** The metadata [executeStep] records for an answer. *)
Definition metadata_of (resp : providers.GenerateResponse.t) : gmap string value :=
  <["finish_reason" := VString (providers.GenerateResponse.FinishReason resp)]>
    (<["tokens_used" := VInt (providers.GenerateResponse.TokensUsed resp)]> ∅).

(** An artifact row without its id, run id and creation time. *)
Definition artifact_content (row : kg.ArtifactRow.t) :=
  (kg.ArtifactRow.step_name row, kg.ArtifactRow.agent_id row,
   kg.ArtifactRow.content row, kg.ArtifactRow.content_type row,
   kg.ArtifactRow.metadata row).

(** A step result without its start time, end time and duration. *)
Definition step_content (sr : StepResult.t)
    : string * string * string * string * string * string * gmap string value :=
  (StepResult.Name sr, StepResult.Agent sr, StepResult.Status sr,
   StepResult.Input sr, StepResult.Output sr, StepResult.Error sr,
   StepResult.Metadata sr).

(** The four ways [executeStep] ends, from world [w] to world [w'] with
    step result [sr] and the returned error: the agent is not found or
    the database fails; no provider is registered for the agent; the
    provider returns an error; the provider answers, and the artifact is
    written or its write fails and is logged. *)
Inductive step_outcome (E : Env) (o : Orchestrator) (runID : string)
    (step : WorkflowStep.t) (variables : gmap string value)
    (results : gmap string StepResult.t) (w w' : World) (sr : StepResult.t)
    : option error → Prop :=
| StepNoAgent e :
    (db_fault E (ops w) = None ∧ e = ErrNoRows
     ∧ kg.select_agent (WorkflowStep.Agent step) (db w) = None)
    ∨ (∃ msg, db_fault E (ops w) = Some msg ∧ e = ErrDatabase msg) →
    step_content sr
    = (WorkflowStep.Name step, WorkflowStep.Agent step, "failed", "", "",
       "failed to get agent: " +:+ Error e, ∅) →
    ops w' = S (ops w) →
    ranges w' = ranges w →
    calls w' = calls w →
    kg.artifacts (db w') = kg.artifacts (db w) →
    stdout w' = stdout w →
    step_outcome E o runID step variables results w w' sr (Some e)
| StepNoProvider agent :
    db_fault E (ops w) = None →
    kg.select_agent (WorkflowStep.Agent step) (db w) = Some agent →
    providers o !! kg.Agent.ModelProvider agent = None →
    step_content sr
    = (WorkflowStep.Name step, WorkflowStep.Agent step, "failed", "", "",
       "provider '" +:+ kg.Agent.ModelProvider agent +:+ "' not found", ∅) →
    ops w' = S (ops w) →
    ranges w' = S (S (ranges w)) →
    calls w' = calls w →
    kg.artifacts (db w') = kg.artifacts (db w) →
    stdout w' = stdout w →
    step_outcome E o runID step variables results w w' sr None
| StepGenerateFailed agent provider e :
    let input := render E (ranges w) (WorkflowStep.Input step) variables results in
    db_fault E (ops w) = None →
    kg.select_agent (WorkflowStep.Agent step) (db w) = Some agent →
    providers o !! kg.Agent.ModelProvider agent = Some provider →
    providers.Generate provider (length (calls w)) (request_for input agent)
    = inr e →
    calls w' = calls w ++ [(kg.Agent.ModelProvider agent, request_for input agent)] →
    step_content sr
    = (WorkflowStep.Name step, WorkflowStep.Agent step, "failed", "", "",
       "failed to generate response: " +:+ Error e, ∅) →
    ops w' = S (ops w) →
    ranges w' = S (S (ranges w)) →
    kg.artifacts (db w') = kg.artifacts (db w) →
    stdout w' = stdout w →
    step_outcome E o runID step variables results w w' sr (Some e)
| StepCompleted agent provider resp :
    let input := render E (ranges w) (WorkflowStep.Input step) variables results in
    db_fault E (ops w) = None →
    kg.select_agent (WorkflowStep.Agent step) (db w) = Some agent →
    providers o !! kg.Agent.ModelProvider agent = Some provider →
    providers.Generate provider (length (calls w)) (request_for input agent)
    = inl resp →
    calls w' = calls w ++ [(kg.Agent.ModelProvider agent, request_for input agent)] →
    step_content sr
    = (WorkflowStep.Name step, WorkflowStep.Agent step, "completed", "",
       providers.GenerateResponse.Text resp, "", metadata_of resp) →
    ops w' = S (S (ops w)) →
    ranges w' = S (S (ranges w)) →
    ((∃ e, kg.artifacts (db w') = kg.artifacts (db w)
           ∧ stdout w'
             = stdout w ++ ["Warning: failed to create artifact: " +:+ Error e])
     ∨ (∃ row, kg.artifacts (db w') = kg.artifacts (db w) ++ [row]
               ∧ kg.ArtifactRow.run_id row = runID
               ∧ artifact_content row
                 = (WorkflowStep.Name step, kg.Agent.ID agent,
                    providers.GenerateResponse.Text resp, "text/plain",
                    fmt_map (metadata_of resp))
               ∧ stdout w' = stdout w)) →
    step_outcome E o runID step variables results w w' sr None.

(** The names of the steps of a trace. *)
Definition names (tr : list (WorkflowStep.t * bool)) : list string :=
  (λ e, WorkflowStep.Name e.1) <$> tr.

Definition step_names (steps : list WorkflowStep.t) : list string :=
  WorkflowStep.Name <$> steps.

(** The part of the trace written between world [w] and a later [w']. *)
Definition run_trace (w w' : World) : list (WorkflowStep.t * bool) :=
  drop (length (trace w)) (trace w').

(** Every dependency of the [i]-th entry is the name of an earlier entry. *)
Definition deps_before (tr : list (WorkflowStep.t * bool)) : Prop :=
  ∀ i e dep, tr !! i = Some e → dep ∈ WorkflowStep.DependsOn e.1 →
    dep ∈ names (take i tr).

(** What holds of the trace of a run at every moment: no name twice,
    only steps of the workflow, dependencies first, only the last entry
    may have come back with an error, and an entry without error found
    its agent by id. *)
Record trace_ok (steps : list WorkflowStep.t) (agents : list kg.Agent.t)
    (tr : list (WorkflowStep.t * bool)) : Prop := mk_trace_ok {
  tr_nodup : NoDup (names tr);
  tr_steps : ∀ e, e ∈ tr → e.1 ∈ steps;
  tr_deps : deps_before tr;
  tr_flags : ∀ i e, tr !! i = Some e → (S i < length tr)%nat → e.2 = true;
  tr_agent : ∀ e, e ∈ tr → e.2 = true →
               ∃ a, a ∈ agents ∧ kg.Agent.ID a = WorkflowStep.Agent e.1;
}.

(** The invariant of the loop of [ExecuteWorkflow], [tr] being the trace
    of the run so far. *)
Record loop_inv (steps : list WorkflowStep.t) (agents : list kg.Agent.t)
    (tr : list (WorkflowStep.t * bool)) (st : LoopState) : Prop := mk_loop_inv {
  inv_trace : trace_ok steps agents tr;
  inv_flags : ∀ e, e ∈ tr → e.2 = true;
  inv_executed : ∀ n, executedSteps st !! n
                      = if decide (n ∈ names tr) then Some true else None;
  inv_size : size (executedSteps st) = length tr;
  inv_results : ∀ n, is_Some (stepResults st !! n) ↔ n ∈ names tr;
  inv_steps : ExecutionResult.Steps (result st) = stepResults st;
}.

(** A name is reachable when it is the name of a step all of whose
    dependencies are reachable: the step can run at some point. *)
Inductive reachable (steps : list WorkflowStep.t) : string → Prop :=
| reachable_step s :
    s ∈ steps →
    (∀ dep, dep ∈ WorkflowStep.DependsOn s → reachable steps dep) →
    reachable steps (WorkflowStep.Name s).

(** A valid acyclic workflow: step names are unique, every dependency
    names a step of the workflow, and the steps can be numbered so that
    every step comes after its dependencies. *)
Definition valid_acyclic (steps : list WorkflowStep.t) : Prop :=
  NoDup (step_names steps)
  ∧ (∀ s dep, s ∈ steps → dep ∈ WorkflowStep.DependsOn s → dep ∈ step_names steps)
  ∧ ∃ rank : string → nat,
      ∀ s dep, s ∈ steps → dep ∈ WorkflowStep.DependsOn s →
        (rank dep < rank (WorkflowStep.Name s))%nat.

(** A step a pass leaves alone: already executed, or with a dependency
    that is not. *)
Definition waiting (tr : list (WorkflowStep.t * bool)) (s : WorkflowStep.t) : Prop :=
  WorkflowStep.Name s ∈ names tr
  ∨ ∃ dep, dep ∈ WorkflowStep.DependsOn s ∧ dep ∉ names tr.

(** A pass as the specification words it: the steps are visited in
    declared order, and a step runs when it has not run in this run
    and every step named in its dependsOn has run, those run earlier
    in the same pass included.  [ran] lists the names of the steps
    run so far; the result lists the steps the pass runs, in the order
    in which it runs them. *)
Fixpoint pass_as_specified (todo : list WorkflowStep.t) (ran : list string)
    : list WorkflowStep.t :=
  match todo with
  | [] => []
  | s :: rest =>
      if bool_decide ((WorkflowStep.Name s ∉ ran)
                      ∧ Forall (λ dep, dep ∈ ran) (WorkflowStep.DependsOn s))
      then s :: pass_as_specified rest (ran ++ [WorkflowStep.Name s])
      else pass_as_specified rest ran
  end.

(** Passes are made, one after the other, until a pass runs nothing;
    [n] bounds their number. *)
Fixpoint schedule_from (n : nat) (steps : list WorkflowStep.t)
    (ran : list string) : list WorkflowStep.t :=
  match n with
  | O => []
  | S n' =>
      match pass_as_specified steps ran with
      | [] => []
      | p => p ++ schedule_from n' steps (ran ++ step_names p)
      end
  end.

(** The order of execution the specification prescribes for a run in
    which no step fails.  A pass that runs something runs a step not
    run before, so there are at most as many such passes as steps. *)
Definition schedule_as_specified (steps : list WorkflowStep.t)
    : list WorkflowStep.t :=
  schedule_from (length steps) steps [].

(** What [ExecuteWorkflow] does after its loop: the run is marked
    completed. *)
Definition after_loop (E : Env) (runID : string) (st : LoopState) : M outcome :=
  endTime ← Now E;
  let result := finish (result st) "completed" "" endTime in
  _ ← UpdateRunStatus E runID "completed"
        (fmt_map (ExecutionResult.Output result)) "";
  mret (Returned (Some result) None).

(** The run row [CreateRun] inserts. *)
Definition fresh_run_row (runID : string) (row : kg.RunRow.t) : Prop :=
  kg.RunRow.id row = runID
  ∧ kg.RunRow.status row = "running"
  ∧ kg.RunRow.output_data row = None
  ∧ kg.RunRow.completed_at row = None
  ∧ kg.RunRow.duration_ms row = None
  ∧ kg.RunRow.error_message row = None.

(** The three ways the loop of [ExecuteWorkflow] ends.  [tr] is the
    trace of the run, [runs0] the runs table when the loop starts and
    [w'] the world when it ends. *)
Inductive run_outcome (E : Env) (steps : list WorkflowStep.t) (runID : string)
    (tr : list (WorkflowStep.t * bool)) (runs0 : list kg.RunRow.t)
    (w' : World) : outcome → Prop :=
| RunStalled :
    (∀ e, e ∈ tr → e.2 = true) →
    (length tr < length steps)%nat →
    (∀ s, s ∈ steps → waiting tr s) →
    kg.runs (db w') = runs0 →
    run_outcome E steps runID tr runs0 w' (Returned None (Some ErrStalled))
| RunCompleted res :
    (∀ e, e ∈ tr → e.2 = true) →
    (length steps ≤ length tr)%nat →
    ExecutionResult.Status res = "completed" →
    ExecutionResult.Error res = "" →
    is_Some (ExecutionResult.EndTime res) →
    is_Some (ExecutionResult.Duration res) →
    (∀ n, is_Some (ExecutionResult.Steps res !! n) ↔ n ∈ names tr) →
    ((∀ n, db_fault E n = None) →
     ∃ t output, kg.runs (db w')
                 = kg.update_row runID "completed" output "" t <$> runs0) →
    run_outcome E steps runID tr runs0 w' (Returned (Some res) None)
| RunFailed res e pre s :
    tr = pre ++ [(s, false)] →
    (∀ x, x ∈ pre → x.2 = true) →
    ExecutionResult.Status res = "failed" →
    ExecutionResult.Error res = Error e →
    is_Some (ExecutionResult.EndTime res) →
    is_Some (ExecutionResult.Duration res) →
    ((∀ n, db_fault E n = None) →
     ∃ t, kg.runs (db w')
          = kg.update_row runID "failed" "" (Error e) t <$> runs0) →
    run_outcome E steps runID tr runs0 w' (Returned (Some res) (Some e)).

(** *** Content, apart from identifiers and timestamps *)

(** What the executor reads of an agent. *)
Definition agent_view (a : kg.Agent.t) : string * string * string :=
  (kg.Agent.ID a, kg.Agent.ModelProvider a, kg.Agent.SystemPrompt a).

(** An execution result without its run id and times. *)
Definition result_content (r : ExecutionResult.t) :=
  (ExecutionResult.Status r, ExecutionResult.Error r,
   step_content <$> ExecutionResult.Steps r, ExecutionResult.Output r).

Definition outcome_content (out : outcome) :=
  match out with
  | Returned r e => Some (result_content <$> r, e)
  | OutOfFuel => None
  end.

(** A run row without its id and times. *)
Definition run_row_content (row : kg.RunRow.t) :=
  (kg.RunRow.workflow_name row, kg.RunRow.status row, kg.RunRow.input_data row,
   kg.RunRow.output_data row, kg.RunRow.error_message row,
   kg.RunRow.metadata row).

(** Two environments that differ at most in their clocks. *)
Definition env_agree (E1 E2 : Env) : Prop :=
  (∀ n, db_fault E1 n = db_fault E2 n)
  ∧ (∀ n keys, range_order E1 n keys = range_order E2 n keys).

(** Two worlds the executor cannot tell apart, whatever their clocks,
    runs, artifacts and output so far. *)
Definition world_agree (w1 w2 : World) : Prop :=
  agent_view <$> kg.agents (db w1) = agent_view <$> kg.agents (db w2)
  ∧ ops w1 = ops w2
  ∧ ranges w1 = ranges w2
  ∧ length (calls w1) = length (calls w2).

(** Two loop states with the same content. *)
Definition state_agree (st1 st2 : LoopState) : Prop :=
  executedSteps st1 = executedSteps st2
  ∧ step_content <$> stepResults st1 = step_content <$> stepResults st2
  ∧ result_content (result st1) = result_content (result st2)
  ∧ progress st1 = progress st2.

(** The runs tables of two runs: in each the last row is the row of the
    run, the only one with its id, and the two rows have the same
    content. *)
Definition runs_agree (runID1 runID2 : string) (rs1 rs2 : list kg.RunRow.t) : Prop :=
  ∃ base1 row1 base2 row2,
    rs1 = base1 ++ [row1] ∧ rs2 = base2 ++ [row2]
    ∧ kg.RunRow.id row1 = runID1 ∧ kg.RunRow.id row2 = runID2
    ∧ (runID1 ∉ kg.RunRow.id <$> base1) ∧ (runID2 ∉ kg.RunRow.id <$> base2)
    ∧ run_row_content row1 = run_row_content row2.

(** The artifact rows and output lines added between [w] and [w']: every
    content of [attempts] was written as a row or cost a warning line. *)
Definition writes_within (attempts : list (string * string * string * string * string))
    (w w' : World) : Prop :=
  ∃ rows lines,
    kg.artifacts (db w') = kg.artifacts (db w) ++ rows
    ∧ stdout w' = stdout w ++ lines
    ∧ artifact_content <$> rows `sublist_of` attempts
    ∧ (length rows + length lines = length attempts)%nat.

(** Two stretches of execution, from [w1] to [w1'] and from [w2] to
    [w2'], with the same steps, the same calls and the same attempted
    artifact writes. *)
Definition ext_agree (w1 w1' w2 w2' : World) : Prop :=
  (∃ seg, trace w1' = trace w1 ++ seg ∧ trace w2' = trace w2 ++ seg)
  ∧ (∃ cs, calls w1' = calls w1 ++ cs ∧ calls w2' = calls w2 ++ cs)
  ∧ (∃ attempts, writes_within attempts w1 w1' ∧ writes_within attempts w2 w2').

(** The artifact rows written between [w] and a later [w']. *)
Definition run_artifacts (w w' : World) : list kg.ArtifactRow.t :=
  drop (length (kg.artifacts (db w))) (kg.artifacts (db w')).

(** The same steps and calls in two runs, from [w1] to [w1'] and from
    [w2] to [w2']. *)
Definition same_run (w1 w1' w2 w2' : World) : Prop :=
  run_trace w1 w1' = run_trace w2 w2'
  ∧ run_calls w1 w1' = run_calls w2 w2'.

(** The world with the model name of every stored agent replaced. *)
Definition set_model_name (f : kg.Agent.t → string) (a : kg.Agent.t) : kg.Agent.t :=
  kg.Agent.mk (kg.Agent.ID a) (kg.Agent.Name a) (kg.Agent.Type_ a)
    (kg.Agent.Description a) (kg.Agent.ModelProvider a) (f a)
    (kg.Agent.SystemPrompt a) (kg.Agent.CreatedAt a) (kg.Agent.UpdatedAt a).

Definition with_model_names (f : kg.Agent.t → string) (w : World) : World :=
  mkWorld
    (kg.mkDB (set_model_name f <$> kg.agents (db w)) (kg.runs (db w))
       (kg.artifacts (db w)))
    (ticks w) (ops w) (ranges w) (stdout w) (calls w) (trace w).

(** The parameters of a logged call that do not depend on the step. *)
Definition fixed_parameters (agents : list kg.Agent.t)
    (c : string * providers.GenerateRequest.t) : Prop :=
  providers.GenerateRequest.Temperature c.2 = 7 # 10
  ∧ providers.GenerateRequest.MaxTokens c.2 = 1000
  ∧ providers.GenerateRequest.Stop c.2 = []
  ∧ providers.GenerateRequest.TopP c.2 = 0%Q
  ∧ providers.GenerateRequest.Metadata c.2 = ∅
  ∧ ∃ agent, agent ∈ agents
             ∧ c.1 = kg.Agent.ModelProvider agent
             ∧ providers.GenerateRequest.SystemPrompt c.2
               = kg.Agent.SystemPrompt agent.

(** Determinism as the specification words it: the environment may pick
    any time and any order of the keys for a range loop, and the two
    invocations still agree on the steps, the rendered inputs sent to
    the provider, and the content of the result. *)
Definition determinism_as_specified : Prop :=
  ∀ (E1 E2 : Env) (o : Orchestrator) (workflow : Workflow.t)
    (variables : gmap string value) (w : World),
    (∀ n, db_fault E1 n = db_fault E2 n) →
    (∀ n keys, range_order E1 n keys ≡ₚ keys) →
    (∀ n keys, range_order E2 n keys ≡ₚ keys) →
    let r1 := ExecuteWorkflow E1 o workflow variables w in
    let r2 := ExecuteWorkflow E2 o workflow variables w in
    same_run w r1.2 w r2.2 ∧ outcome_content r1.1 = outcome_content r2.1.

End Notions.

(** ** Concrete scenarios *)
Module Scenarios.
Import orchestrator Notions.

(** A clock that advances one second per reading, a database without
    failures of its own, and maps ranged over in key order. *)
Definition E0 : Env :=
  mkEnv (λ n, 1700000000000000000 + Z.of_nat n * 1000000000) (λ _, None)
    (λ _ keys, keys).

(** The same as [E0] on another day, the clock advancing three seconds
    per reading. *)
Definition E_late : Env :=
  mkEnv (λ n, 1800000000000000000 + Z.of_nat n * 3000000000) (db_fault E0)
    (range_order E0).

(** The same, with every map ranged over in reverse key order. *)
Definition E_rev : Env :=
  mkEnv (now E0) (db_fault E0) (λ _ keys, reverse keys).

(** The same as [E0], the database operation number [k] failing. *)
Definition E_fault (k : nat) : Env :=
  mkEnv (now E0)
    (λ n, if decide (n = k) then Some "database is locked" else None)
    (range_order E0).

Definition agent (id name provider : string) : kg.Agent.t :=
  kg.Agent.mk id name "worker" "" provider "llama3.1"
    ("You are the " +:+ name +:+ " agent.") 0 0.

Definition world (agents : list kg.Agent.t) : World :=
  mkWorld (kg.mkDB agents [] []) 0 0 0 [] [] [].

(** A provider that answers every request with the same text. *)
Definition constant_stub (text : string) : providers.Provider :=
  providers.mkProvider
    (λ _ _, inl (providers.GenerateResponse.mk text 7 "stop" ∅)).

(** A provider whose answer is a fixed function of the prompt. *)
Definition echo_stub : providers.Provider :=
  providers.mkProvider
    (λ _ req, inl (providers.GenerateResponse.mk
                     ("echo: " +:+ providers.GenerateRequest.Prompt req) 7
                     "stop" ∅)).

(** A provider that always fails. *)
Definition failing_stub : providers.Provider :=
  providers.mkProvider (λ _ _, inr (ErrProvider "API request failed with status 500: oops")).

Definition step (name agent input : string) (dependsOn : list string)
    : WorkflowStep.t :=
  WorkflowStep.mk name agent input dependsOn "".

Definition workflow (steps : list WorkflowStep.t) : Workflow.t :=
  Workflow.mk "main_workflow" "" [] steps ∅.

(** plan, research, write: the chain of the specification, declared
    out of order. *)
Definition chain_agents : list kg.Agent.t :=
  [agent "planner" "planner" "stub"; agent "researcher" "researcher" "stub";
   agent "writer" "writer" "stub"].

Definition chain : Workflow.t :=
  workflow [step "write" "writer" "W: {{.research.output}}" ["research"];
            step "plan" "planner" "{{.input}}" [];
            step "research" "researcher" "R: {{.plan.output}}" ["plan"]].

Definition chain_vars : gmap string value := {["input" := VString "hello"]}.

Definition o_echo : Orchestrator :=
  RegisterProvider NewOrchestrator "stub" echo_stub.

Definition chain_run : outcome * World :=
  ExecuteWorkflow E0 o_echo chain chain_vars (world chain_agents).

(** a depends on b, b depends on a, and c depends on a missing step;
    d is free. *)
Definition cyclic : Workflow.t :=
  workflow [step "a" "planner" "A" ["b"]; step "b" "planner" "B" ["a"];
            step "c" "planner" "C" ["ghost"]; step "d" "planner" "D" []].

Definition cyclic_run : outcome * World :=
  ExecuteWorkflow E0 o_echo cyclic ∅ (world chain_agents).

(** Two steps whose agent names a provider nobody registered. *)
Definition orphan_agents : list kg.Agent.t :=
  [agent "planner" "planner" "ollama"].

Definition orphan : Workflow.t :=
  workflow [step "first" "planner" "one" [];
            step "second" "planner" "two: {{.first.output}}" ["first"]].

Definition orphan_run : outcome * World :=
  ExecuteWorkflow E0 NewOrchestrator orphan ∅ (world orphan_agents).

(** A draft by an agent whose provider nobody registered, and a text
    written from it by an agent whose provider is registered. *)
Definition half_agents : list kg.Agent.t :=
  [agent "planner" "planner" "ollama"; agent "writer" "writer" "stub"].

Definition half : Workflow.t :=
  workflow [step "draft" "planner" "one" [];
            step "write" "writer" "W: {{.draft.output}}" ["draft"]].

Definition half_run : outcome * World :=
  ExecuteWorkflow E0 o_echo half ∅ (world half_agents).

(** An agent whose id is not its name. *)
Definition named_agents : list kg.Agent.t :=
  [agent "AGENT_1" "planner" "stub"].

Definition by_name_step : WorkflowStep.t := step "plan" "planner" "go" [].
Definition by_id_step : WorkflowStep.t := step "plan" "AGENT_1" "go" [].

(** The first step fails in the provider; the second never runs. *)
Definition o_failing : Orchestrator :=
  RegisterProvider NewOrchestrator "stub" failing_stub.

Definition failing_run : outcome * World :=
  ExecuteWorkflow E0 o_failing chain chain_vars (world chain_agents).

(** The chain with the first artifact write failing: operation 0 is
    CreateRun, 1 the GetAgent of plan, 2 its CreateArtifact. *)
Definition lost_artifact_run : outcome * World :=
  ExecuteWorkflow (E_fault 2) o_echo chain chain_vars (world chain_agents).

(** One step whose input names the variable a, the value of a naming
    the variable b. *)
Definition nested : Workflow.t :=
  workflow [step "render" "planner" "{{.a}}" []].

Definition nested_vars : gmap string value :=
  {["a" := VString "{{.b}}"; "b" := VString "X"]}.

Definition o_constant : Orchestrator :=
  RegisterProvider NewOrchestrator "stub" (constant_stub "DONE").

(** The prompts of the calls of a run, and the outputs of its steps. *)
Definition prompts (r : outcome * World) : list string :=
  (λ c, providers.GenerateRequest.Prompt c.2) <$> calls r.2.

Definition contents (r : outcome * World) : list string :=
  kg.ArtifactRow.content <$> kg.artifacts (db r.2).

Definition late_chain_run : outcome * World :=
  ExecuteWorkflow E_late o_echo chain chain_vars (world chain_agents).

(** The plan step alone, its CreateArtifact (the second database
    operation of the step) failing. *)
Definition plan_step : WorkflowStep.t := step "plan" "planner" "{{.input}}" [].

Definition lost_artifact_step : StepResult.t * option error * World :=
  executeStep (E_fault 1) o_echo "RUN_1" plan_step chain_vars ∅
    (world chain_agents).

(** The local variables of the loop once plan has been executed. *)
Definition plan_done : LoopState :=
  record_step
    (mkLoop ∅ ∅ (ExecutionResult.mk "RUN_1" "running" 0 None None ∅ ∅ "") false)
    "plan" lost_artifact_step.1.1.

(** The world after a step: the ghost note added. *)
Definition noted (w : World) (step : WorkflowStep.t) (ok : bool) : World :=
  (note_step step ok w).2.

End Scenarios.


(** * The rest of the code: more of the parser, the driver, the provider
      clients, the prompt loader and the scaffold command *)

(** ** Shapes of queries *)
Module QueryShapes.
Import GoStrings QueryParser Queries.

(** Whether every byte of [s] is one of the six ASCII white-space
    bytes: tab, line feed, vertical tab, form feed, carriage return,
    space. *)
Fixpoint all_space (s : string) : bool :=
  match s with
  | EmptyString => true
  | String c s' => is_space c && all_space s'
  end.

(** The query [MATCH (var:lab)rest] for any label text [lab]. *)
Definition match_labelled (var lab rest : string) : string :=
  "MATCH (" +:+ var +:+ ":" +:+ lab +:+ ")" +:+ rest.

(** A filtered count written with lower-case keywords. *)
Definition lower_case_count (var : string) (l : label) (cond arg : string) : string :=
  "match (" +:+ var +:+ ":" +:+ label_name l +:+ ") where " +:+ cond
    +:+ " return count(" +:+ arg +:+ ")".

(** A text without colon and without the capitals O and W: it can hold
    neither a label marker nor the keywords COUNT and WHERE. *)
Definition plain (s : string) : bool :=
  negb (mem_char ":" s) && negb (mem_char "O" s) && negb (mem_char "W" s).

(** The messages of the errors of the three MATCH paths. *)
Definition unsupported_entity (msg : string) : Prop :=
  msg = "unsupported entity type in COUNT query"
  ∨ msg = "unsupported entity type in WHERE query"
  ∨ msg = "unsupported entity type in simple MATCH query".

End QueryShapes.

(** ** More notions for the executor *)
Module RunNotions.
Import GoStrings orchestrator Notions.

(** The artifact rows added between [w] and [w'] all carry the id of
    the run; the rows there before are untouched. *)
Definition own_artifacts (runID : string) (w w' : World) : Prop :=
  ∃ rows, kg.artifacts (db w') = kg.artifacts (db w) ++ rows
          ∧ Forall (λ row, kg.ArtifactRow.run_id row = runID) rows.

(** The runs table after an [UpdateRunStatus] whose result is ignored:
    the statement took effect, or the database failed on it and the
    table is as before. *)
Definition runs_updated (E : Env) (runID status output err : string)
    (rs rs' : list kg.RunRow.t) : Prop :=
  (rs' = rs ∧ ∃ n msg, db_fault E n = Some msg)
  ∨ ∃ t, rs' = kg.update_row runID status output err t <$> rs.

(** What holds of the local variables of the loop besides [loop_inv]:
    the result carries the step results recorded so far, under the names
    marked executed; its output is empty and its id is the one of the
    run; every recorded step result bears the name it is recorded
    under, an empty input, and a final status. *)
Record results_inv (runID : string) (st : LoopState) : Prop := mk_results_inv {
  ri_steps : ExecutionResult.Steps (result st) = stepResults st;
  ri_output : ExecutionResult.Output (result st) = ∅;
  ri_run : ExecutionResult.RunID (result st) = runID;
  ri_dom : ∀ n, is_Some (stepResults st !! n) ↔ executed (executedSteps st) n = true;
  ri_each : ∀ n sr, stepResults st !! n = Some sr →
              StepResult.Name sr = n ∧ StepResult.Input sr = ""
              ∧ (StepResult.Status sr = "completed"
                 ∨ StepResult.Status sr = "failed");
}.

(** The result of a run that ended on the state [st] at time [t]. *)
Definition ended_on (runID : string) (res : ExecutionResult.t)
    (status err : string) : Prop :=
  ∃ st t, results_inv runID st ∧ res = finish (result st) status err t.

(** The run row as [ExecuteWorkflow] creates it. *)
Definition created_row (workflow : Workflow.t) (variables : gmap string value)
    (runID : string) (row : kg.RunRow.t) : Prop :=
  ∃ t, row = kg.RunRow.mk runID (Workflow.Name workflow) "running"
               (fmt_map variables) None t None None None
               (fmt_map (Workflow.Variables workflow)).

End RunNotions.

(** ** More scenarios *)
Module MoreScenarios.
Import orchestrator Notions Scenarios.

(** The same as [E0], the clock advancing one millisecond per reading. *)
Definition E_quick : Env :=
  mkEnv (λ n, 1700000000000000000 + Z.of_nat n * 1000000) (db_fault E0)
    (range_order E0).

(** The chain run twice in a row within one second. *)
Definition quick_run : outcome * World :=
  ExecuteWorkflow E_quick o_echo chain chain_vars (world chain_agents).

Definition second_quick_run : outcome * World :=
  ExecuteWorkflow E_quick o_echo chain chain_vars quick_run.2.

(** Two steps under one name. *)
Definition twice : Workflow.t :=
  workflow [step "plan" "planner" "one" []; step "plan" "planner" "two" []].

Definition twice_run : outcome * World :=
  ExecuteWorkflow E0 o_echo twice ∅ (world chain_agents).

(** A workflow without steps. *)
Definition no_steps : Workflow.t := workflow [].

(** The result and the error of an outcome that has them. *)
Definition result_of (out : outcome) : ExecutionResult.t :=
  match out with
  | Returned (Some r) _ => r
  | _ => ExecutionResult.mk "" "" 0 None None ∅ ∅ ""
  end.

Definition error_of (out : outcome) : error :=
  match out with
  | Returned _ (Some e) => e
  | _ => ErrStalled
  end.

(** The step result stored under plan by the run of the chain. *)
Definition plan_result : StepResult.t :=
  default (StepResult.mk "" "" "" "?" "" 0 None None "" ∅)
    (ExecutionResult.Steps (result_of chain_run.1) !! "plan").

(** An input with a placeholder no variable and no step result fills. *)
Definition open_input : string := "Summarise {{.topic}} for {{.plan.result}}".

End MoreScenarios.

(** ** [internal/kg/driver.go], continued: agents and spans *)
Module driver.
Import orchestrator.

(** [INSERT INTO agents (id, name, type, description, model_provider,
    model_name, system_prompt)]: the id is the primary key; the two
    timestamps of the struct are not sent, the columns take their
    default, the current time to the second. *)
Definition insert_agent (agent : kg.Agent.t) (t : Z) (d : kg.DB)
    : option error * kg.DB :=
  if bool_decide (kg.Agent.ID agent ∈ kg.Agent.ID <$> kg.agents d)
  then (Some (ErrConstraint "agents.id"), d)
  else (None,
        kg.mkDB
          (kg.agents d
             ++ [kg.Agent.mk (kg.Agent.ID agent) (kg.Agent.Name agent)
                   (kg.Agent.Type_ agent) (kg.Agent.Description agent)
                   (kg.Agent.ModelProvider agent) (kg.Agent.ModelName agent)
                   (kg.Agent.SystemPrompt agent)
                   (Unix t * 1000000000) (Unix t * 1000000000)])
          (kg.runs d) (kg.artifacts d)).

(** [Driver.CreateAgent]. *)
Definition CreateAgent (E : Env) (agent : kg.Agent.t) : M (option error) :=
  t ← Now E;
  r ← db_exec E (λ d, let '(e, d') := insert_agent agent t d in
                      (match e with Some e => inr e | None => inl () end, d'));
  mret (as_error r).

(** The [kg.Span] struct. *)
Module Span.
Record t := mk {
  ID : string;
  RunID : string;
  ParentSpanID : string;
  Name : string;
  StartTime : Z;
  EndTime : option Z;
  DurationMs : option Z;
  Status : string;
  Metadata : string;
}.
End Span.

(** A row of the [spans] table. *)
Module SpanRow.
Record t := mk {
  id : string;
  run_id : string;
  parent_span_id : string;
  name : string;
  start_time : Z;
  end_time : option Z;
  duration_ms : option Z;
  status : string;
  metadata : string;
}.
End SpanRow.

(** [time.Duration] is a signed 64-bit count of nanoseconds; [Time.Sub]
    saturates at its bounds. *)
Definition minDuration : Z := - 2 ^ 63.
Definition maxDuration : Z := 2 ^ 63 - 1.

Definition Sub (t u : Z) : Z := Z.max minDuration (Z.min maxDuration (t - u)).

(** [time.Until(t)] when the clock reads [now]. *)
Definition Until (now t : Z) : Z := Sub t now.

(** [Duration.Milliseconds]: integer division, rounding toward zero. *)
Definition Milliseconds (d : Z) : Z := d ÷ 1000000.

(** [INSERT INTO spans (id, run_id, parent_span_id, name, start_time,
    status, metadata)]. *)
Definition insert_span (span : Span.t) (spans : list SpanRow.t)
    : option error * list SpanRow.t :=
  if bool_decide (Span.ID span ∈ SpanRow.id <$> spans)
  then (Some (ErrConstraint "spans.id"), spans)
  else (None,
        spans ++ [SpanRow.mk (Span.ID span) (Span.RunID span)
                    (Span.ParentSpanID span) (Span.Name span)
                    (Span.StartTime span) None None (Span.Status span)
                    (Span.Metadata span)]).

(** [Driver.CreateSpan] on the spans table; [fault] is a failure of the
    database of its own. *)
Definition CreateSpan (fault : option string) (span : Span.t)
    (spans : list SpanRow.t) : option error * list SpanRow.t :=
  match fault with
  | Some msg => (Some (ErrDatabase msg), spans)
  | None => insert_span span spans
  end.

(** The UPDATE of [UpdateSpan] on one row. *)
Definition update_span (spanID : string) (endTime duration : Z)
    (status metadata : string) (row : SpanRow.t) : SpanRow.t :=
  if bool_decide (SpanRow.id row = spanID)
  then SpanRow.mk (SpanRow.id row) (SpanRow.run_id row)
         (SpanRow.parent_span_id row) (SpanRow.name row)
         (SpanRow.start_time row) (Some endTime) (Some duration) status
         metadata
  else row.

(** [Driver.UpdateSpan], the clock reading [now] at the call of
    [time.Until]; [int] has 64 bits. *)
Definition UpdateSpan (fault : option string) (now : Z) (spanID : string)
    (endTime : Z) (status metadata : string) (spans : list SpanRow.t)
    : option error * list SpanRow.t :=
  let duration := Milliseconds (Until now endTime) in
  match fault with
  | Some msg => (Some (ErrDatabase msg), spans)
  | None => (None, update_span spanID endTime duration status metadata <$> spans)
  end.

(** An agent as it is stored at time [t]. *)
Definition stored_at (t : Z) (agent : kg.Agent.t) : kg.Agent.t :=
  kg.Agent.mk (kg.Agent.ID agent) (kg.Agent.Name agent) (kg.Agent.Type_ agent)
    (kg.Agent.Description agent) (kg.Agent.ModelProvider agent)
    (kg.Agent.ModelName agent) (kg.Agent.SystemPrompt agent)
    (Unix t * 1000000000) (Unix t * 1000000000).

(** A span opened at [start] and closed [elapsed] nanoseconds later, the
    update being issued [lag] nanoseconds after the end was taken. *)
Definition closed_span (start elapsed lag : Z) : list SpanRow.t :=
  let opened :=
    (CreateSpan None
       (Span.mk "SPAN_1" "RUN_1" "" "agent.planner" start None None "running" "")
       []).2 in
  (UpdateSpan None (start + elapsed + lag) "SPAN_1" (start + elapsed)
     "completed" "" opened).2.

End driver.

(** ** The provider clients: [Generate] over HTTP *)
Module clients.
Import providers.

(** A request as it is handed to [httpClient.Do]. *)
Record HTTPRequest := mkHTTPRequest {
  method : string;
  url : string;
  headers : list (string * string);
  payload : string;
}.

(** What [httpClient.Do] gives back: an error, or a response with its
    status code and the bytes read from its body.  [Do] belongs to
    [net/http]: the client is built without a redirect policy, so [Do]
    follows redirects itself, and the response is the last one of the
    chain; one call of [Do] may put several requests on the network. *)
Inductive exchange :=
| Failed (msg : string)
| Answered (status : Z) (body : string).

(** What is outside the client: whether a URL can be made into a
    request ([http.NewRequestWithContext]), and what the n-th call of
    [httpClient.Do] gives back. *)
Record Net := mkNet {
  new_request_error : string → option string;
  Do : nat → HTTPRequest → exchange;
}.

(** The requests handed to [httpClient.Do] so far, one per call. *)
Definition Log := list HTTPRequest.

(** A JSON value as [encoding/json] writes it: an object lists its
    fields in the order of the struct.  A string stands for its
    content, the escaping is not modelled. *)
#[local] Unset Elimination Schemes.
Inductive json :=
| JString (s : string)
| JInt (n : Z)
| JFloat (q : Q)
| JArray (items : list json)
| JObject (fields : list (string * json)).
#[local] Set Elimination Schemes.

Module openai_api.

Definition message_body (m : openai.ChatCompletionMessage) : json :=
  JObject [("role", JString (openai.Role m));
           ("content", JString (openai.Content m))].

(** The JSON object [json.Marshal] writes for a
    [ChatCompletionRequest], field by field after its struct tags:
    model and messages are always written; max_tokens, temperature,
    top_p and stop carry [omitempty] and are left out when they are
    zero or empty. *)
Definition body (r : openai.ChatCompletionRequest) : json :=
  JObject
    ([("model", JString (openai.Model r));
      ("messages", JArray (message_body <$> openai.Messages r))]
     ++ (if bool_decide (openai.MaxTokens r = 0) then []
         else [("max_tokens", JInt (openai.MaxTokens r))])
     ++ (if Qeq_bool (openai.Temperature r) 0 then []
         else [("temperature", JFloat (openai.Temperature r))])
     ++ (if Qeq_bool (openai.TopP r) 0 then []
         else [("top_p", JFloat (openai.TopP r))])
     ++ (match openai.Stop r with
         | [] => []
         | stop => [("stop", JArray (JString <$> stop))]
         end)).

Record Choice := mkChoice {
  Index : Z;
  MessageRole : string;
  MessageContent : string;
  FinishReason : string;
}.

Record ChatCompletionResponse := mkResponse {
  ID : string;
  Object : string;
  Created : Z;
  Model : string;
  Choices : list Choice;
  PromptTokens : Z;
  CompletionTokens : Z;
  TotalTokens : Z;
}.

Section generate.
(** [json.Marshal] of the request, and
    [json.NewDecoder(resp.Body).Decode], the reading of the body
    included. *)
Context (marshal : openai.ChatCompletionRequest → string + string)
  (decode : string → ChatCompletionResponse + string)
  (net : Net).

Definition Generate (c : openai.Client) (req : GenerateRequest.t) (log : Log)
    : (GenerateResponse.t + error) * Log :=
  let openaiReq := openai.request c req in
  match marshal openaiReq with
  | inr msg => (inr (ErrProvider ("failed to marshal request: " +:+ msg)), log)
  | inl jsonData =>
      let target := openai.baseURL c +:+ "/chat/completions" in
      match new_request_error net target with
      | Some msg => (inr (ErrProvider ("failed to create request: " +:+ msg)), log)
      | None =>
          let httpReq :=
            mkHTTPRequest "POST" target
              [("Content-Type", "application/json");
               ("Authorization", "Bearer " +:+ openai.apiKey c)]
              jsonData in
          let log' := log ++ [httpReq] in
          match Do net (length log) httpReq with
          | Failed msg =>
              (inr (ErrProvider ("failed to send request: " +:+ msg)), log')
          | Answered status body =>
              if bool_decide (status ≠ 200)
              then (inr (ErrProvider ("API request failed with status "
                                        +:+ pretty status +:+ ": " +:+ body)),
                    log')
              else
                match decode body with
                | inr msg =>
                    (inr (ErrProvider ("failed to decode response: " +:+ msg)),
                     log')
                | inl openaiResp =>
                    match Choices openaiResp with
                    | [] => (inr (ErrProvider "no choices in response"), log')
                    | choice :: _ =>
                        (inl (GenerateResponse.mk (MessageContent choice)
                                (TotalTokens openaiResp) (FinishReason choice)
                                (<["model" := Model openaiResp]>
                                   (<["prompt_tokens" :=
                                        pretty (PromptTokens openaiResp)]>
                                      (<["completion_tokens" :=
                                           pretty (CompletionTokens openaiResp)]>
                                         ∅)))),
                         log')
                    end
                end
          end
      end
  end.

End generate.
End openai_api.

Module ollama_api.

Record GenerateResponse := mkResponse {
  Model : string;
  CreatedAt : string;
  Response : string;
  Done : bool;
  Context : list Z;
  TotalDuration : Z;
  LoadDuration : Z;
  PromptEvalCount : Z;
  PromptEvalDuration : Z;
  EvalCount : Z;
  EvalDuration : Z;
}.

Section generate.
Context (marshal : ollama.GenerateRequest → string + string)
  (decode : string → GenerateResponse + string)
  (net : Net).

Definition Generate (c : ollama.Client) (req : GenerateRequest.t) (log : Log)
    : (GenerateResponse.t + error) * Log :=
  let ollamaReq := ollama.request c req in
  match marshal ollamaReq with
  | inr msg => (inr (ErrProvider ("failed to marshal request: " +:+ msg)), log)
  | inl jsonData =>
      let target := ollama.baseURL c +:+ "/api/generate" in
      match new_request_error net target with
      | Some msg => (inr (ErrProvider ("failed to create request: " +:+ msg)), log)
      | None =>
          let httpReq :=
            mkHTTPRequest "POST" target [("Content-Type", "application/json")]
              jsonData in
          let log' := log ++ [httpReq] in
          match Do net (length log) httpReq with
          | Failed msg =>
              (inr (ErrProvider ("failed to send request: " +:+ msg)), log')
          | Answered status body =>
              if bool_decide (status ≠ 200)
              then (inr (ErrProvider ("API request failed with status "
                                        +:+ pretty status +:+ ": " +:+ body)),
                    log')
              else
                match decode body with
                | inr msg =>
                    (inr (ErrProvider ("failed to decode response: " +:+ msg)),
                     log')
                | inl ollamaResp =>
                    (inl (providers.GenerateResponse.mk (Response ollamaResp)
                            (EvalCount ollamaResp) "stop"
                            (<["model" := Model ollamaResp]>
                               (<["total_duration" :=
                                    pretty (TotalDuration ollamaResp)]>
                                  (<["eval_duration" :=
                                       pretty (EvalDuration ollamaResp)]> ∅)))),
                     log')
                end
          end
      end
  end.

End generate.
End ollama_api.

(** A backend for the scenarios: JSON is not modelled, a body is its
    own text and decodes to a reply with that text. *)
Module stub.

Definition net (status : Z) (body : string) : Net :=
  mkNet (λ _, None) (λ _ _, Answered status body).

Definition openai_marshal (r : openai.ChatCompletionRequest) : string + string :=
  inl (String.concat "|" (openai.Content <$> openai.Messages r)).

Definition openai_decode (choices : nat) (body : string)
    : openai_api.ChatCompletionResponse + string :=
  inl (openai_api.mkResponse "chatcmpl-1" "chat.completion" 0 "gpt-4o"
         (replicate choices (openai_api.mkChoice 0 "assistant" body "length"))
         11 31 42).

Definition ollama_marshal (r : ollama.GenerateRequest) : string + string :=
  inl (ollama.Prompt r).

Definition ollama_decode (done : bool) (body : string)
    : ollama_api.GenerateResponse + string :=
  inl (ollama_api.mkResponse "llama3.1" "" body done [] 900 100 11 300 31 500).

Definition openai_client : openai.Client :=
  openai.mkClient "https://api.openai.com/v1" "sk-test" "gpt-4o".

Definition ollama_client : ollama.Client :=
  ollama.mkClient "http://localhost:11434" "llama3.1".

Definition request : GenerateRequest.t :=
  GenerateRequest.mk "hello" "be brief" 1000 (7 # 10) 0 [] ∅.

End stub.

End clients.

(** ** [internal/prompt/loader.go]

    The templates are those of [text/template]; parsing and execution
    belong to that library and are parameters here.  An error is its
    message. *)
Module prompt.

Record Guard := mkGuard {
  Condition : string;
  Message : string;
}.

Record Prompt := mkPrompt {
  Name : string;
  Description : string;
  Template : string;
  Variables : gmap string string;
  Guards : list Guard;
}.

(** The first key of [keys], in order, that [variables] does not hold. *)
Fixpoint first_missing (keys : list string) (variables : gmap string value)
    : option string :=
  match keys with
  | [] => None
  | key :: rest =>
      match variables !! key with
      | None => Some key
      | Some _ => first_missing rest variables
      end
  end.

(** The loop over the guards; [order n] is the order in which the n-th
    range loop over the variables of the prompt visits their keys. *)
Fixpoint validate (order : nat → list string → list string) (n : nat)
    (declared : gmap string string) (guards : list Guard)
    (variables : gmap string value) : option string :=
  match guards with
  | [] => None
  | guard :: rest =>
      if bool_decide (Condition guard = "required")
      then
        match first_missing (order n (elements (dom declared))) variables with
        | Some key =>
            Some ("guard validation failed: required variable '" +:+ key
                    +:+ "' not provided")
        | None => validate order (S n) declared rest variables
        end
      else validate order n declared rest variables
  end.

Definition ValidateGuards (order : nat → list string → list string)
    (p : Prompt) (variables : gmap string value) : option string :=
  validate order 0 (Variables p) (Guards p) variables.

Section loader.
Context {T : Type}.
(** [template.New(name).Funcs(...).Parse(content)] and
    [tmpl.Execute(&buf, variables)]. *)
Context (parse : string → string → T + string)
  (execute : T → gmap string value → string + string).

Record Loader := mkLoader {
  templates : gmap string T;
}.

Definition NewLoader : Loader := mkLoader ∅.

Definition LoadPrompt (l : Loader) (name content : string)
    : option string * Loader :=
  match parse name content with
  | inr msg => (Some ("failed to parse template: " +:+ msg), l)
  | inl tmpl => (None, mkLoader (<[name := tmpl]> (templates l)))
  end.

Definition RenderPrompt (l : Loader) (name : string)
    (variables : gmap string value) : string * option string :=
  match templates l !! name with
  | None => ("", Some ("prompt template '" +:+ name +:+ "' not found"))
  | Some tmpl =>
      match execute tmpl variables with
      | inr msg => ("", Some ("failed to render template: " +:+ msg))
      | inl text => (text, None)
      end
  end.

(** The names are appended in the order the range loop visits them. *)
Definition GetAvailablePrompts (order : list string → list string)
    (l : Loader) : list string :=
  order (elements (dom (templates l))).

(** A series of loads, the errors ignored. *)
Definition load_all (l : Loader) (items : list (string * string)) : Loader :=
  foldl (λ l item, (LoadPrompt l item.1 item.2).2) l items.

(** The template of the last load of [name] in [items] that parsed. *)
Fixpoint latest (items : list (string * string)) (name : string) : option T :=
  match items with
  | [] => None
  | item :: rest =>
      match latest rest name with
      | Some tmpl => Some tmpl
      | None =>
          if decide (item.1 = name)
          then match parse item.1 item.2 with
               | inl tmpl => Some tmpl
               | inr _ => None
               end
          else None
      end
  end.

End loader.

(** A stand-in for the template library: a template is its text, a
    text with an unclosed action does not parse, and execution returns
    the text. *)
Module stub.
Import GoStrings.

Definition parse (name content : string) : string + string :=
  if Contains content "{{" && negb (Contains content "}}")
  then inr "unclosed action"
  else inl content.

Definition execute (tmpl : string) (variables : gmap string value)
    : string + string := inl tmpl.

Definition loads : list (string * string) :=
  [("greet", "Hello {{.name}}"); ("plan", "Plan {{.task}}");
   ("greet", "Hi {{.name"); ("plan", "Plan for {{.task}}")].

Definition gated : Prompt :=
  mkPrompt "plan" "" "Plan {{.task}}"
    {["task" := "the task"; "tone" := "the tone"]}
    [mkGuard "optional" ""; mkGuard "required" "task and tone are needed"].

End stub.

End prompt.

(** ** [internal/cli/build.go]: the scaffold command

    The file system is outside the program: the model records the
    operations issued, in order, and what is printed; the n-th operation
    fails when the environment says so.  [filepath.Join] is a
    parameter. *)
Module cli.
Import GoStrings.

Definition nl : string := String (ascii_of_nat 10) EmptyString.

(** A text made of lines, each ended by a newline. *)
Definition text (lines : list string) : string :=
  foldr (λ line rest, line +:+ nl +:+ rest) "" lines.

Inductive fs_op :=
| MkdirAll (path : string) (perm : Z)
| WriteFile (name : string) (data : string) (perm : Z).

Record State := mkState {
  issued : list fs_op;
  printed : list string;
}.

Definition plannerConfig : string :=
  text
    ["name: planner";
     "type: planner";
     "description: " +:+ quoted "Main planning agent that breaks down tasks";
     "model:";
     "  provider: ollama";
     "  model: llama3.1";
     "prompts:";
     "  system: " +:+ quoted "You are a task planning agent. Break down complex tasks into smaller, manageable steps.";
     "tools: []"].

Definition workerConfigs : list (string * string) :=
  [("researcher", "Agent that researches and gathers information");
   ("analyzer", "Agent that analyzes data and extracts insights");
   ("writer", "Agent that writes and formats content");
   ("reviewer", "Agent that reviews and validates outputs")].

(** The [Sprintf] of a worker's configuration. *)
Definition workerConfig (name desc : string) : string :=
  text
    ["name: " +:+ name;
     "type: worker";
     "description: " +:+ quoted desc;
     "model:";
     "  provider: ollama";
     "  model: llama3.1";
     "prompts:";
     "  system: " +:+ quoted ("You are a " +:+ name +:+ " agent. " +:+ desc);
     "tools: []"].

Definition workflowYaml : string :=
  text
    ["name: main_workflow";
     "description: " +:+ quoted "Main workflow for the application";
     "agents:";
     "  - planner";
     "  - researcher";
     "  - analyzer";
     "  - writer";
     "  - reviewer";
     "steps:";
     "  - name: plan";
     "    agent: planner";
     "    input: " +:+ quoted "{{.input}}";
     "  - name: research";
     "    agent: researcher";
     "    depends_on: [plan]";
     "    input: " +:+ quoted "{{.plan.output}}";
     "  - name: analyze";
     "    agent: analyzer";
     "    depends_on: [research]";
     "    input: " +:+ quoted "{{.research.output}}";
     "  - name: write";
     "    agent: writer";
     "    depends_on: [analyze]";
     "    input: " +:+ quoted "{{.analyze.output}}";
     "  - name: review";
     "    agent: reviewer";
     "    depends_on: [write]";
     "    input: " +:+ quoted "{{.write.output}}"].

Definition configYaml (appName : string) : string :=
  text ["app:"] +:+ "  name: " +:+ dquote +:+ appName +:+ dquote +:+ nl
    +:+ text
          ["  version: " +:+ quoted "1.0.0";
           "";
           "database:";
           "  type: sqlite";
           "  path: " +:+ quoted "./medallion.db";
           "";
           "providers:";
           "  ollama:";
           "    base_url: " +:+ quoted "http://localhost:11434";
           "    timeout: 30s";
           "  openai:";
           "    api_key: " +:+ quoted "${OPENAI_API_KEY}";
           "    base_url: " +:+ quoted "https://api.openai.com/v1";
           "    timeout: 30s";
           "";
           "logging:";
           "  level: info";
           "  format: json"].

(** The check mark the success line starts with, in UTF-8. *)
Definition check_mark : string :=
  String (ascii_of_nat 226) (String (ascii_of_nat 156)
    (String (ascii_of_nat 133) EmptyString)).

Section build.
Context (Join : list string → string) (fs_fault : nat → option string).

(** One operation on the file system. *)
Definition fs (op : fs_op) (st : State) : option string * State :=
  (fs_fault (length (issued st)), mkState (issued st ++ [op]) (printed st)).

Definition print (line : string) (st : State) : State :=
  mkState (issued st) (printed st ++ [line]).

(** [for _, dir := range dirs]. *)
Fixpoint make_dirs (outputDir : string) (dirs : list string) (st : State)
    : option string * State :=
  match dirs with
  | [] => (None, st)
  | dir :: rest =>
      let '(err, st) := fs (MkdirAll (Join [outputDir; dir]) 493) st in
      match err with
      | Some msg =>
          (Some ("failed to create " +:+ dir +:+ " directory: " +:+ msg), st)
      | None => make_dirs outputDir rest st
      end
  end.

(** [for _, worker := range workerConfigs]. *)
Fixpoint write_workers (outputDir : string) (workers : list (string * string))
    (st : State) : option string * State :=
  match workers with
  | [] => (None, st)
  | (name, desc) :: rest =>
      let config := workerConfig name desc in
      let '(err, st) :=
        fs (WriteFile (Join [outputDir; "agents"; name +:+ ".yaml"]) config 420)
          st in
      match err with
      | Some msg =>
          (Some ("failed to create " +:+ name +:+ " config: " +:+ msg), st)
      | None => write_workers outputDir rest st
      end
  end.

Definition generateBasicScaffold (appName outputDir : string) (st : State)
    : option string * State :=
  let dirs := ["agents"; "configs"; "prompts"; "workflows"; "data"] in
  let '(err, st) := make_dirs outputDir dirs st in
  match err with
  | Some e => (Some e, st)
  | None =>
  let '(err, st) :=
    fs (WriteFile (Join [outputDir; "agents"; "planner.yaml"]) plannerConfig 420)
      st in
  match err with
  | Some msg => (Some ("failed to create planner config: " +:+ msg), st)
  | None =>
  let '(err, st) := write_workers outputDir workerConfigs st in
  match err with
  | Some e => (Some e, st)
  | None =>
  let '(err, st) :=
    fs (WriteFile (Join [outputDir; "workflows"; "main.yaml"]) workflowYaml 420)
      st in
  match err with
  | Some msg => (Some ("failed to create workflow: " +:+ msg), st)
  | None =>
  let '(err, st) :=
    fs (WriteFile (Join [outputDir; "config.yaml"]) (configYaml appName) 420)
      st in
  match err with
  | Some msg => (Some ("failed to create config: " +:+ msg), st)
  | None =>
  let st := print (check_mark +:+ " Project scaffold generated successfully in '"
                     +:+ outputDir +:+ "'") st in
  let st := print "Next steps:" st in
  let st := print ("  1. cd " +:+ outputDir) st in
  let st := print "  2. Configure your agents in the agents/ directory" st in
  let st := print "  3. Update config.yaml with your settings" st in
  let st := print "  4. Run: medallion run --workflow workflows/main.yaml --var input='your input here'" st in
  (None, st)
  end end end end end.

Definition generateResearchScaffold (appName outputDir : string) (st : State)
    : option string * State :=
  generateBasicScaffold appName outputDir st.

Definition generateChatScaffold (appName outputDir : string) (st : State)
    : option string * State :=
  generateBasicScaffold appName outputDir st.

Definition buildProject (template appName outputDir : string) (st : State)
    : option string * State :=
  let st := print ("Building project '" +:+ appName +:+ "' with template '"
                     +:+ template +:+ "' in directory '" +:+ outputDir +:+ "'")
              st in
  let '(err, st) := fs (MkdirAll outputDir 493) st in
  match err with
  | Some msg => (Some ("failed to create output directory: " +:+ msg), st)
  | None =>
      if decide (template = "1+4") then generateBasicScaffold appName outputDir st
      else if decide (template = "research")
      then generateResearchScaffold appName outputDir st
      else if decide (template = "chat")
      then generateChatScaffold appName outputDir st
      else (Some ("unknown template: " +:+ template), st)
  end.

(** The operations of a complete scaffold, in order, each with the
    words that introduce its error. *)
Definition scaffold_plan (appName outputDir : string) : list (fs_op * string) :=
  [(MkdirAll outputDir 493, "failed to create output directory: ");
   (MkdirAll (Join [outputDir; "agents"]) 493,
    "failed to create agents directory: ");
   (MkdirAll (Join [outputDir; "configs"]) 493,
    "failed to create configs directory: ");
   (MkdirAll (Join [outputDir; "prompts"]) 493,
    "failed to create prompts directory: ");
   (MkdirAll (Join [outputDir; "workflows"]) 493,
    "failed to create workflows directory: ");
   (MkdirAll (Join [outputDir; "data"]) 493,
    "failed to create data directory: ");
   (WriteFile (Join [outputDir; "agents"; "planner.yaml"]) plannerConfig 420,
    "failed to create planner config: ");
   (WriteFile (Join [outputDir; "agents"; "researcher.yaml"])
      (workerConfig "researcher" "Agent that researches and gathers information")
      420,
    "failed to create researcher config: ");
   (WriteFile (Join [outputDir; "agents"; "analyzer.yaml"])
      (workerConfig "analyzer" "Agent that analyzes data and extracts insights")
      420,
    "failed to create analyzer config: ");
   (WriteFile (Join [outputDir; "agents"; "writer.yaml"])
      (workerConfig "writer" "Agent that writes and formats content") 420,
    "failed to create writer config: ");
   (WriteFile (Join [outputDir; "agents"; "reviewer.yaml"])
      (workerConfig "reviewer" "Agent that reviews and validates outputs") 420,
    "failed to create reviewer config: ");
   (WriteFile (Join [outputDir; "workflows"; "main.yaml"]) workflowYaml 420,
    "failed to create workflow: ");
   (WriteFile (Join [outputDir; "config.yaml"]) (configYaml appName) 420,
    "failed to create config: ")].

(** A plan carried out one operation after the other, up to the first
    that fails. *)
Fixpoint run_plan (plan : list (fs_op * string)) (st : State)
    : option string * State :=
  match plan with
  | [] => (None, st)
  | (op, words) :: rest =>
      let '(err, st) := fs op st in
      match err with
      | Some msg => (Some (words +:+ msg), st)
      | None => run_plan rest st
      end
  end.

(** The lines printed once the scaffold is complete. *)
Definition success_lines (outputDir : string) : list string :=
  [check_mark +:+ " Project scaffold generated successfully in '"
     +:+ outputDir +:+ "'";
   "Next steps:";
   "  1. cd " +:+ outputDir;
   "  2. Configure your agents in the agents/ directory";
   "  3. Update config.yaml with your settings";
   "  4. Run: medallion run --workflow workflows/main.yaml --var input='your input here'"].

Definition building_line (template appName outputDir : string) : string :=
  "Building project '" +:+ appName +:+ "' with template '" +:+ template
    +:+ "' in directory '" +:+ outputDir +:+ "'".

End build.

(** A template known to [buildProject]. *)
Definition known_template (template : string) : Prop :=
  template = "1+4" ∨ template = "research" ∨ template = "chat".

(** A path joined with slashes, for the scenarios. *)
Definition slashes (parts : list string) : string := String.concat "/" parts.

(** A file system on which the operation number [k] fails. *)
Definition failing_at (k : nat) (n : nat) : option string :=
  if decide (n = k) then Some "permission denied" else None.

Definition fresh : State := mkState [] [].

End cli.
(** * Properties *)

(** ** Strings *)
Section string_facts.
Import GoStrings Queries.

Lemma append_cons c s1 s2 : String c s1 +:+ s2 = String c (s1 +:+ s2).
Proof. reflexivity. Qed.

Lemma append_nil s : EmptyString +:+ s = s.
Proof. reflexivity. Qed.

Lemma append_assoc s1 s2 s3 : (s1 +:+ s2) +:+ s3 = s1 +:+ s2 +:+ s3.
Proof.
  induction s1 as [|c s1 IH]; [done|]. by rewrite !append_cons, IH.
Qed.

Lemma Contains_index_of s p :
  Contains s p = match index_of s p with Some _ => true | None => false end.
Proof.
  unfold Contains, Index. destruct (index_of s p) as [i|].
  - apply bool_decide_eq_true. lia.
  - apply bool_decide_eq_false. lia.
Qed.

Lemma Contains_cons_ne c s p ps :
  c ≠ p → Contains (String c s) (String p ps) = Contains s (String p ps).
Proof.
  intros Hne. rewrite !Contains_index_of. cbn [index_of HasPrefix].
  destruct (decide (c = p)) as [->|_]; [done|].
  destruct (index_of s (String p ps)); reflexivity.
Qed.

Lemma Contains_absent_head s p ps :
  mem_char p s = false → Contains s (String p ps) = false.
Proof.
  induction s as [|c s IH]; intros Hs.
  - reflexivity.
  - cbn [mem_char] in Hs. destruct (decide (c = p)) as [|Hne]; [done|].
    rewrite Contains_cons_ne by done. auto.
Qed.

Lemma Contains_append_r pre s p :
  Contains s p = true → Contains (pre +:+ s) p = true.
Proof.
  rewrite !Contains_index_of. intros Hs. induction pre as [|c pre IH].
  - exact Hs.
  - rewrite append_cons. cbn [index_of].
    destruct (HasPrefix (String c (pre +:+ s)) p); [done|].
    destruct (index_of (pre +:+ s) p); done.
Qed.

Lemma mem_char_append c s1 s2 :
  mem_char c (s1 +:+ s2) = mem_char c s1 || mem_char c s2.
Proof.
  induction s1 as [|c' s1 IH]; [done|].
  rewrite append_cons. cbn [mem_char]. destruct (decide (c' = c)); auto.
Qed.

(** A marker [":" ++ m] in a text whose only colon is the one shown is
    found exactly when [m] follows that colon. *)
Lemma Contains_marker pre post m :
  mem_char ":" pre = false → mem_char ":" post = false →
  Contains (pre +:+ String ":" post) (String ":" m) = HasPrefix post m.
Proof.
  intros Hpre Hpost. induction pre as [|c pre IH].
  - rewrite append_nil, Contains_index_of. cbn [index_of HasPrefix].
    rewrite decide_True by done. destruct (HasPrefix post m); [done|].
    pose proof (Contains_absent_head post ":" m Hpost) as Hno.
    rewrite Contains_index_of in Hno.
    destruct (index_of post (String ":" m)); done.
  - cbn [mem_char] in Hpre. destruct (decide (c = ":"%char)) as [|Hne]; [done|].
    rewrite append_cons, Contains_cons_ne by done. auto.
Qed.

Lemma trim_right_cons c s :
  is_space c = false → trim_right (String c s) = String c (trim_right s).
Proof.
  intros Hc. cbn [trim_right]. rewrite Hc. destruct (trim_right s); reflexivity.
Qed.

(** A text that starts with the keyword is dispatched as a MATCH query. *)
Lemma MATCH_prefix s :
  HasPrefix (ToUpper (TrimSpace ("MATCH" +:+ s))) "MATCH" = true.
Proof.
  unfold TrimSpace. rewrite !append_cons, append_nil. cbn [trim_left].
  replace (is_space "M") with false by reflexivity.
  rewrite !trim_right_cons by reflexivity. cbn [ToUpper HasPrefix].
  reflexivity.
Qed.

End string_facts.

(** ** The query parser *)
Section query_parser_facts.
Import GoStrings QueryParser Queries.

Lemma ParseQuery_count q :
  HasPrefix (ToUpper (TrimSpace q)) "MATCH" = true →
  Contains q "COUNT" = true →
  ParseQuery q = parseCountQuery q.
Proof.
  intros Hm Hc. unfold ParseQuery, parseMatchQuery. by rewrite Hm, Hc.
Qed.

(** C8 (code): on the query of its own comment [parseWhereQuery] keeps
    the RETURN clause in the condition; for the labels Claim, Run and
    Artifact it returns the unsupported-entity error; and the prefix it
    strips is the text [n.], whatever the bound variable. *)
Theorem parseWhereQuery_keeps_return_and_only_agents :
  ParseQuery planner_query
  = Ok "SELECT * FROM agents WHERE name = 'planner' RETURN n"
  ∧ ParseQuery (match_where "n" LClaim ("n.id = " +:+ quoted "x") "n")
    = Err "unsupported entity type in WHERE query"
  ∧ ParseQuery (match_where "n" LRun ("n.id = " +:+ quoted "x") "n")
    = Err "unsupported entity type in WHERE query"
  ∧ ParseQuery (match_where "n" LArtifact ("n.id = " +:+ quoted "x") "n")
    = Err "unsupported entity type in WHERE query"
  ∧ ParseQuery (match_where "a" LAgent ("a.name = " +:+ quoted "x") "a")
    = Ok "SELECT * FROM agents WHERE a.name = 'x' RETURN a".
Proof.
  split_and!; reflexivity.
Qed.

(** C9 (counterexample): a count over agents whose WHERE literal holds
    the text [:Claim] is translated to a count over claims, so the count
    rule does not hold for every query as the specification words it. *)
Lemma count_rule_counterexample :
  ParseQuery count_agents_marker_query = Ok "SELECT COUNT(*) FROM claims"
  ∧ ¬ count_rule_as_specified.
Proof.
  split; [reflexivity|]. intros H.
  specialize (H "n" LAgent (" WHERE n.name = " +:+ quoted ":Claim") "COUNT(n)"
                eq_refl).
  vm_compute in H. discriminate H.
Qed.

(** The marker of its own label occurs in a query over that label. *)
Lemma Contains_own_marker var l rest :
  Contains (match_query var l rest) (marker l) = true.
Proof.
  assert (Hp : ∀ p s, HasPrefix (p +:+ s) p = true).
  { intros p s. induction p as [|c p IH]; [by destruct s|].
    rewrite append_cons. cbn [HasPrefix]. by rewrite decide_True. }
  unfold match_query, marker. do 2 apply Contains_append_r.
  change (":" +:+ label_name l +:+ ")" +:+ rest)
    with (String ":" (label_name l +:+ ")" +:+ rest)).
  change (":" +:+ label_name l) with (String ":" (label_name l)).
  rewrite Contains_index_of. cbn [index_of HasPrefix].
  by rewrite decide_True, Hp.
Qed.

(** C9 (amended): a query [MATCH (var:L)clause RETURN proj] over one of
    the four labels whose projection holds COUNT is translated to the
    count query over the collection of [L], with no filter and whatever
    [clause] is, exactly when the marker of no label tested before [L]
    (a colon followed by Claim, Agent or Run, in that order) occurs in
    the text of the query.  Colons elsewhere, as in a time of day or a
    URL in a WHERE literal, do no harm, and a count over claims is
    always translated to a count over claims. *)
Theorem count_query_ignores_where (var : string) (l : label) (clause proj : string) :
  Contains proj "COUNT" = true →
  let query := match_query var l (clause +:+ " RETURN " +:+ proj) in
  ParseQuery query = Ok ("SELECT COUNT(*) FROM " +:+ collection l)
  ↔ Forall (λ l', Contains query (marker l') = false) (tested_before l).
Proof.
  intros Hcount query.
  pose proof (Contains_own_marker var l (clause +:+ " RETURN " +:+ proj)) as Hown.
  fold query in Hown.
  rewrite ParseQuery_count; cycle 1.
  { apply (MATCH_prefix (" (" +:+ var +:+ ":" +:+ label_name l +:+ ")"
                           +:+ clause +:+ " RETURN " +:+ proj)). }
  { unfold query, match_query. by do 7 apply Contains_append_r. }
  unfold parseCountQuery. clearbody query.
  destruct l; cbn [tested_before collection] in *;
    rewrite ?Forall_cons, ?Forall_nil;
    change (marker LClaim) with ":Claim" in *;
    change (marker LAgent) with ":Agent" in *;
    change (marker LRun) with ":Run" in *;
    change (marker LArtifact) with ":Artifact" in *;
    destruct (Contains query ":Claim"), (Contains query ":Agent"),
      (Contains query ":Run"), (Contains query ":Artifact");
    try discriminate Hown;
    (split; [intros Heq; vm_compute in Heq; try discriminate Heq; tauto
            |intros Hno; try reflexivity; exfalso; destruct_and?; done]).
Qed.

(** A count over runs filtered by a time of day, colons included, and
    the count over claims of the specification. *)
Lemma count_query_ignores_where_witness :
  ParseQuery (match_query "n" LRun (" WHERE n.started = '12:30'"
                                      +:+ " RETURN " +:+ "COUNT(n)"))
  = Ok ("SELECT COUNT(*) FROM " +:+ collection LRun)
  ∧ ParseQuery (match_query "n" LClaim ("" +:+ " RETURN " +:+ "COUNT(n)"))
    = Ok ("SELECT COUNT(*) FROM " +:+ collection LClaim).
Proof.
  split.
  - apply (count_query_ignores_where "n" LRun " WHERE n.started = '12:30'"
             "COUNT(n)"); [reflexivity|].
    repeat constructor.
  - apply (count_query_ignores_where "n" LClaim "" "COUNT(n)"); [reflexivity|].
    constructor.
Defined.

End query_parser_facts.

(** ** The executor: one step *)

(** Unfolds the monad and the primitives down to worlds. *)
Ltac run_monad :=
  unfold mbind, orchestrator.M_bind, mret, orchestrator.M_ret,
    orchestrator.Now, orchestrator.db_exec, orchestrator.Printf,
    orchestrator.call_Generate, orchestrator.range_keys,
    orchestrator.note_step, orchestrator.as_error in *;
  cbn [orchestrator.db orchestrator.ticks orchestrator.ops
       orchestrator.ranges orchestrator.stdout orchestrator.calls
       orchestrator.trace fst snd] in *.

Section step_facts.
Import orchestrator Notions.
Context (E : Env).

Lemma select_agent_Some id d agent :
  kg.select_agent id d = Some agent →
  agent ∈ kg.agents d ∧ kg.Agent.ID agent = id.
Proof.
  unfold kg.select_agent. intros H.
  apply find_some in H as [Hin Hid].
  split; [by apply list_elem_of_In|]. by apply bool_decide_eq_true in Hid.
Qed.

Lemma select_agent_None id d :
  kg.select_agent id d = None ↔ ∀ agent, agent ∈ kg.agents d → kg.Agent.ID agent ≠ id.
Proof.
  unfold kg.select_agent. split.
  - intros H agent Hin Hid. apply list_elem_of_In in Hin.
    eapply find_none in H; [|exact Hin]. by apply bool_decide_eq_false in H.
  - intros H. destruct (find _ _) as [a|] eqn:Hf; [|done].
    apply find_some in Hf as [Hin Hid]. apply bool_decide_eq_true in Hid.
    apply list_elem_of_In in Hin. by destruct (H a Hin).
Qed.


Lemma substituteVariables_render input variables results w :
  substituteVariables E input variables results w
  = (render E (ranges w) input variables results,
     mkWorld (db w) (ticks w) (ops w) (S (S (ranges w))) (stdout w) (calls w)
       (trace w)).
Proof. reflexivity. Qed.

Lemma executeStep_spec o runID step variables results w sr err w' :
  executeStep E o runID step variables results w = ((sr, err), w') →
  step_frame w w'
  ∧ StepResult.Name sr = WorkflowStep.Name step
  ∧ StepResult.Agent sr = WorkflowStep.Agent step
  ∧ step_outcome E o runID step variables results w w' sr err.
Proof.
  unfold executeStep, GetAgent, CreateArtifact.
  unfold mbind at 1, M_bind at 1, Now at 1.
  unfold mbind at 1, M_bind at 1, db_exec at 1. cbn [ops db].
  intros H.
  destruct (db_fault E (ops w)) as [msg|] eqn:Hfault.
  { unfold mret, M_ret in H. simplify_eq. repeat split.
    eapply StepNoAgent; eauto. }
  destruct (kg.select_agent (WorkflowStep.Agent step) (db w)) as [agent|] eqn:Hsel.
  2:{ unfold mret, M_ret in H. simplify_eq. repeat split.
      eapply StepNoAgent; eauto. }
  unfold mbind at 1, M_bind at 1 in H.
  rewrite substituteVariables_render in H. cbn [ranges] in H.
  destruct (providers o !! kg.Agent.ModelProvider agent) as [provider|] eqn:Hprov.
  2:{ unfold mret, M_ret in H. simplify_eq. repeat split.
      eapply StepNoProvider; eauto. }
  run_monad.
  match type of H with
  | context [providers.Generate provider _ ?req] =>
      destruct (providers.Generate provider (length (calls w)) req)
        as [resp|e] eqn:Hgen
  end.
  2:{ simplify_eq. repeat split. eapply StepGenerateFailed; eauto. }
  cbn [db ticks ops ranges stdout calls trace] in H.
  destruct (db_fault E (S (ops w))) as [msg|] eqn:Hfault2.
  { simplify_eq. repeat split. eapply StepCompleted; eauto. }
  unfold kg.insert_artifact in H.
  case_bool_decide; cbn [db ticks ops ranges stdout calls trace] in H; simplify_eq.
  - repeat split. eapply StepCompleted; eauto.
  - repeat split. eapply StepCompleted; eauto.
    right. eexists. repeat split.
Qed.

Lemma step_outcome_calls o runID step variables results w w' sr err :
  step_outcome E o runID step variables results w w' sr err →
  ∃ cs, calls w' = calls w ++ cs ∧ Forall (call_ok (kg.agents (db w))) cs.
Proof.
  intros [e _ _ _ _ Hc|agent _ _ _ _ _ _ Hc|agent prov e input _ Hsel _ _ Hc
          |agent prov resp input _ Hsel _ _ Hc].
  - exists []. by rewrite app_nil_r.
  - exists []. by rewrite app_nil_r.
  - eexists. split; [done|]. repeat constructor.
    exists agent, input. by apply select_agent_Some in Hsel as [? _].
  - eexists. split; [done|]. repeat constructor.
    exists agent, input. by apply select_agent_Some in Hsel as [? _].
Qed.

(** A step that comes back without error found its agent. *)
Lemma step_outcome_agent o runID step variables results w w' sr :
  step_outcome E o runID step variables results w w' sr None →
  ∃ agent, kg.select_agent (WorkflowStep.Agent step) (db w) = Some agent.
Proof. inversion 1; eauto. Qed.

(** The status, output and error of a step result. *)
Lemma step_content_fields sr name agent status input output err metadata :
  step_content sr = (name, agent, status, input, output, err, metadata) →
  StepResult.Status sr = status ∧ StepResult.Output sr = output
  ∧ StepResult.Error sr = err.
Proof. unfold step_content. intros H. by simplify_eq. Qed.

Lemma UpdateRunStatus_counters runID status outputData errorMessage w :
  let w' := (UpdateRunStatus E runID status outputData errorMessage w).2 in
  ops w' = S (ops w) ∧ ranges w' = ranges w.
Proof.
  unfold UpdateRunStatus. run_monad. by destruct (db_fault E (ops w)).
Qed.

Lemma UpdateRunStatus_spec runID status outputData errorMessage w r w' :
  UpdateRunStatus E runID status outputData errorMessage w = (r, w') →
  trace w' = trace w
  ∧ calls w' = calls w
  ∧ stdout w' = stdout w
  ∧ kg.agents (db w') = kg.agents (db w)
  ∧ kg.artifacts (db w') = kg.artifacts (db w)
  ∧ kg.runs (db w')
    = match db_fault E (ops w) with
      | Some _ => kg.runs (db w)
      | None =>
          kg.update_row runID status outputData errorMessage (now E (ticks w))
            <$> kg.runs (db w)
      end.
Proof.
  unfold UpdateRunStatus. run_monad. intros H.
  destruct (db_fault E (ops w)); by simplify_eq.
Qed.

End step_facts.

(** ** The executor: one pass over the steps *)
Section scan_facts.
Import orchestrator Notions.
Context (E : Env) (o : Orchestrator) (runID : string)
  (variables : gmap string value).

Lemma names_app tr1 tr2 : names (tr1 ++ tr2) = names tr1 ++ names tr2.
Proof. unfold names. apply fmap_app. Qed.

Lemma executed_true m n : executed m n = true ↔ m !! n = Some true.
Proof. unfold executed. destruct (m !! n) as [[]|]; naive_solver. Qed.

Lemma executed_inv steps agents tr st n :
  loop_inv steps agents tr st →
  executed (executedSteps st) n = true ↔ n ∈ names tr.
Proof.
  intros Hinv. rewrite executed_true, (inv_executed _ _ _ _ Hinv).
  case_decide; naive_solver.
Qed.

Lemma areDependenciesSatisfied_spec deps m :
  areDependenciesSatisfied deps m = true
  ↔ ∀ dep, dep ∈ deps → executed m dep = true.
Proof.
  induction deps as [|d deps IH]; cbn [areDependenciesSatisfied].
  - split; [|done]. intros _ dep Hin. by apply elem_of_nil in Hin.
  - destruct (executed m d) eqn:Hd; cbn [negb].
    + rewrite IH. split.
      * intros H dep [Heq|Hin]%elem_of_cons; subst; auto.
      * intros H dep Hin. apply H. by right.
    + split; [done|]. intros H. rewrite H in Hd; [done|by left].
Qed.

Lemma trace_ok_nil steps agents : trace_ok steps agents [].
Proof.
  split.
  - constructor.
  - intros e Hin. by apply elem_of_nil in Hin.
  - intros i e dep Hi. by rewrite lookup_nil in Hi.
  - intros i e Hi. by rewrite lookup_nil in Hi.
  - intros e Hin. by apply elem_of_nil in Hin.
Qed.

(** Appending a step whose dependencies are in the trace and whose name
    is not keeps the trace well formed, whatever its flag, as long as
    all earlier entries came back without error. *)
Lemma trace_ok_snoc steps agents tr step ok :
  trace_ok steps agents tr →
  (∀ e, e ∈ tr → e.2 = true) →
  step ∈ steps →
  WorkflowStep.Name step ∉ names tr →
  (∀ dep, dep ∈ WorkflowStep.DependsOn step → dep ∈ names tr) →
  (ok = true → ∃ a, a ∈ agents ∧ kg.Agent.ID a = WorkflowStep.Agent step) →
  trace_ok steps agents (tr ++ [(step, ok)]).
Proof.
  intros [Hnd Hst Hdeps Hfl Hag] Hall Hin Hfresh Hsat Hagent. split.
  - rewrite names_app. apply NoDup_app. split; [done|]. split.
    + intros n Hn [Heq|Hn']%elem_of_cons; [by subst|by apply elem_of_nil in Hn'].
    + apply NoDup_singleton.
  - intros e [He|He%list_elem_of_singleton]%elem_of_app; subst; auto.
  - intros i e dep Hi Hdep.
    destruct (decide (i < length tr)%nat) as [Hlt|Hge].
    + rewrite lookup_app_l in Hi by done.
      rewrite take_app_le by lia. eauto.
    + rewrite lookup_app_r in Hi by lia.
      apply list_lookup_singleton_Some in Hi as [Hi <-].
      assert (i = length tr) as -> by lia.
      rewrite take_app_length. auto.
  - intros i e Hi Hlt. rewrite length_app in Hlt. cbn in Hlt.
    rewrite lookup_app_l in Hi by lia.
    apply Hall. by eapply list_elem_of_lookup_2.
  - intros e [He|He%list_elem_of_singleton]%elem_of_app Hok; subst; auto.
Qed.

Lemma loop_inv_record steps agents tr st step stepResult :
  loop_inv steps agents tr st →
  step ∈ steps →
  WorkflowStep.Name step ∉ names tr →
  (∀ dep, dep ∈ WorkflowStep.DependsOn step → dep ∈ names tr) →
  (∃ a, a ∈ agents ∧ kg.Agent.ID a = WorkflowStep.Agent step) →
  loop_inv steps agents (tr ++ [(step, true)])
    (record_step st (WorkflowStep.Name step) stepResult).
Proof.
  intros [Htr Hfl Hex Hsz Hres Hsteps] Hin Hfresh Hsat Hagent. split.
  - apply trace_ok_snoc; auto.
  - intros e [He|He%list_elem_of_singleton]%elem_of_app; subst; auto.
  - intros n. cbn [record_step executedSteps]. rewrite names_app.
    destruct (decide (n = WorkflowStep.Name step)) as [->|Hne].
    + rewrite lookup_insert_eq. rewrite decide_True; [done|].
      apply elem_of_app. right. by left.
    + rewrite lookup_insert_ne by done. rewrite Hex.
      destruct (decide (n ∈ names tr)) as [Hn|Hn];
        destruct (decide (n ∈ names tr ++ names [(step, true)])) as [Hn'|Hn'];
        try done.
      * exfalso. apply Hn', elem_of_app. by left.
      * exfalso. apply elem_of_app in Hn' as [?|Hn']; [done|].
        apply list_elem_of_singleton in Hn'. done.
  - cbn [record_step executedSteps]. rewrite map_size_insert_None.
    + rewrite length_app, Hsz. cbn. lia.
    + rewrite Hex. by rewrite decide_False.
  - intros n. cbn [record_step stepResults]. rewrite names_app, elem_of_app.
    destruct (decide (n = WorkflowStep.Name step)) as [->|Hne].
    + rewrite lookup_insert_eq. split; [|by eauto].
      intros _. right. by left.
    + rewrite lookup_insert_ne by done. rewrite Hres. split; [auto|].
      intros [?|Hn]; [done|]. apply list_elem_of_singleton in Hn. done.
  - cbn [record_step result stepResults ExecutionResult.Steps]. by rewrite Hsteps.
Qed.

Lemma areDependenciesSatisfied_false deps m :
  areDependenciesSatisfied deps m = false →
  ∃ dep, dep ∈ deps ∧ executed m dep = false.
Proof.
  induction deps as [|d deps IH]; cbn [areDependenciesSatisfied]; [done|].
  destruct (executed m d) eqn:Hd; cbn [negb].
  - intros (dep & Hin & Hdep)%IH. exists dep. split; [by right|done].
  - intros _. exists d. split; [by left|done].
Qed.

Lemma scan_spec steps agents tr0 todo :
  ∀ st w tr r w',
  (∀ s, s ∈ todo → s ∈ steps) →
  loop_inv steps agents tr st →
  trace w = tr0 ++ tr →
  kg.agents (db w) = agents →
  scan E o runID variables todo st w = (r, w') →
  ∃ seg,
    trace w' = tr0 ++ tr ++ seg
    ∧ seg.*1 `sublist_of` todo
    ∧ kg.agents (db w') = agents
    ∧ (∃ cs, calls w' = calls w ++ cs ∧ Forall (call_ok agents) cs)
    ∧ match r with
      | inl st' =>
          loop_inv steps agents (tr ++ seg) st'
          ∧ kg.runs (db w') = kg.runs (db w)
          ∧ progress st' = progress st || bool_decide (seg ≠ [])
          ∧ (seg = [] → ∀ s, s ∈ todo → waiting tr s)
      | inr (res, e) =>
          trace_ok steps agents (tr ++ seg)
          ∧ (∃ pre s, seg = pre ++ [(s, false)] ∧ ∀ x, x ∈ tr ++ pre → x.2 = true)
          ∧ ExecutionResult.Status res = "failed"
          ∧ ExecutionResult.Error res = Error e
          ∧ is_Some (ExecutionResult.EndTime res)
          ∧ is_Some (ExecutionResult.Duration res)
          ∧ ((∀ n, db_fault E n = None) →
             ∃ t, kg.runs (db w')
                  = kg.update_row runID "failed" "" (Error e) t
                      <$> kg.runs (db w))
      end.
Proof.
  induction todo as [|step rest IH]; intros st w tr r w' Hsub Hinv Htr Hag H.
  { cbn [scan] in H. run_monad. simplify_eq. exists [].
    rewrite !app_nil_r. split_and!; try done.
    - exists []. by rewrite app_nil_r.
    - by destruct (progress st).
    - intros _ s Hs. by apply elem_of_nil in Hs. }
  assert (Hsub' : ∀ s, s ∈ rest → s ∈ steps) by (intros; apply Hsub; by right).
  assert (Hstep : step ∈ steps) by (apply Hsub; by left).
  cbn [scan] in H.
  destruct (executed (executedSteps st) (WorkflowStep.Name step)) eqn:Hex.
  { apply (IH _ _ tr) in H as (seg & Ht & Hsl & Ha & Hcs & Hr); try done.
    exists seg. split_and!; try done; [by apply sublist_cons|].
    destruct r as [st'|[res e]]; [|done].
    destruct Hr as (? & ? & ? & Hw). split_and!; try done.
    intros Hseg s [->|Hs]%elem_of_cons; [|by auto].
    left. by eapply executed_inv. }
  destruct (areDependenciesSatisfied (WorkflowStep.DependsOn step)
              (executedSteps st)) eqn:Hsat; cbn [negb] in H.
  2:{ apply (IH _ _ tr) in H as (seg & Ht & Hsl & Ha & Hcs & Hr); try done.
      exists seg. split_and!; try done; [by apply sublist_cons|].
      destruct r as [st'|[res e]]; [|done].
      destruct Hr as (? & ? & ? & Hw). split_and!; try done.
      intros Hseg s [->|Hs]%elem_of_cons; [|by auto].
      right. apply areDependenciesSatisfied_false in Hsat as (dep & Hin & Hdep).
      exists dep. split; [done|]. intros Hn.
      eapply executed_inv in Hn; [|done]. congruence. }
  assert (Hfresh : WorkflowStep.Name step ∉ names tr).
  { intros Hn. eapply executed_inv in Hn; [|done]. congruence. }
  assert (Hdeps : ∀ dep, dep ∈ WorkflowStep.DependsOn step → dep ∈ names tr).
  { intros dep Hin. eapply executed_inv; [done|].
    by eapply areDependenciesSatisfied_spec. }
  unfold mbind at 1, M_bind at 1 in H.
  destruct (executeStep E o runID step variables (stepResults st) w)
    as [[sr err] w1] eqn:Hrun.
  apply executeStep_spec in Hrun as ((Htr1 & Hag1 & Hruns1) & Hname & Hagent & Hout).
  pose proof (step_outcome_calls _ _ _ _ _ _ _ _ _ _ Hout) as (cs1 & Hcs1 & Hcall1).
  rewrite Hag in Hcall1.
  destruct err as [e|].
  - run_monad. exists [(step, false)].
    assert (Hok : trace_ok steps agents (tr ++ [(step, false)])).
    { apply trace_ok_snoc; try done; [apply Hinv|apply Hinv]. }
    rewrite bool_decide_eq_false_2 in H by done.
    match type of H with
    | context [UpdateRunStatus E ?a ?b ?c ?d ?w0] =>
        destruct (UpdateRunStatus E a b c d w0) as [u w2] eqn:Hupd
    end.
    apply UpdateRunStatus_spec in Hupd as (Ht2 & Hc2 & _ & Ha2 & _ & Hr2).
    cbn [trace db ops ticks calls] in Ht2, Hc2, Ha2, Hr2. simplify_eq.
    rewrite Ht2, Htr1, Htr, Ha2, <- app_assoc.
    split_and!; try done; try by eauto.
    + by apply sublist_skip, sublist_nil_l.
    + exists cs1. by rewrite Hc2.
    + exists [], step. rewrite app_nil_r. split; [done|apply Hinv].
    + intros Hnf. rewrite Hnf in Hr2. rewrite Hr2, Hruns1. eauto.
  - assert (Hfound : ∃ a, a ∈ agents ∧ kg.Agent.ID a = WorkflowStep.Agent step).
    { apply step_outcome_agent in Hout as [agent Hsel].
      apply select_agent_Some in Hsel as [? ?]. exists agent.
      by rewrite <- Hag. }
    unfold mbind at 1, M_bind at 1, note_step at 1 in H.
    rewrite bool_decide_eq_true_2 in H by done.
    eapply (IH _ _ (tr ++ [(step, true)])) in H
      as (seg & Ht & Hsl & Ha & (cs & Hcs & Hcall) & Hr); try done.
    + exists ((step, true) :: seg). cbn [trace] in Ht.
      rewrite <- !app_assoc in Ht. split_and!; try done.
      * by apply sublist_skip.
      * exists (cs1 ++ cs). cbn [calls] in Hcs.
        rewrite Hcs, Hcs1, app_assoc. split; [done|by apply Forall_app].
      * destruct r as [st'|[res e]].
        -- destruct Hr as (Hinv' & Hruns' & Hprog & _).
           rewrite <- !app_assoc in Hinv'. split_and!; try done.
           ++ cbn [db] in Hruns'. congruence.
           ++ rewrite Hprog. cbn [record_step progress orb].
              rewrite (bool_decide_eq_true_2 (_ :: _ ≠ [])) by done.
              by rewrite orb_true_r.
        -- destruct Hr as (Hok' & (pre & s & -> & Hpre) & ? & ? & ? & ? & Hupd).
           rewrite <- !app_assoc in Hok', Hpre. split_and!; try done.
           ++ exists ((step, true) :: pre), s. split; [done|]. exact Hpre.
           ++ intros Hnf. destruct (Hupd Hnf) as [t Ht'].
              exists t. cbn [db] in Ht'. by rewrite Ht', Hruns1.
    + by apply loop_inv_record.
    + cbn [trace]. rewrite Htr1, Htr. by rewrite app_assoc.
    + cbn [db]. congruence.
Qed.

(** A pass over steps none of which is runnable executes nothing and
    leaves the local variables and the world as they are. *)
Lemma scan_nothing_runnable todo st w :
  (∀ s, s ∈ todo →
     executed (executedSteps st) (WorkflowStep.Name s) = true
     ∨ areDependenciesSatisfied (WorkflowStep.DependsOn s) (executedSteps st)
       = false) →
  scan E o runID variables todo st w = (inl st, w).
Proof.
  induction todo as [|s rest IH]; intros Hall; [done|].
  assert (Hrest : scan E o runID variables rest st w = (inl st, w)).
  { apply IH. intros s' Hs'. apply Hall. by right. }
  cbn [scan]. destruct (Hall s) as [Hex|Hsat]; [by left| |].
  - by rewrite Hex.
  - rewrite Hsat. cbn [negb].
    by destruct (executed (executedSteps st) (WorkflowStep.Name s)).
Qed.

(** The steps a pass executes are those of the pass of the
    specification, in its order; a pass cut short by a failing step
    has executed a prefix of it. *)
Lemma scan_pass steps agents todo :
  ∀ st w tr r w',
  (∀ s, s ∈ todo → s ∈ steps) →
  loop_inv steps agents tr st →
  kg.agents (db w) = agents →
  scan E o runID variables todo st w = (r, w') →
  ∃ seg,
    trace w' = trace w ++ seg
    ∧ match r with
      | inl _ => seg.*1 = pass_as_specified todo (names tr)
      | inr _ => seg.*1 `prefix_of` pass_as_specified todo (names tr)
      end.
Proof.
  induction todo as [|step rest IH]; intros st w tr r w' Hsub Hinv Hag H.
  { cbn [scan] in H. run_monad. simplify_eq. exists []. by rewrite app_nil_r. }
  assert (Hsub' : ∀ s, s ∈ rest → s ∈ steps) by (intros; apply Hsub; by right).
  assert (Hstep : step ∈ steps) by (apply Hsub; by left).
  cbn [scan] in H. cbn [pass_as_specified].
  destruct (executed (executedSteps st) (WorkflowStep.Name step)) eqn:Hex.
  { rewrite bool_decide_eq_false_2; [by eapply IH|].
    intros [Hfresh _]. apply Hfresh. by eapply executed_inv. }
  destruct (areDependenciesSatisfied (WorkflowStep.DependsOn step)
              (executedSteps st)) eqn:Hsat; cbn [negb] in H.
  2:{ rewrite bool_decide_eq_false_2; [by eapply IH|].
      intros [_ Hdeps].
      apply areDependenciesSatisfied_false in Hsat as (dep & Hin & Hdep).
      rewrite Forall_forall in Hdeps. specialize (Hdeps dep Hin).
      eapply executed_inv in Hdeps; [|done]. congruence. }
  assert (Hfresh : WorkflowStep.Name step ∉ names tr).
  { intros Hn. eapply executed_inv in Hn; [|done]. congruence. }
  assert (Hdeps : ∀ dep, dep ∈ WorkflowStep.DependsOn step → dep ∈ names tr).
  { intros dep Hin. eapply executed_inv; [done|].
    by eapply areDependenciesSatisfied_spec. }
  rewrite bool_decide_eq_true_2 by (split; [done|by apply Forall_forall]).
  unfold mbind at 1, M_bind at 1 in H.
  destruct (executeStep E o runID step variables (stepResults st) w)
    as [[sr err] w1] eqn:Hrun.
  apply executeStep_spec in Hrun as ((Htr1 & Hag1 & Hruns1) & Hname & Hagent & Hout).
  destruct err as [e|].
  - run_monad. rewrite bool_decide_eq_false_2 in H by done.
    match type of H with
    | context [UpdateRunStatus E ?a ?b ?c ?d ?w0] =>
        destruct (UpdateRunStatus E a b c d w0) as [u w2] eqn:Hupd
    end.
    apply UpdateRunStatus_spec in Hupd as (Ht2 & _).
    cbn [trace] in Ht2. simplify_eq. exists [(step, false)].
    rewrite Ht2, Htr1. split; [done|]. apply prefix_cons, prefix_nil.
  - assert (Hfound : ∃ a, a ∈ agents ∧ kg.Agent.ID a = WorkflowStep.Agent step).
    { apply step_outcome_agent in Hout as [agent Hsel].
      apply select_agent_Some in Hsel as [? ?]. exists agent.
      by rewrite <- Hag. }
    unfold mbind at 1, M_bind at 1, note_step at 1 in H.
    rewrite bool_decide_eq_true_2 in H by done.
    eapply (IH _ _ (tr ++ [(step, true)])) in H as (seg & Ht & Hr);
      [|done|by apply loop_inv_record|cbn [db]; congruence].
    exists ((step, true) :: seg). cbn [trace] in Ht.
    rewrite Ht, Htr1, <- app_assoc. split; [done|].
    rewrite names_app in Hr. rewrite fmap_cons.
    destruct r; [by f_equal|by apply prefix_cons].
Qed.

End scan_facts.

(** ** The executor: the loop and the whole run *)
Section run_facts.
Import orchestrator Notions.
Context (E : Env) (o : Orchestrator).

Lemma loop_inv_reset steps agents tr st :
  loop_inv steps agents tr st → loop_inv steps agents tr (reset_progress st).
Proof. intros [? ? ? ? ? ?]. by split. Qed.

Lemma loop_exit fuel runID workflow variables st w :
  ¬ (size (executedSteps st) < length (Workflow.Steps workflow))%nat →
  loop E fuel o runID workflow variables st w = after_loop E runID st w.
Proof.
  intros Hge. destruct fuel; cbn [loop];
    by rewrite bool_decide_eq_false_2 by done.
Qed.

Lemma after_loop_spec steps agents runID tr st w out w' :
  loop_inv steps agents tr st →
  (length steps ≤ length tr)%nat →
  after_loop E runID st w = (out, w') →
  trace w' = trace w
  ∧ kg.agents (db w') = kg.agents (db w)
  ∧ calls w' = calls w
  ∧ run_outcome E steps runID tr (kg.runs (db w)) w' out.
Proof.
  intros Hinv Hlen H. unfold after_loop in H.
  unfold mbind at 1, M_bind at 1, Now at 1 in H.
  unfold mbind at 1, M_bind at 1 in H.
  match type of H with
  | context [UpdateRunStatus E ?a ?b ?c ?d ?w0] =>
      destruct (UpdateRunStatus E a b c d w0) as [u w2] eqn:Hupd
  end.
  apply UpdateRunStatus_spec in Hupd as (Ht2 & Hc2 & _ & Ha2 & _ & Hr2).
  cbn [trace db ops ticks calls] in Ht2, Hc2, Ha2, Hr2. unfold mret, M_ret in H.
  simplify_eq. split_and!; [done..|].
  apply RunCompleted.
  - apply Hinv.
  - done.
  - reflexivity.
  - reflexivity.
  - by eexists.
  - by eexists.
  - intros n. cbn [finish ExecutionResult.Steps].
    rewrite (inv_steps _ _ _ _ Hinv). apply Hinv.
  - intros Hnf. rewrite Hnf in Hr2. eauto.
Qed.

Lemma loop_spec runID workflow variables agents tr0 :
  ∀ fuel st w tr out w',
  loop_inv (Workflow.Steps workflow) agents tr st →
  trace w = tr0 ++ tr →
  kg.agents (db w) = agents →
  (length (Workflow.Steps workflow) ≤ fuel + length tr)%nat →
  loop E fuel o runID workflow variables st w = (out, w') →
  ∃ passes,
    trace w' = tr0 ++ tr ++ concat passes
    ∧ Forall (λ p : list (WorkflowStep.t * bool),
                p.*1 `sublist_of` Workflow.Steps workflow) passes
    ∧ trace_ok (Workflow.Steps workflow) agents (tr ++ concat passes)
    ∧ kg.agents (db w') = agents
    ∧ (∃ cs, calls w' = calls w ++ cs ∧ Forall (call_ok agents) cs)
    ∧ run_outcome E (Workflow.Steps workflow) runID (tr ++ concat passes)
        (kg.runs (db w)) w' out.
Proof.
  induction fuel as [|fuel IH];
    intros st w tr out w' Hinv Htr Hag Hfuel H;
    pose proof (inv_size _ _ _ _ Hinv) as Hsize;
    (destruct (decide (size (executedSteps st)
                       < length (Workflow.Steps workflow))%nat) as [Hlt|Hge];
     [|rewrite loop_exit in H by done;
       eapply after_loop_spec in H as (Ht' & Ha' & Hc' & Hout); [|done|lia];
       exists []; cbn [concat]; rewrite !app_nil_r;
       split_and!; [congruence|done|apply Hinv|congruence|
                    exists []; by rewrite app_nil_r|done]]).
  { lia. }
  cbn [loop] in H. rewrite bool_decide_eq_true_2 in H by done.
  unfold mbind at 1, M_bind at 1 in H.
  destruct (scan E o runID variables (Workflow.Steps workflow)
              (reset_progress st) w) as [pass w1] eqn:Hscan.
  eapply scan_spec in Hscan as (seg & Ht & Hsl & Ha & (cs1 & Hcs1 & Hcall1) & Hr);
    [| done | by apply loop_inv_reset | done | done].
  destruct pass as [st'|[res e]].
  - destruct Hr as (Hinv' & Hruns & Hprog & Hwait).
    cbn [reset_progress progress orb] in Hprog.
    destruct (progress st') eqn:Hp; cbn [negb] in H.
    + symmetry in Hprog. apply bool_decide_eq_true in Hprog.
      eapply IH in H as (passes & Ht' & Hps & Hok & Ha' & (cs & Hcs & Hcall) & Hout);
        [| done | by rewrite Ht, app_assoc | done |].
      * exists (seg :: passes). cbn [concat].
        rewrite <- !app_assoc in Ht', Hok, Hout. rewrite Hruns in Hout.
        split_and!; try done; [by constructor|].
        exists (cs1 ++ cs). rewrite Hcs, Hcs1, app_assoc.
        split; [done|by apply Forall_app].
      * rewrite length_app. destruct seg; [done|]. cbn. lia.
    + symmetry in Hprog. apply bool_decide_eq_false in Hprog.
      assert (seg = []) as -> by (destruct seg; [done|by destruct Hprog]).
      unfold mret, M_ret in H. simplify_eq. exists [].
      cbn [concat] in *. rewrite !app_nil_r in *.
      split_and!; try done; [apply Hinv'|by eauto|].
      apply RunStalled; try done; [apply Hinv'|lia|by apply Hwait].
  - unfold mret, M_ret in H. simplify_eq.
    destruct Hr as (Hok & (pre & s & -> & Hpre) & ? & ? & ? & ? & Hupd).
    exists [pre ++ [(s, false)]]. cbn [concat]. rewrite !app_nil_r.
    split_and!; try done; [by repeat constructor|by eauto|].
    eapply RunFailed; try done. by rewrite app_assoc.
Qed.

Lemma CreateRun_counters run w :
  let w' := (CreateRun E run w).2 in
  ops w' = S (ops w) ∧ ranges w' = ranges w.
Proof.
  unfold CreateRun. run_monad. destruct (db_fault E (ops w)); [done|].
  by destruct (kg.insert_run _ _ _).
Qed.

Lemma CreateRun_spec run w r w' :
  CreateRun E run w = (r, w') →
  trace w' = trace w
  ∧ calls w' = calls w
  ∧ stdout w' = stdout w
  ∧ kg.agents (db w') = kg.agents (db w)
  ∧ kg.artifacts (db w') = kg.artifacts (db w)
  ∧ match r with
    | Some _ => kg.runs (db w') = kg.runs (db w)
    | None =>
        (kg.Run.ID run ∉ kg.RunRow.id <$> kg.runs (db w))
        ∧ ∃ t, kg.runs (db w')
               = kg.runs (db w)
                 ++ [kg.RunRow.mk (kg.Run.ID run) (kg.Run.WorkflowName run)
                       (kg.Run.Status run) (kg.Run.InputData run) None t
                       None None None (kg.Run.Metadata run)]
    end.
Proof.
  unfold CreateRun, kg.insert_run. run_monad. intros H.
  destruct (db_fault E (ops w)); [by simplify_eq|].
  case_bool_decide; simplify_eq; cbn [db kg.runs kg.agents kg.artifacts];
    split_and!; try done.
  by eexists.
Qed.

(** The whole run: the run record cannot be created, or the loop ends
    in one of its three ways after a well-formed trace made of passes
    in declared order. *)
Lemma ExecuteWorkflow_spec workflow variables w out w' :
  ExecuteWorkflow E o workflow variables w = (out, w') →
  let steps := Workflow.Steps workflow in
  let runID := "RUN_" +:+ pretty (Unix (now E (ticks w))) in
  kg.agents (db w') = kg.agents (db w)
  ∧ (∃ cs, calls w' = calls w ++ cs
           ∧ Forall (call_ok (kg.agents (db w))) cs)
  ∧ ((∃ e, out = Returned None (Some (ErrCreateRun e))
           ∧ trace w' = trace w
           ∧ kg.runs (db w') = kg.runs (db w))
     ∨ (∃ passes row,
           trace w' = trace w ++ concat passes
           ∧ Forall (λ p : list (WorkflowStep.t * bool),
                       p.*1 `sublist_of` steps) passes
           ∧ trace_ok steps (kg.agents (db w)) (concat passes)
           ∧ fresh_run_row runID row
           ∧ run_outcome E steps runID (concat passes)
               (kg.runs (db w) ++ [row]) w' out)).
Proof.
  intros H steps runID. unfold ExecuteWorkflow in H.
  unfold mbind at 1, M_bind at 1, Now at 1 in H.
  unfold mbind at 1, M_bind at 1, Now at 1 in H.
  unfold mbind at 1, M_bind at 1 in H. cbn [ticks] in H.
  match type of H with
  | context [CreateRun E ?run ?w0] =>
      destruct (CreateRun E run w0) as [failed w1] eqn:Hcreate
  end.
  apply CreateRun_spec in Hcreate as (Ht1 & Hc1 & _ & Ha1 & _ & Hr1).
  cbn [trace db calls] in Ht1, Hc1, Ha1, Hr1.
  destruct failed as [e|].
  - unfold mret, M_ret in H. simplify_eq. split; [done|].
    split; [exists []; by rewrite app_nil_r|]. left. eauto.
  - destruct Hr1 as (_ & t & Hruns). cbn [kg.Run.ID kg.Run.Status] in Hruns.
    eapply (loop_spec _ _ _ (kg.agents (db w)) (trace w) _ _ _ []) in H
      as (passes & Ht & Hps & Hok & Ha & Hcs & Hout).
    + rewrite app_nil_l in Ht, Hok, Hout. split; [done|].
      split; [by rewrite <- Hc1|]. right.
      eexists passes, _. rewrite Hruns in Hout. split_and!; try done.
      by repeat split.
    + split; try done.
      * apply trace_ok_nil.
      * intros e He. by apply elem_of_nil in He.
      * intros n. cbn [stepResults]. rewrite lookup_empty. split.
        -- by intros [? ?].
        -- intros Hn. by apply elem_of_nil in Hn.
    + by rewrite app_nil_r.
    + done.
    + cbn. lia.
Qed.

End run_facts.

(** ** Consequences for a whole run *)
Section run_properties.
Import orchestrator Notions.
Context (E : Env) (o : Orchestrator).

Lemma run_trace_app w w' tr : trace w' = trace w ++ tr → run_trace w w' = tr.
Proof. intros H. unfold run_trace. rewrite H. apply drop_app_length. Qed.

Lemma run_calls_app w w' cs : calls w' = calls w ++ cs → run_calls w w' = cs.
Proof. intros H. unfold run_calls. rewrite H. apply drop_app_length. Qed.

(** The loop is never cut off: [ExecuteWorkflow] returns. *)
Lemma ExecuteWorkflow_returns workflow variables w :
  (ExecuteWorkflow E o workflow variables w).1 ≠ OutOfFuel.
Proof.
  destruct (ExecuteWorkflow E o workflow variables w) as [out w'] eqn:H.
  apply ExecuteWorkflow_spec in H
    as (_ & _ & [(e & -> & _)|(passes & row & _ & _ & _ & _ & Hout)]); [done|].
  by destruct Hout.
Qed.

Lemma run_trace_ok workflow variables w out w' :
  ExecuteWorkflow E o workflow variables w = (out, w') →
  trace_ok (Workflow.Steps workflow) (kg.agents (db w)) (run_trace w w').
Proof.
  intros H. apply ExecuteWorkflow_spec in H
    as (_ & _ & [(e & -> & Ht & _)|(passes & row & Ht & _ & Hok & _)]).
  - rewrite (run_trace_app _ _ []) by (by rewrite app_nil_r).
    apply trace_ok_nil.
  - by rewrite (run_trace_app _ _ _ Ht).
Qed.

(** In a well-formed trace every dependency of an entry is the name of
    an earlier entry that came back without error. *)
Lemma trace_ok_dependency steps agents tr i step ok dep :
  trace_ok steps agents tr →
  tr !! i = Some (step, ok) →
  dep ∈ WorkflowStep.DependsOn step →
  ∃ j step', (j < i)%nat ∧ tr !! j = Some (step', true)
             ∧ WorkflowStep.Name step' = dep.
Proof.
  intros Hok Hi Hdep.
  pose proof (tr_deps _ _ _ Hok i (step, ok) dep Hi Hdep) as Hin.
  unfold names in Hin. apply list_elem_of_fmap in Hin as ([step' ok'] & -> & Hin).
  apply list_elem_of_lookup in Hin as [j Hj].
  pose proof (lookup_lt_Some _ _ _ Hj) as Hlt. rewrite length_take in Hlt.
  rewrite lookup_take_lt in Hj by lia.
  pose proof (lookup_lt_Some _ _ _ Hi) as Hlen.
  assert (ok' = true) as ->.
  { apply (tr_flags _ _ _ Hok j (step', ok') Hj). lia. }
  exists j, step'. split_and!; [lia|done|done].
Qed.

(** Every executed step is reachable, and so are its dependencies. *)
Lemma trace_ok_reachable steps agents tr :
  trace_ok steps agents tr →
  ∀ i e, tr !! i = Some e → reachable steps (WorkflowStep.Name e.1).
Proof.
  intros Hok i. induction i as [i IH] using lt_wf_ind. intros [step ok] Hi.
  apply reachable_step.
  - apply (tr_steps _ _ _ Hok (step, ok)). by eapply list_elem_of_lookup_2.
  - intros dep Hdep.
    destruct (trace_ok_dependency _ _ _ _ _ _ _ Hok Hi Hdep)
      as (j & step' & Hlt & Hj & <-).
    by apply (IH j Hlt (step', true)).
Qed.

(** A trace at least as long as the workflow holds every step once. *)
Lemma trace_ok_full steps agents tr :
  trace_ok steps agents tr → (length steps ≤ length tr)%nat → tr.*1 ≡ₚ steps.
Proof.
  intros Hok Hlen. apply submseteq_length_Permutation.
  - apply NoDup_submseteq.
    + eapply (NoDup_fmap_1 WorkflowStep.Name).
      rewrite <- list_fmap_compose. apply (tr_nodup _ _ _ Hok).
    + intros s ([s' ok] & -> & Hin)%list_elem_of_fmap.
      by apply (tr_steps _ _ _ Hok (s', ok)).
  - by rewrite length_fmap.
Qed.

(** In a valid acyclic workflow a pass that leaves every step alone has
    nothing left to run. *)
Lemma waiting_all_executed steps tr :
  valid_acyclic steps →
  (∀ s, s ∈ steps → waiting tr s) →
  ∀ s, s ∈ steps → WorkflowStep.Name s ∈ names tr.
Proof.
  intros (_ & Hvalid & rank & Hrank) Hwait.
  assert (Hn : ∀ n s, s ∈ steps → (rank (WorkflowStep.Name s) < n)%nat →
                 WorkflowStep.Name s ∈ names tr).
  { induction n as [|n IH]; intros s Hs Hlt; [lia|].
    destruct (Hwait s Hs) as [?|(dep & Hdep & Hnot)]; [done|].
    exfalso. apply Hnot.
    pose proof (Hvalid s dep Hs Hdep) as Hin.
    apply list_elem_of_fmap in Hin as (s' & -> & Hs').
    apply IH; [done|]. specialize (Hrank s _ Hs Hdep). lia. }
  intros s Hs. by apply (Hn (S (rank (WorkflowStep.Name s)))); [|lia].
Qed.

Lemma valid_acyclic_no_stall steps agents tr :
  valid_acyclic steps →
  trace_ok steps agents tr →
  (∀ s, s ∈ steps → waiting tr s) →
  (length steps ≤ length tr)%nat.
Proof.
  intros Hva Hok Hwait.
  pose proof (waiting_all_executed _ _ Hva Hwait) as Hall.
  destruct Hva as (Hnd & _).
  assert (Hsub : step_names steps ⊆+ names tr).
  { apply NoDup_submseteq; [done|].
    intros n (s & -> & Hs)%list_elem_of_fmap. auto. }
  apply submseteq_length in Hsub. unfold step_names, names in Hsub.
  by rewrite !length_fmap in Hsub.
Qed.

(** *** The schedule of the specification *)

Lemma pass_as_specified_NoDup todo :
  ∀ ran, NoDup ran →
    NoDup (ran ++ step_names (pass_as_specified todo ran)).
Proof.
  induction todo as [|s rest IH]; intros ran Hnd; cbn [pass_as_specified].
  - by rewrite app_nil_r.
  - case_bool_decide as Hrun; [|by apply IH]. destruct Hrun as [Hfresh _].
    unfold step_names. rewrite fmap_cons, cons_middle, app_assoc.
    apply IH, NoDup_app. split_and!; [done| |apply NoDup_singleton].
    intros n Hn ->%list_elem_of_singleton. done.
Qed.

Lemma pass_as_specified_names todo :
  ∀ ran n, n ∈ step_names (pass_as_specified todo ran) → n ∈ step_names todo.
Proof.
  induction todo as [|s rest IH]; intros ran n; cbn [pass_as_specified];
    [done|].
  unfold step_names in *. rewrite (fmap_cons _ s rest).
  case_bool_decide.
  - rewrite fmap_cons. intros [->|Hn]%elem_of_cons; [by left|].
    right. by eapply IH.
  - intros Hn. right. by eapply IH.
Qed.

Lemma pass_as_specified_done todo :
  ∀ ran, (∀ s, s ∈ todo → WorkflowStep.Name s ∈ ran) →
    pass_as_specified todo ran = [].
Proof.
  induction todo as [|s rest IH]; intros ran Hall; cbn [pass_as_specified];
    [done|].
  rewrite bool_decide_eq_false_2.
  - apply IH. intros s' Hs'. apply Hall. by right.
  - intros [Hfresh _]. apply Hfresh, Hall. by left.
Qed.

Lemma schedule_from_done n steps ran :
  (∀ s, s ∈ steps → WorkflowStep.Name s ∈ ran) →
  schedule_from n steps ran = [].
Proof.
  intros Hall. destruct n; cbn [schedule_from]; [done|].
  by rewrite pass_as_specified_done.
Qed.

(** As many distinct names of steps as there are steps: every step is
    named. *)
Lemma names_exhausted steps ran :
  NoDup ran →
  (∀ n, n ∈ ran → n ∈ step_names steps) →
  (length steps ≤ length ran)%nat →
  ∀ s, s ∈ steps → WorkflowStep.Name s ∈ ran.
Proof.
  intros Hnd Hsub Hlen s Hs.
  assert (Hperm : ran ≡ₚ step_names steps).
  { apply submseteq_length_Permutation; [by apply NoDup_submseteq|].
    unfold step_names. by rewrite length_fmap. }
  rewrite Hperm. unfold step_names. apply list_elem_of_fmap. by exists s.
Qed.

(** One more pass than there are steps left to run changes nothing. *)
Lemma schedule_from_stable steps :
  ∀ n ran,
  NoDup ran →
  (∀ x, x ∈ ran → x ∈ step_names steps) →
  (length steps ≤ n + length ran)%nat →
  schedule_from (S n) steps ran = schedule_from n steps ran.
Proof.
  induction n as [|n IH]; intros ran Hnd Hsub Hlen.
  - apply schedule_from_done. by apply names_exhausted.
  - change (schedule_from (S (S n)) steps ran)
      with (match pass_as_specified steps ran with
            | [] => []
            | p => p ++ schedule_from (S n) steps (ran ++ step_names p)
            end).
    change (schedule_from (S n) steps ran)
      with (match pass_as_specified steps ran with
            | [] => []
            | p => p ++ schedule_from n steps (ran ++ step_names p)
            end).
    pose proof (pass_as_specified_NoDup steps ran Hnd) as Hnd'.
    pose proof (pass_as_specified_names steps ran) as Hsub'.
    destruct (pass_as_specified steps ran) as [|s p]; [done|].
    f_equal. apply IH; [done| |].
    + intros x [Hx|Hx]%elem_of_app; auto.
    + rewrite length_app. unfold step_names. rewrite length_fmap.
      cbn [length]. lia.
Qed.

(** The bound on the number of passes is no restriction. *)
Lemma schedule_from_enough steps n :
  (length steps ≤ n)%nat →
  schedule_from n steps [] = schedule_as_specified steps.
Proof.
  induction 1 as [|n Hle IH]; [done|].
  rewrite schedule_from_stable; [done|constructor| |cbn [length]; lia].
  intros x Hx. by apply elem_of_nil in Hx.
Qed.

Lemma after_loop_shape runID st w out w' :
  after_loop E runID st w = (out, w') →
  (∃ res, out = Returned (Some res) None) ∧ trace w' = trace w.
Proof.
  intros H. unfold after_loop in H.
  unfold mbind at 1, M_bind at 1, Now at 1 in H.
  unfold mbind at 1, M_bind at 1 in H.
  match type of H with
  | context [UpdateRunStatus E ?a ?b ?c ?d ?w0] =>
      destruct (UpdateRunStatus E a b c d w0) as [u w2] eqn:Hupd
  end.
  apply UpdateRunStatus_spec in Hupd as (Ht2 & _).
  cbn [trace] in Ht2. unfold mret, M_ret in H. simplify_eq.
  split; [by eexists|done].
Qed.

(** The loop executes the steps in the order of the schedule of the
    specification: all of it when no step fails, a prefix of it up to
    the failing step otherwise. *)
Lemma loop_schedule runID workflow variables agents tr0 :
  ∀ fuel st w tr out w',
  loop_inv (Workflow.Steps workflow) agents tr st →
  trace w = tr0 ++ tr →
  kg.agents (db w) = agents →
  (length (Workflow.Steps workflow) ≤ fuel + length tr)%nat →
  loop E fuel o runID workflow variables st w = (out, w') →
  ∃ seg,
    trace w' = trace w ++ seg
    ∧ match out with
      | Returned (Some _) (Some _) =>
          seg.*1 `prefix_of`
            schedule_from fuel (Workflow.Steps workflow) (names tr)
      | _ => seg.*1 = schedule_from fuel (Workflow.Steps workflow) (names tr)
      end.
Proof.
  induction fuel as [|fuel IH];
    intros st w tr out w' Hinv Htr Hag Hfuel H;
    pose proof (inv_size _ _ _ _ Hinv) as Hsize;
    (destruct (decide (size (executedSteps st)
                       < length (Workflow.Steps workflow))%nat) as [Hlt|Hge];
     [|rewrite loop_exit in H by done;
       apply after_loop_shape in H as ([res ->] & Ht');
       exists []; rewrite app_nil_r; split; [done|];
       rewrite schedule_from_done; [done|];
       intros s Hs;
       assert (Hperm : tr.*1 ≡ₚ Workflow.Steps workflow)
         by (eapply trace_ok_full; [apply Hinv|lia]);
       rewrite <- Hperm in Hs;
       apply list_elem_of_fmap in Hs as ([s' ok] & -> & Hin);
       apply list_elem_of_fmap; by exists (s', ok)]).
  { lia. }
  cbn [loop] in H. rewrite bool_decide_eq_true_2 in H by done.
  unfold mbind at 1, M_bind at 1 in H.
  destruct (scan E o runID variables (Workflow.Steps workflow)
              (reset_progress st) w) as [pass w1] eqn:Hscan.
  pose proof Hscan as Hpass.
  eapply scan_spec in Hscan as (seg & Ht & _ & Ha & _ & Hr);
    [| done | by apply loop_inv_reset | done | done].
  eapply scan_pass with (tr := tr) in Hpass as (seg' & Ht' & Hseg);
    [| done | by apply loop_inv_reset | done].
  assert (seg' = seg) as ->.
  { rewrite Htr, Ht, <- app_assoc in Ht'. by simplify_list_eq. }
  change (schedule_from (S fuel) (Workflow.Steps workflow) (names tr))
    with (match pass_as_specified (Workflow.Steps workflow) (names tr) with
          | [] => []
          | p => p ++ schedule_from fuel (Workflow.Steps workflow)
                        (names tr ++ step_names p)
          end).
  destruct pass as [st'|[res e]].
  - destruct Hr as (Hinv' & _ & Hprog & _).
    cbn [reset_progress progress orb] in Hprog. rewrite <- Hseg.
    destruct (progress st') eqn:Hp; cbn [negb] in H.
    + symmetry in Hprog. apply bool_decide_eq_true in Hprog.
      eapply IH in H as (seg2 & Ht2 & Hout);
        [| done | by rewrite Ht, app_assoc | done |].
      * exists (seg ++ seg2). rewrite Ht2, Ht', <- app_assoc.
        split; [done|].
        assert (Hn : names (tr ++ seg) = names tr ++ step_names (seg.*1)).
        { rewrite names_app. f_equal. unfold names, step_names.
          by rewrite <- list_fmap_compose. }
        rewrite Hn in Hout. rewrite fmap_app.
        destruct (seg.*1) as [|s p] eqn:Hsp.
        { destruct seg; [done|discriminate Hsp]. }
        destruct out as [[res|] [e|]|]; try by f_equal.
        by apply prefix_app.
      * rewrite length_app. destruct seg; [done|]. cbn. lia.
    + symmetry in Hprog. apply bool_decide_eq_false in Hprog.
      assert (seg = []) as -> by (destruct seg; [done|by destruct Hprog]).
      unfold mret, M_ret in H. simplify_eq. exists [].
      split; [exact Ht'|reflexivity].
  - unfold mret, M_ret in H. simplify_eq. exists seg. split; [done|].
    destruct (pass_as_specified (Workflow.Steps workflow) (names tr))
      as [|s p]; [done|].
    by apply prefix_app_r.
Qed.

(** How [ExecuteWorkflow] reaches its loop: the run record cannot be
    created, for a database failure or an id already taken, and
    nothing is executed; or it is created and the loop starts with
    nothing executed. *)
Lemma ExecuteWorkflow_loop workflow variables w out w' :
  ExecuteWorkflow E o workflow variables w = (out, w') →
  let runID := "RUN_" +:+ pretty (Unix (now E (ticks w))) in
  (∃ e, out = Returned None (Some (ErrCreateRun e))
        ∧ trace w' = trace w
        ∧ (db_fault E (ops w) ≠ None
           ∨ runID ∈ kg.RunRow.id <$> kg.runs (db w)))
  ∨ (db_fault E (ops w) = None
     ∧ (runID ∉ kg.RunRow.id <$> kg.runs (db w))
     ∧ ∃ st w1,
         loop E (length (Workflow.Steps workflow)) o runID workflow variables
           st w1 = (out, w')
         ∧ loop_inv (Workflow.Steps workflow) (kg.agents (db w)) [] st
         ∧ trace w1 = trace w
         ∧ kg.agents (db w1) = kg.agents (db w)).
Proof.
  intros H runID. unfold ExecuteWorkflow in H.
  unfold mbind at 1, M_bind at 1, Now at 1 in H.
  unfold mbind at 1, M_bind at 1, Now at 1 in H.
  unfold mbind at 1, M_bind at 1 in H. cbn [ticks] in H.
  unfold CreateRun, kg.insert_run in H. run_monad.
  cbn [kg.Run.ID kg.Run.WorkflowName kg.Run.Status kg.Run.InputData
       kg.Run.Metadata] in H.
  destruct (db_fault E (ops w)) as [msg|] eqn:Hfault.
  { simplify_eq. left. eexists. split_and!; [done|done|by left]. }
  fold runID in H. case_bool_decide as Hid.
  { simplify_eq. left. eexists. split_and!; [done|done|by right]. }
  right. split_and!; [done|done|]. eexists _, _. split; [exact H|].
  split_and!; [|done|done]. split; try done.
  - apply trace_ok_nil.
  - intros e He. by apply elem_of_nil in He.
  - intros n. cbn [stepResults]. rewrite lookup_empty. split.
    + by intros [? ?].
    + intros Hn. by apply elem_of_nil in Hn.
Qed.

(** The run record is reported as not created only when it was not. *)
Lemma ExecuteWorkflow_created workflow variables w e w' :
  ExecuteWorkflow E o workflow variables w
  = (Returned None (Some (ErrCreateRun e)), w') →
  db_fault E (ops w) ≠ None
  ∨ "RUN_" +:+ pretty (Unix (now E (ticks w))) ∈ kg.RunRow.id <$> kg.runs (db w).
Proof.
  intros H. apply ExecuteWorkflow_loop in H
    as [(e' & _ & _ & Hcause)|(_ & _ & st & w1 & Hloop & Hinv & Htr & Hag)];
    [done|].
  eapply loop_spec with (tr0 := trace w1) (tr := []) in Hloop
    as (passes & _ & _ & _ & _ & _ & Hout);
    [|done|by rewrite app_nil_r|done|cbn [length]; lia].
  inversion Hout.
Qed.

(** The steps of a run are executed in the order of the schedule of
    the specification: all of it when the run completes or stalls, a
    prefix of it otherwise. *)
Lemma ExecuteWorkflow_schedule workflow variables w out w' :
  ExecuteWorkflow E o workflow variables w = (out, w') →
  (run_trace w w').*1 `prefix_of` schedule_as_specified (Workflow.Steps workflow)
  ∧ ((∃ res, out = Returned (Some res) None)
     ∨ out = Returned None (Some ErrStalled) →
     (run_trace w w').*1 = schedule_as_specified (Workflow.Steps workflow)).
Proof.
  intros H. apply ExecuteWorkflow_loop in H
    as [(e & -> & Ht & _)|(_ & _ & st & w1 & Hloop & Hinv & Htr & Hag)].
  - rewrite (run_trace_app _ _ []) by (by rewrite app_nil_r).
    split; [apply prefix_nil|]. intros [[res ?]|?]; done.
  - eapply loop_schedule with (tr0 := trace w1) (tr := []) in Hloop
      as (seg & Ht & Hout);
      [|done|by rewrite app_nil_r|done|cbn [length]; lia].
    rewrite Htr in Ht. rewrite (run_trace_app _ _ _ Ht).
    change (schedule_from (length (Workflow.Steps workflow))
              (Workflow.Steps workflow) (names []))
      with (schedule_as_specified (Workflow.Steps workflow)) in Hout.
    destruct out as [[res|] [e|]|]; split; try (by rewrite Hout);
      try done; try (intros [[? ?]|?]; done).
Qed.

End run_properties.

(** ** Scheduling: dependencies, order, stalls *)
Section scheduling.
Import orchestrator Notions Scenarios.

(** C4: within one run no step name is executed twice: the names of the
    steps handed to [executeStep] are pairwise distinct, and a pass
    skips a step whose name is marked executed. *)
Theorem at_most_once_per_run (E : Env) (o : Orchestrator)
    (workflow : Workflow.t) (variables : gmap string value) (w : World) :
  NoDup (names (run_trace w (ExecuteWorkflow E o workflow variables w).2))
  ∧ ∀ runID step rest st,
      executed (executedSteps st) (WorkflowStep.Name step) = true →
      scan E o runID variables (step :: rest) st
      = scan E o runID variables rest st.
Proof.
  split.
  - destruct (ExecuteWorkflow E o workflow variables w) as [out w'] eqn:H.
    apply run_trace_ok in H. apply (tr_nodup _ _ _ H).
  - intros runID step rest st Hex. cbn [scan]. by rewrite Hex.
Qed.

(** In the run of the chain no name comes twice, and a pass that meets
    plan again once it is marked executed leaves it alone. *)
Lemma at_most_once_per_run_witness :
  NoDup (names (run_trace (world chain_agents) chain_run.2))
  ∧ scan E0 o_echo "RUN_1" chain_vars [plan_step] plan_done
    = scan E0 o_echo "RUN_1" chain_vars [] plan_done.
Proof.
  destruct (at_most_once_per_run E0 o_echo chain chain_vars (world chain_agents))
    as [Hnd Hskip].
  split; [exact Hnd|]. apply Hskip. by vm_compute.
Defined.

(** C3 (code): in every run each step is executed only after every
    step named in its dependsOn was executed and came back with a nil
    error (a step without dependencies is runnable at once).  A step
    that comes back with a nil error is completed, except when no
    provider is registered under the provider name of its agent: its
    result is then marked failed and the nil error of GetAgent comes
    back.  So a step does run after a dependency that did not
    complete: in the run [half_run] the step write, which depends on
    draft, is executed and completes after draft was marked failed.
    The steps of a run are executed in the order of the schedule of
    the specification, passes in declared order: all of the schedule
    when the run completes or stalls, a prefix of it when a step
    returns an error; more passes than there are steps add nothing to
    the schedule.  And a valid acyclic workflow never stalls: unless
    the run record cannot be created or a step returns an error, every
    step is executed, once. *)
Theorem dependency_order (E : Env) (o : Orchestrator) (workflow : Workflow.t)
    (variables : gmap string value) (w : World) (out : outcome) (w' : World) :
  ExecuteWorkflow E o workflow variables w = (out, w') →
  let steps := Workflow.Steps workflow in
  let tr := run_trace w w' in
  (∀ i step ok dep,
      tr !! i = Some (step, ok) → dep ∈ WorkflowStep.DependsOn step →
      ∃ j step', (j < i)%nat ∧ tr !! j = Some (step', true)
                 ∧ WorkflowStep.Name step' = dep)
  ∧ (∀ executedSteps, areDependenciesSatisfied [] executedSteps = true)
  ∧ (∀ runID step results w1 sr w2,
       executeStep E o runID step variables results w1 = ((sr, None), w2) →
       StepResult.Status sr = "completed"
       ∨ (StepResult.Status sr = "failed"
          ∧ ∃ agent,
              kg.select_agent (WorkflowStep.Agent step) (db w1) = Some agent
              ∧ providers o !! kg.Agent.ModelProvider agent = None))
  ∧ ((∃ res, half_run.1 = Returned (Some res) None
             ∧ StepResult.Status <$> ExecutionResult.Steps res !! "draft"
               = Some "failed"
             ∧ StepResult.Status <$> ExecutionResult.Steps res !! "write"
               = Some "completed"
             ∧ StepResult.Output <$> ExecutionResult.Steps res !! "write"
               = Some "echo: W: ")
     ∧ names (run_trace (world half_agents) half_run.2) = ["draft"; "write"]
     ∧ WorkflowStep.DependsOn <$> Workflow.Steps half = [[]; ["draft"]])
  ∧ tr.*1 `prefix_of` schedule_as_specified steps
  ∧ ((∃ res, out = Returned (Some res) None)
     ∨ out = Returned None (Some ErrStalled) →
     tr.*1 = schedule_as_specified steps)
  ∧ (∀ n, (length steps ≤ n)%nat →
       schedule_from n steps [] = schedule_as_specified steps)
  ∧ (valid_acyclic steps →
     (∃ e, out = Returned None (Some (ErrCreateRun e)))
     ∨ (∃ res e pre s, out = Returned (Some res) (Some e)
                       ∧ tr = pre ++ [(s, false)])
     ∨ (∃ res, out = Returned (Some res) None
               ∧ ExecutionResult.Status res = "completed"
               ∧ tr.*1 ≡ₚ steps
               ∧ ∀ s, s ∈ steps →
                   is_Some (ExecutionResult.Steps res !! WorkflowStep.Name s))).
Proof.
  intros H steps tr. subst steps tr.
  pose proof (run_trace_ok _ _ _ _ _ _ _ H) as Hok.
  pose proof (ExecuteWorkflow_schedule _ _ _ _ _ _ _ H) as [Hpre Hall].
  split_and!.
  - intros i step ok dep Hi Hdep. by eapply trace_ok_dependency.
  - done.
  - intros runID step results w1 sr w2 Hstep.
    apply executeStep_spec in Hstep as (_ & _ & _ & Hout).
    inversion Hout as [|agent Hf Hsel Hprov Hc| |agent provider resp input
                        Hf Hsel Hprov Hgen Hcalls Hc]; subst.
    + right. apply step_content_fields in Hc as (-> & _). eauto.
    + left. by apply step_content_fields in Hc as (-> & _).
  - eexists. split; [by vm_compute|]. split_and!; by vm_compute.
  - by vm_compute.
  - by vm_compute.
  - exact Hpre.
  - exact Hall.
  - intros n Hn. by apply schedule_from_enough.
  - intros Hva. apply ExecuteWorkflow_spec in H
      as (_ & _ & [(e & -> & _)|(passes & row & Ht & _ & _ & _ & Hout)]);
      [left; eauto|].
    apply run_trace_app in Ht. rewrite <- Ht in Hout.
    destruct Hout as [Hfl Hlt Hwait _|res Hfl Hlen Hst _ _ _ Hdom _
                      |res e pre s Htr _ _ _ _ _ _].
    + pose proof (valid_acyclic_no_stall _ _ _ Hva Hok Hwait). lia.
    + right. right. exists res. split_and!; try done.
      * by eapply trace_ok_full.
      * intros s Hs. apply Hdom.
        pose proof (trace_ok_full _ _ _ Hok Hlen) as Hperm.
        rewrite <- Hperm in Hs.
        apply list_elem_of_fmap in Hs as ([s' ok] & -> & Hin).
        apply list_elem_of_fmap. by exists (s', ok).
    + right. left. eauto 6.
Qed.

(** A checkable form of [valid_acyclic]. *)
Lemma valid_acyclic_intro steps (rank : string → nat) :
  NoDup (step_names steps) →
  Forall (λ s, Forall (λ dep, dep ∈ step_names steps
                              ∧ (rank dep < rank (WorkflowStep.Name s))%nat)
                 (WorkflowStep.DependsOn s)) steps →
  valid_acyclic steps.
Proof.
  intros Hnd Hall. rewrite Forall_forall in Hall. split_and!; [done|..].
  - intros s dep Hs Hdep. specialize (Hall s Hs).
    rewrite Forall_forall in Hall. by apply Hall.
  - exists rank. intros s dep Hs Hdep. specialize (Hall s Hs).
    rewrite Forall_forall in Hall. by apply Hall.
Qed.

Lemma chain_valid_acyclic : valid_acyclic (Workflow.Steps chain).
Proof.
  apply (valid_acyclic_intro _
           (λ n, if decide (n = "plan") then 0
                 else if decide (n = "research") then 1 else 2)%nat);
    apply (bool_decide_unpack _); by vm_compute.
Qed.

(** On the chain of the specification, declared as write, plan,
    research, the steps run as plan, research, write: the schedule of
    the specification. *)
Lemma dependency_order_witness :
  names (run_trace (world chain_agents) chain_run.2) = ["plan"; "research"; "write"]
  ∧ (run_trace (world chain_agents) chain_run.2).*1
    = schedule_as_specified (Workflow.Steps chain)
  ∧ (run_trace (world chain_agents) chain_run.2).*1 ≡ₚ Workflow.Steps chain.
Proof.
  split; [by vm_compute|].
  destruct (dependency_order E0 o_echo chain chain_vars (world chain_agents)
              chain_run.1 chain_run.2) as (_ & _ & _ & _ & _ & Hsched & _ & Hall).
  - by vm_compute.
  - split.
    + apply Hsched. left. eexists. by vm_compute.
    + destruct (Hall chain_valid_acyclic)
        as [(e & He)|[(res & e & pre & s & He & _)|(res & _ & _ & Hperm & _)]].
      * vm_compute in He. discriminate He.
      * vm_compute in He. discriminate He.
      * exact Hperm.
Defined.

(** C2: when steps remain unexecuted and none of them is runnable
    (each is marked executed or has a dependency that is not), the
    loop of [ExecuteWorkflow] returns the stall error with a nil
    result, and leaves the world as it is.  Every executed step is
    reachable, and so is each of its dependencies: no step with an
    unreachable dependency (a cycle, a missing step) is ever executed.
    Whenever the run record was created, no executed step returned an
    error and steps remain unexecuted, the run returns the stall
    error; this is the case of every workflow with a step whose
    dependency is unreachable.  On a stall no step failed, every
    remaining step waits for a dependency, and the store holds the run
    as [CreateRun] wrote it, with status running; a step failure
    returns a result marked failed instead. *)
Theorem stall_detection (E : Env) (o : Orchestrator) (workflow : Workflow.t)
    (variables : gmap string value) (w : World) (out : outcome) (w' : World) :
  ExecuteWorkflow E o workflow variables w = (out, w') →
  let steps := Workflow.Steps workflow in
  let tr := run_trace w w' in
  let runID := "RUN_" +:+ pretty (Unix (now E (ticks w))) in
  let created :=
    db_fault E (ops w) = None ∧ runID ∉ kg.RunRow.id <$> kg.runs (db w) in
  (∀ fuel runID st w1,
      (size (executedSteps st) < length steps)%nat →
      (∀ s, s ∈ steps →
         executed (executedSteps st) (WorkflowStep.Name s) = true
         ∨ areDependenciesSatisfied (WorkflowStep.DependsOn s)
             (executedSteps st) = false) →
      loop E (S fuel) o runID workflow variables st w1
      = (Returned None (Some ErrStalled), w1))
  ∧ (∀ e, e ∈ tr →
       reachable steps (WorkflowStep.Name e.1)
       ∧ ∀ dep, dep ∈ WorkflowStep.DependsOn e.1 → reachable steps dep)
  ∧ (created → (∀ e, e ∈ tr → e.2 = true) →
     (length tr < length steps)%nat →
     out = Returned None (Some ErrStalled))
  ∧ ((∃ s dep, s ∈ steps ∧ dep ∈ WorkflowStep.DependsOn s
               ∧ ¬ reachable steps dep) →
     created → (∀ e, e ∈ tr → e.2 = true) →
     out = Returned None (Some ErrStalled))
  ∧ (out = Returned None (Some ErrStalled) →
     (∀ e, e ∈ tr → e.2 = true)
     ∧ (length tr < length steps)%nat
     ∧ (∀ s, s ∈ steps → waiting tr s)
     ∧ ∃ row, kg.runs (db w') = kg.runs (db w) ++ [row]
              ∧ fresh_run_row runID row)
  ∧ (∀ res e, out = Returned (Some res) (Some e) →
       ExecutionResult.Status res = "failed").
Proof.
  intros H steps tr runID created. subst steps tr runID created.
  pose proof (run_trace_ok _ _ _ _ _ _ _ H) as Hok.
  assert (Hreach : ∀ e, e ∈ run_trace w w' →
            reachable (Workflow.Steps workflow) (WorkflowStep.Name e.1)
            ∧ ∀ dep, dep ∈ WorkflowStep.DependsOn e.1 →
                reachable (Workflow.Steps workflow) dep).
  { intros [step ok] [i Hi]%list_elem_of_lookup. split.
    - apply (trace_ok_reachable _ _ _ Hok i (step, ok) Hi).
    - intros dep Hdep.
      destruct (trace_ok_dependency _ _ _ _ _ _ _ Hok Hi Hdep)
        as (j & step' & _ & Hj & <-).
      apply (trace_ok_reachable _ _ _ Hok j (step', true) Hj). }
  assert (Hstall : db_fault E (ops w) = None
            ∧ "RUN_" +:+ pretty (Unix (now E (ticks w)))
              ∉ kg.RunRow.id <$> kg.runs (db w) →
            (∀ e, e ∈ run_trace w w' → e.2 = true) →
            (length (run_trace w w') < length (Workflow.Steps workflow))%nat →
            out = Returned None (Some ErrStalled)).
  { intros [Hfault Hid] Hfl Hlt. pose proof H as Hrun.
    apply ExecuteWorkflow_spec in Hrun
      as (_ & _ & [(e & -> & _)|(passes & row & Ht & _ & _ & _ & Hout)]).
    - apply ExecuteWorkflow_created in H as [?|?]; done.
    - apply run_trace_app in Ht. rewrite <- Ht in Hout.
      destruct Hout as [| res _ Hlen|res e pre s Htr]; [done|lia|].
      exfalso. specialize (Hfl (s, false)). rewrite Htr in Hfl.
      cbn in Hfl. discriminate Hfl. apply elem_of_app. right. by left. }
  split_and!.
  - intros fuel runID st w1 Hlt Hnone. cbn [loop].
    rewrite bool_decide_eq_true_2 by done.
    unfold mbind at 1, M_bind at 1.
    by rewrite (scan_nothing_runnable E o runID variables
                  (Workflow.Steps workflow) (reset_progress st) w1 Hnone).
  - exact Hreach.
  - exact Hstall.
  - intros (s & dep & Hs & Hdep & Hno) Hcreated Hfl.
    apply Hstall; [done..|].
    destruct (decide (length (run_trace w w')
                      < length (Workflow.Steps workflow))%nat) as [|Hge];
      [done|exfalso].
    assert (Hperm : (run_trace w w').*1 ≡ₚ Workflow.Steps workflow)
      by (eapply trace_ok_full; [done|lia]).
    rewrite <- Hperm in Hs.
    apply list_elem_of_fmap in Hs as ([s' ok] & -> & Hin).
    by apply Hno, (Hreach (s', ok)).
  - intros ->. apply ExecuteWorkflow_spec in H
      as (_ & _ & [(e & ? & _)|(passes & row & Ht & _ & _ & Hrow & Hout)]);
      [done|].
    apply run_trace_app in Ht. rewrite <- Ht in Hout.
    inversion Hout; subst. split_and!; try done. by exists row.
  - intros res e ->. apply ExecuteWorkflow_spec in H
      as (_ & _ & [(e' & ? & _)|(passes & row & Ht & _ & _ & _ & Hout)]);
      [done|].
    by inversion Hout.
Qed.

(** On the workflow with the cycle a, b and the dangling c, whose
    dependency ghost names no step, only d is executed, the stall
    error comes back and the run stays running. *)
Lemma stall_detection_witness :
  cyclic_run.1 = Returned None (Some ErrStalled)
  ∧ names (run_trace (world chain_agents) cyclic_run.2) = ["d"]
  ∧ kg.RunRow.status <$> kg.runs (db cyclic_run.2) = ["running"].
Proof.
  split_and!; [|by vm_compute..].
  destruct (stall_detection E0 o_echo cyclic ∅ (world chain_agents)
              cyclic_run.1 cyclic_run.2) as (_ & _ & _ & Hstall & _).
  - by vm_compute.
  - apply Hstall.
    + exists (step "c" "planner" "C" ["ghost"]), "ghost".
      split_and!; [by vm_compute; repeat constructor|by left|].
      inversion 1 as [s Hs _ Hname]. cbn in Hs.
      repeat (apply elem_of_cons in Hs as [-> | Hs]; [discriminate Hname|]).
      by apply elem_of_nil in Hs.
    + split; [reflexivity|]. cbn. apply not_elem_of_nil.
    + intros e He. vm_compute in He.
      by apply list_elem_of_singleton in He as ->.
Defined.

End scheduling.

(** ** Step failures, agents and artifacts *)
Section step_properties.
Import orchestrator Notions Scenarios.

(** Whenever the agent is found and no provider is registered under its
    provider name, [executeStep] marks the step result failed and returns
    a nil error. *)
Lemma executeStep_missing_provider E o runID step variables results w agent :
  db_fault E (ops w) = None →
  kg.select_agent (WorkflowStep.Agent step) (db w) = Some agent →
  providers o !! kg.Agent.ModelProvider agent = None →
  let r := (executeStep E o runID step variables results w).1 in
  r.2 = None ∧ StepResult.Status r.1 = "failed".
Proof.
  intros Hfault Hsel Hprov.
  unfold executeStep, GetAgent, substituteVariables. run_monad.
  rewrite Hfault, Hsel. cbn [db]. by rewrite Hprov.
Qed.

(** C1 (code): with no provider registered under the agent's provider
    name, [executeStep] marks the step result failed but returns the nil
    error left by [GetAgent]; on the two-step workflow [orphan] the run
    goes on to the second step, is marked completed in the store and
    returns no error. *)
Theorem missing_provider_not_fatal :
  (∃ res, orphan_run.1 = Returned (Some res) None
            ∧ ExecutionResult.Status res = "completed"
            ∧ ExecutionResult.Error res = ""
            ∧ StepResult.Status <$> ExecutionResult.Steps res !! "first"
              = Some "failed"
            ∧ StepResult.Error <$> ExecutionResult.Steps res !! "first"
              = Some "provider 'ollama' not found")
  ∧ names (run_trace (world orphan_agents) orphan_run.2) = ["first"; "second"]
  ∧ kg.RunRow.status <$> kg.runs (db orphan_run.2) = ["completed"].
Proof.
  split_and!.
  - eexists. split; [by vm_compute|]. by vm_compute.
  - by vm_compute.
  - by vm_compute.
Qed.

(** C6: when [Generate] has been called and has answered, the step
    comes back completed, with a nil error and the generated text as
    output, whether the artifact row was written or the write failed
    and was only logged; the pass then records the step and goes on
    with the steps that follow. *)
Theorem artifact_write_best_effort (E : Env) (o : Orchestrator)
    (runID : string) (step : WorkflowStep.t) (variables : gmap string value)
    (st : LoopState) (w : World) (sr : StepResult.t) (err : option error)
    (w' : World) (p : string) (provider : providers.Provider)
    (req : providers.GenerateRequest.t) (resp : providers.GenerateResponse.t) :
  executeStep E o runID step variables (stepResults st) w = ((sr, err), w') →
  calls w' = calls w ++ [(p, req)] →
  providers o !! p = Some provider →
  providers.Generate provider (length (calls w)) req = inl resp →
  err = None
  ∧ StepResult.Status sr = "completed"
  ∧ StepResult.Output sr = providers.GenerateResponse.Text resp
  ∧ StepResult.Error sr = ""
  ∧ ((∃ e, kg.artifacts (db w') = kg.artifacts (db w)
           ∧ stdout w'
             = stdout w ++ ["Warning: failed to create artifact: " +:+ Error e])
     ∨ (∃ row, kg.artifacts (db w') = kg.artifacts (db w) ++ [row]
               ∧ kg.ArtifactRow.content row = providers.GenerateResponse.Text resp
               ∧ stdout w' = stdout w))
  ∧ ∀ rest,
      executed (executedSteps st) (WorkflowStep.Name step) = false →
      areDependenciesSatisfied (WorkflowStep.DependsOn step) (executedSteps st)
      = true →
      scan E o runID variables (step :: rest) st w
      = scan E o runID variables rest
          (record_step st (WorkflowStep.Name step) sr) (noted w' step true).
Proof.
  intros Hrun Hcalls Hprov Hgen.
  pose proof Hrun as Hspec.
  apply executeStep_spec in Hspec as (_ & _ & _ & Hout).
  assert (Hneq : calls w' ≠ calls w).
  { rewrite Hcalls. intros Heq. apply (f_equal length) in Heq.
    rewrite length_app in Heq. cbn in Heq. lia. }
  destruct Hout as [e _ _ _ _ Hc|agent _ _ _ _ _ _ Hc
                    |agent prov e input _ _ Hp Hg Hc
                    |agent prov resp' input _ _ Hp Hg Hc Hsr _ _ Hart];
    [done|done|..];
    rewrite Hcalls in Hc; apply app_inv_head in Hc; simplify_eq;
    try rewrite Hprov in Hp; simplify_eq; try rewrite Hgen in Hg; simplify_eq.
  apply step_content_fields in Hsr as (Hst & Hres & Herr).
  split_and!; try done.
  - destruct Hart as [(e & ? & ?)|(row & ? & _ & Hrow & ?)]; [left|right]; eauto.
    exists row. unfold artifact_content in Hrow. by simplify_eq.
  - intros rest Hex Hsat. cbn [scan]. rewrite Hex, Hsat. cbn [negb].
    unfold mbind at 1, M_bind at 1. rewrite Hrun.
    unfold mbind at 1, M_bind at 1, noted.
    rewrite bool_decide_eq_true_2 by done.
    by destruct (note_step step true w').
Qed.

(** The write of the artifact of plan fails: the step is completed all
    the same, nothing is stored, a warning is printed, and in the whole
    run the two later steps are executed. *)
Lemma artifact_write_best_effort_witness :
  lost_artifact_step.1.2 = None
  ∧ StepResult.Status lost_artifact_step.1.1 = "completed"
  ∧ StepResult.Output lost_artifact_step.1.1 = "echo: hello"
  ∧ kg.artifacts (db lost_artifact_step.2) = []
  ∧ names (run_trace (world chain_agents) lost_artifact_run.2)
    = ["plan"; "research"; "write"]
  ∧ kg.ArtifactRow.step_name <$> kg.artifacts (db lost_artifact_run.2)
    = ["research"; "write"].
Proof.
  destruct (artifact_write_best_effort (E_fault 1) o_echo "RUN_1" plan_step
              chain_vars (mkLoop ∅ ∅ (ExecutionResult.mk "RUN_1" "running" 0
                                        None None ∅ ∅ "") false)
              (world chain_agents) lost_artifact_step.1.1
              lost_artifact_step.1.2 lost_artifact_step.2 "stub" echo_stub
              (request_for "hello" (agent "planner" "planner" "stub"))
              (providers.GenerateResponse.mk "echo: hello" 7 "stop" ∅))
    as (Herr & Hst & Hout & _); [by vm_compute..|].
  split_and!; [exact Herr|exact Hst|exact Hout|by vm_compute..].
Defined.

(** A step that returns an error ends the run: the result that comes
    back is marked failed with the message of the error, its end time and
    duration are set, the failing step is the last one executed, and,
    the database working, the row of the run is marked failed with that
    message. *)
Lemma step_error_aborts_run E o workflow variables w res e w' :
  ExecuteWorkflow E o workflow variables w = (Returned (Some res) (Some e), w') →
  ExecutionResult.Status res = "failed"
  ∧ ExecutionResult.Error res = Error e
  ∧ is_Some (ExecutionResult.EndTime res)
  ∧ is_Some (ExecutionResult.Duration res)
  ∧ (∃ pre s, run_trace w w' = pre ++ [(s, false)] ∧ ∀ x, x ∈ pre → x.2 = true)
  ∧ ((∀ n, db_fault E n = None) →
     ∃ row, last (kg.runs (db w')) = Some row
            ∧ kg.RunRow.status row = "failed"
            ∧ kg.RunRow.error_message row = Some (Error e)).
Proof.
  intros H. apply ExecuteWorkflow_spec in H
    as (_ & _ & [(e' & ? & _)|(passes & row & Ht & _ & _ & Hrow & Hout)]);
    [done|].
  apply run_trace_app in Ht. rewrite Ht.
  inversion Hout as [| |res' e' pre s Htr Hpre Hst Herr Hend Hdur Hupd]; subst.
  split_and!; try done; [by eauto|].
  intros Hnf. destruct (Hupd Hnf) as [t Hruns].
  rewrite Hruns, fmap_app. cbn [fmap list_fmap]. rewrite last_snoc.
  eexists. split; [done|].
  destruct Hrow as (Hid & _). unfold kg.update_row.
  by rewrite bool_decide_eq_true_2 by done.
Qed.

(** The provider fails on the first step of the chain: plan alone is
    executed and the run is stored as failed. *)
Example failing_run_aborts :
  names (run_trace (world chain_agents) failing_run.2) = ["plan"]
  ∧ kg.RunRow.status <$> kg.runs (db failing_run.2) = ["failed"]
  ∧ kg.artifacts (db failing_run.2) = [].
Proof. by vm_compute. Qed.

(** C7 (counterexample): the store holds an agent named planner whose
    id is AGENT_1.  A step whose agent field is the name finds no agent
    and fails; a step whose agent field is the id, which is the name of
    no agent, is resolved and completes. *)
Lemma agent_by_name_counterexample :
  let by_name := executeStep E0 o_echo "RUN_1" by_name_step ∅ ∅
                   (world named_agents) in
  let by_id := executeStep E0 o_echo "RUN_1" by_id_step ∅ ∅
                 (world named_agents) in
  (∃ a, a ∈ named_agents
        ∧ kg.Agent.Name a = WorkflowStep.Agent by_name_step)
  ∧ by_name.1.2 = Some ErrNoRows
  ∧ StepResult.Status by_name.1.1 = "failed"
  ∧ (∀ a, a ∈ named_agents → kg.Agent.Name a ≠ WorkflowStep.Agent by_id_step)
  ∧ by_id.1.2 = None
  ∧ StepResult.Status by_id.1.1 = "completed".
Proof.
  split_and!; try by vm_compute.
  - eexists. split; [by left|done].
  - intros a Ha%list_elem_of_singleton. by subst.
Qed.

(** C7 (amended): [executeStep] resolves the agent of a step by id: a
    step that comes back without error found a stored agent whose id is
    the step's agent field, and when no stored agent has that id the
    step fails before any provider is called; in a run such a step is
    the last one executed and the run comes back failed. *)
Theorem agent_resolved_by_id (E : Env) (o : Orchestrator) :
  (∀ runID step variables results w sr err w',
      executeStep E o runID step variables results w = ((sr, err), w') →
      (err = None →
       ∃ agent, kg.select_agent (WorkflowStep.Agent step) (db w) = Some agent
                ∧ agent ∈ kg.agents (db w)
                ∧ kg.Agent.ID agent = WorkflowStep.Agent step)
      ∧ ((∀ agent, agent ∈ kg.agents (db w) →
                   kg.Agent.ID agent ≠ WorkflowStep.Agent step) →
         (∃ e, err = Some e)
         ∧ StepResult.Status sr = "failed"
         ∧ calls w' = calls w))
  ∧ (∀ workflow variables w out w',
      ExecuteWorkflow E o workflow variables w = (out, w') →
      ∀ s ok,
        (s, ok) ∈ run_trace w w' →
        (∀ agent, agent ∈ kg.agents (db w) →
                  kg.Agent.ID agent ≠ WorkflowStep.Agent s) →
        ok = false
        ∧ (∃ pre, run_trace w w' = pre ++ [(s, false)])
        ∧ ∃ res e, out = Returned (Some res) (Some e)
                   ∧ ExecutionResult.Status res = "failed").
Proof.
  split.
  - intros runID step variables results w sr err w' H.
    apply executeStep_spec in H as (_ & _ & _ & Hout). split.
    + intros ->. apply step_outcome_agent in Hout as [agent Hsel].
      exists agent. by destruct (select_agent_Some _ _ _ Hsel).
    + intros Hnone.
      destruct Hout as [e _ Hsr _ _ Hc|agent _ Hsel|agent ? ? ? _ Hsel
                        |agent ? ? ? _ Hsel];
        [apply step_content_fields in Hsr as (? & _); by eauto|..];
        apply select_agent_Some in Hsel as [Hin Hid]; by destruct (Hnone _ Hin).
  - intros workflow variables w out w' H s ok Hin Hnone.
    pose proof (run_trace_ok _ _ _ _ _ _ _ H) as Hok.
    assert (ok = false) as ->.
    { destruct ok; [|done].
      destruct (tr_agent _ _ _ Hok (s, true) Hin eq_refl) as (a & Ha & Hid).
      by destruct (Hnone a Ha). }
    split; [done|].
    apply ExecuteWorkflow_spec in H
      as (_ & _ & [(e & -> & Ht & _)|(passes & row & Ht & _ & _ & _ & Hout)]).
    { rewrite (run_trace_app _ _ []) in Hin by (by rewrite app_nil_r).
      by apply elem_of_nil in Hin. }
    apply run_trace_app in Ht. rewrite <- Ht in Hout.
    destruct Hout as [Hfl _ _ _|res Hfl _ _ _ _ _ _ _
                      |res e pre s' Htr Hpre Hst _ _ _ _].
    + by specialize (Hfl _ Hin).
    + by specialize (Hfl _ Hin).
    + rewrite Htr in Hin. apply elem_of_app in Hin as [Hin|Hin].
      * by specialize (Hpre _ Hin).
      * apply list_elem_of_singleton in Hin. simplify_eq. eauto 6.
Qed.

(** The step that names the agent by id is resolved to the agent with
    that id; the run of the chain whose first provider call fails ends
    with that step. *)
Lemma agent_resolved_by_id_witness :
  (∃ agent, kg.select_agent "AGENT_1" (db (world named_agents)) = Some agent
            ∧ agent ∈ named_agents
            ∧ kg.Agent.ID agent = "AGENT_1")
  ∧ (∃ e, (executeStep E0 o_echo "RUN_1" by_name_step ∅ ∅
             (world named_agents)).1.2 = Some e).
Proof.
  pose proof (agent_resolved_by_id E0 o_echo) as [Hstep _]. split.
  - destruct (Hstep "RUN_1" by_id_step ∅ ∅ (world named_agents)
                (executeStep E0 o_echo "RUN_1" by_id_step ∅ ∅
                   (world named_agents)).1.1 None
                (executeStep E0 o_echo "RUN_1" by_id_step ∅ ∅
                   (world named_agents)).2) as [Hfound _];
      [by vm_compute|]. exact (Hfound eq_refl).
  - destruct (Hstep "RUN_1" by_name_step ∅ ∅ (world named_agents)
                (executeStep E0 o_echo "RUN_1" by_name_step ∅ ∅
                   (world named_agents)).1.1 (Some ErrNoRows)
                (executeStep E0 o_echo "RUN_1" by_name_step ∅ ∅
                   (world named_agents)).2) as [_ Hfail];
      [by vm_compute|].
    destruct Hfail as ((e & He) & _).
    + intros a Ha%list_elem_of_singleton. by subst.
    + exists ErrNoRows. by vm_compute.
Defined.

End step_properties.

(** ** Two runs side by side *)
Section agreement.
Import orchestrator Notions.
Context (E1 E2 : Env) (o : Orchestrator) (HE : env_agree E1 E2).

Lemma foldl_pointwise {A B} (f g : A → B → A) (a : A) (l : list B) :
  (∀ a x, f a x = g a x) → foldl f a l = foldl g a l.
Proof.
  intros Hfg. revert a. induction l as [|x l IH]; intros a; [done|].
  cbn [foldl]. by rewrite Hfg, IH.
Qed.

Lemma select_agent_agree id d1 d2 :
  agent_view <$> kg.agents d1 = agent_view <$> kg.agents d2 →
  match kg.select_agent id d1, kg.select_agent id d2 with
  | Some a1, Some a2 => agent_view a1 = agent_view a2
  | None, None => True
  | _, _ => False
  end.
Proof.
  unfold kg.select_agent. generalize (kg.agents d1) (kg.agents d2).
  induction l as [|a1 l1 IH]; intros [|a2 l2] Hl; try done.
  rewrite !fmap_cons in Hl. apply (inj2 cons) in Hl as [Ha Hl]. cbn [find].
  assert (kg.Agent.ID a1 = kg.Agent.ID a2) as ->
    by (unfold agent_view in Ha; congruence).
  case_bool_decide; [exact Ha|]. by apply IH.
Qed.

Lemma results_lookup_agree (r1 r2 : gmap string StepResult.t) k :
  step_content <$> r1 = step_content <$> r2 →
  StepResult.Output <$> r1 !! k = StepResult.Output <$> r2 !! k.
Proof.
  intros Hr. apply (f_equal (λ m, m !! k)) in Hr. rewrite !lookup_fmap in Hr.
  destruct (r1 !! k) as [s1|], (r2 !! k) as [s2|]; cbn in Hr |- *; try done.
  unfold step_content in Hr. congruence.
Qed.

Lemma render_agree n input variables r1 r2 :
  step_content <$> r1 = step_content <$> r2 →
  render E1 n input variables r1 = render E2 n input variables r2.
Proof.
  intros Hr. destruct HE as [_ Hord]. unfold render.
  assert (dom r1 = dom r2) as ->.
  { apply (f_equal dom) in Hr. by rewrite !dom_fmap_L in Hr. }
  rewrite !Hord. apply foldl_pointwise. intros a k.
  pose proof (results_lookup_agree _ _ k Hr) as Hk.
  destruct (r1 !! k), (r2 !! k); cbn in Hk; congruence.
Qed.

Lemma writes_within_refl w : writes_within [] w w.
Proof. exists [], []. rewrite !app_nil_r. split_and!; try done. Qed.

Lemma writes_within_trans a1 a2 w w' w'' :
  writes_within a1 w w' → writes_within a2 w' w'' →
  writes_within (a1 ++ a2) w w''.
Proof.
  intros (r1 & l1 & Hr1 & Hl1 & Hs1 & Hn1) (r2 & l2 & Hr2 & Hl2 & Hs2 & Hn2).
  exists (r1 ++ r2), (l1 ++ l2). split_and!.
  - by rewrite Hr2, Hr1, app_assoc.
  - by rewrite Hl2, Hl1, app_assoc.
  - rewrite fmap_app. by apply sublist_app.
  - rewrite !length_app. lia.
Qed.

Lemma ext_agree_refl w1 w2 : ext_agree w1 w1 w2 w2.
Proof.
  split_and!.
  - exists []. by rewrite !app_nil_r.
  - exists []. by rewrite !app_nil_r.
  - exists []. split; apply writes_within_refl.
Qed.

Lemma ext_agree_trans w1 w1' w1'' w2 w2' w2'' :
  ext_agree w1 w1' w2 w2' → ext_agree w1' w1'' w2' w2'' →
  ext_agree w1 w1'' w2 w2''.
Proof.
  intros ((s1 & Hs1 & Hs2) & (c1 & Hc1 & Hc2) & (a1 & Ha1 & Ha2))
         ((s1' & Hs1' & Hs2') & (c1' & Hc1' & Hc2') & (a1' & Ha1' & Ha2')).
  split_and!.
  - exists (s1 ++ s1'). by rewrite Hs1', Hs2', Hs1, Hs2, !app_assoc.
  - exists (c1 ++ c1'). by rewrite Hc1', Hc2', Hc1, Hc2, !app_assoc.
  - exists (a1 ++ a1'). split; by eapply writes_within_trans.
Qed.

(** A stretch that leaves the artifacts and the output alone. *)
Lemma writes_within_same w w' :
  kg.artifacts (db w') = kg.artifacts (db w) → stdout w' = stdout w →
  writes_within [] w w'.
Proof.
  intros Ha Hs. exists [], []. rewrite !app_nil_r. by split_and!.
Qed.

Lemma request_for_agree input a1 a2 :
  agent_view a1 = agent_view a2 →
  (kg.Agent.ModelProvider a1, request_for input a1)
  = (kg.Agent.ModelProvider a2, request_for input a2)
  ∧ kg.Agent.ID a1 = kg.Agent.ID a2.
Proof.
  unfold agent_view, request_for. intros [= H1 H2 H3]. by rewrite H1, H2, H3.
Qed.

(** The artifact and output part of a completed step. *)
Lemma completed_writes_within content (w w' : World) runID :
  ((∃ e, kg.artifacts (db w') = kg.artifacts (db w)
         ∧ stdout w'
           = stdout w ++ ["Warning: failed to create artifact: " +:+ Error e])
   ∨ (∃ row, kg.artifacts (db w') = kg.artifacts (db w) ++ [row]
             ∧ kg.ArtifactRow.run_id row = runID
             ∧ artifact_content row = content
             ∧ stdout w' = stdout w)) →
  writes_within [content] w w'.
Proof.
  intros [(e & Ha & Hs)|(row & Ha & _ & Hc & Hs)].
  - eexists [], [_]. rewrite app_nil_r. split_and!; try done.
    apply sublist_nil_l.
  - exists [row], []. rewrite app_nil_r. split_and!; try done.
    cbn. by rewrite Hc.
Qed.

Lemma step_outcome_agree id1 id2 step variables r1 r2 w1 w2 w1' w2'
    sr1 sr2 err1 err2 :
  world_agree w1 w2 →
  step_content <$> r1 = step_content <$> r2 →
  step_frame w1 w1' → step_frame w2 w2' →
  step_outcome E1 o id1 step variables r1 w1 w1' sr1 err1 →
  step_outcome E2 o id2 step variables r2 w2 w2' sr2 err2 →
  err1 = err2
  ∧ step_content sr1 = step_content sr2
  ∧ world_agree w1' w2'
  ∧ (∃ cs, calls w1' = calls w1 ++ cs ∧ calls w2' = calls w2 ++ cs)
  ∧ (∃ attempts, writes_within attempts w1 w1' ∧ writes_within attempts w2 w2').
Proof.
  intros (Hav & Hops & Hrg & Hlen) Hr (_ & Hag1 & _) (_ & Hag2 & _) H1 H2.
  assert (Hfault : db_fault E1 (ops w1) = db_fault E2 (ops w2))
    by (rewrite <- Hops; apply HE).
  pose proof (select_agent_agree (WorkflowStep.Agent step) _ _ Hav) as Hsel.
  assert (Hrender : render E1 (ranges w1) (WorkflowStep.Input step) variables r1
                    = render E2 (ranges w2) (WorkflowStep.Input step) variables r2)
    by (rewrite <- Hrg; by apply render_agree).
  assert (Hwa : ∀ n m, ops w1' = n → ops w2' = n → ranges w1' = m →
                  ranges w2' = m → length (calls w1') = length (calls w2') →
                  world_agree w1' w2').
  { intros n m ? ? ? ? ?. unfold world_agree. rewrite Hag1, Hag2.
    split_and!; congruence. }
  destruct H1 as [e1 Hd1 Hc1 Ho1 Hg1 Hk1 Ha1 Ht1
                 |a1 Hf1 Hs1 Hp1 Hc1 Ho1 Hg1 Hk1 Ha1 Ht1
                 |a1 p1 e1 in1 Hf1 Hs1 Hp1 Hgen1 Hk1 Hc1 Ho1 Hg1 Ha1 Ht1
                 |a1 p1 resp1 in1 Hf1 Hs1 Hp1 Hgen1 Hk1 Hc1 Ho1 Hg1 Hw1];
    destruct H2 as [e2 Hd2 Hc2 Ho2 Hg2 Hk2 Ha2 Ht2
                   |a2 Hf2 Hs2 Hp2 Hc2 Ho2 Hg2 Hk2 Ha2 Ht2
                   |a2 p2 e2 in2 Hf2 Hs2 Hp2 Hgen2 Hk2 Hc2 Ho2 Hg2 Ha2 Ht2
                   |a2 p2 resp2 in2 Hf2 Hs2 Hp2 Hgen2 Hk2 Hc2 Ho2 Hg2 Hw2];
    try (destruct Hd1 as [(Hf1 & -> & Hs1)|(msg1 & Hf1 & ->)]);
    try (destruct Hd2 as [(Hf2 & -> & Hs2)|(msg2 & Hf2 & ->)]);
    rewrite Hf1 in Hfault; rewrite Hf2 in Hfault; try discriminate Hfault;
    try (rewrite Hs1, Hs2 in Hsel; try (by destruct Hsel));
    try (assert (Hmp : kg.Agent.ModelProvider a1 = kg.Agent.ModelProvider a2)
           by (unfold agent_view in Hsel; congruence);
         rewrite Hmp in Hp1; rewrite Hp1 in Hp2; try discriminate Hp2);
    try (assert (p2 = p1) as -> by congruence; subst in1 in2;
         assert (Hreq : request_for
                          (render E1 (ranges w1) (WorkflowStep.Input step)
                             variables r1) a1
                        = request_for
                            (render E2 (ranges w2) (WorkflowStep.Input step)
                               variables r2) a2)
           by (rewrite Hrender; unfold request_for, agent_view in *; congruence);
         rewrite Hreq in Hgen1, Hk1; rewrite Hlen in Hgen1;
         rewrite Hgen1 in Hgen2;
         try discriminate Hgen2; rewrite Hmp in Hk1).
  - (* no agent with that id, in both *)
    rewrite Hc1, Hc2. split_and!; try done.
    + eapply Hwa; eauto; congruence.
    + exists []. by rewrite !app_nil_r.
    + exists []. split; by apply writes_within_same.
  - (* the database fails, in both *)
    assert (msg1 = msg2) as -> by congruence. rewrite Hc1, Hc2. split_and!; try done.
    + eapply Hwa; eauto; congruence.
    + exists []. by rewrite !app_nil_r.
    + exists []. split; by apply writes_within_same.
  - (* no provider, in both *)
    rewrite Hc1, Hc2, Hmp. split_and!; try done.
    + eapply Hwa; eauto; congruence.
    + exists []. by rewrite !app_nil_r.
    + exists []. split; by apply writes_within_same.
  - (* the provider fails, in both *)
    rewrite Hc1, Hc2. split_and!; try congruence.
    + eapply Hwa; eauto; try congruence.
      rewrite Hk1, Hk2, !length_app. cbn. lia.
    + eexists. split; [exact Hk1|exact Hk2].
    + exists []. split; by apply writes_within_same.
  - (* the provider answers, in both *)
    assert (resp2 = resp1) as -> by congruence.
    rewrite Hc1, Hc2. split_and!; try congruence.
    + eapply Hwa; eauto; try congruence.
      rewrite Hk1, Hk2, !length_app. cbn. lia.
    + eexists. split; [exact Hk1|exact Hk2].
    + eexists [_]. split; eapply completed_writes_within; [exact Hw1|].
      assert (kg.Agent.ID a1 = kg.Agent.ID a2) as ->
        by (unfold agent_view in Hsel; congruence).
      exact Hw2.
Qed.

Lemma update_row_other runID status output err t (base : list kg.RunRow.t) :
  runID ∉ kg.RunRow.id <$> base →
  kg.update_row runID status output err t <$> base = base.
Proof.
  induction base as [|row base IH]; [done|]. rewrite !fmap_cons.
  intros Hnot. apply not_elem_of_cons in Hnot as [Hne Hnot].
  rewrite IH by done. unfold kg.update_row at 1.
  by rewrite bool_decide_eq_false_2 by done.
Qed.

Lemma update_row_self runID status output err t row :
  kg.RunRow.id row = runID →
  kg.RunRow.id (kg.update_row runID status output err t row) = runID
  ∧ run_row_content (kg.update_row runID status output err t row)
    = (kg.RunRow.workflow_name row, status, kg.RunRow.input_data row,
       Some output, Some err, kg.RunRow.metadata row).
Proof.
  intros Hid. unfold kg.update_row. by rewrite bool_decide_eq_true_2 by done.
Qed.

Lemma update_runs_agree id1 id2 status output err t1 t2 rs1 rs2 :
  runs_agree id1 id2 rs1 rs2 →
  runs_agree id1 id2 (kg.update_row id1 status output err t1 <$> rs1)
    (kg.update_row id2 status output err t2 <$> rs2).
Proof.
  intros (b1 & row1 & b2 & row2 & -> & -> & Hi1 & Hi2 & Hn1 & Hn2 & Hc).
  exists b1, (kg.update_row id1 status output err t1 row1),
    b2, (kg.update_row id2 status output err t2 row2).
  rewrite !fmap_app, (update_row_other id1), (update_row_other id2) by done.
  destruct (update_row_self id1 status output err t1 row1 Hi1) as [Hu1 Hv1].
  destruct (update_row_self id2 status output err t2 row2 Hi2) as [Hu2 Hv2].
  split_and!; try done. rewrite Hv1, Hv2.
  unfold run_row_content in Hc. congruence.
Qed.

Lemma UpdateRunStatus_agree id1 id2 status output err w1 w2 :
  world_agree w1 w2 →
  runs_agree id1 id2 (kg.runs (db w1)) (kg.runs (db w2)) →
  let w1' := (UpdateRunStatus E1 id1 status output err w1).2 in
  let w2' := (UpdateRunStatus E2 id2 status output err w2).2 in
  world_agree w1' w2' ∧ ext_agree w1 w1' w2 w2'
  ∧ runs_agree id1 id2 (kg.runs (db w1')) (kg.runs (db w2')).
Proof.
  intros (Hav & Hops & Hrg & Hlen) Hruns w1' w2'.
  destruct (UpdateRunStatus E1 id1 status output err w1) as [u1 x1] eqn:H1.
  destruct (UpdateRunStatus E2 id2 status output err w2) as [u2 x2] eqn:H2.
  pose proof (UpdateRunStatus_counters E1 id1 status output err w1) as [Ho1 Hg1].
  pose proof (UpdateRunStatus_counters E2 id2 status output err w2) as [Ho2 Hg2].
  rewrite H1 in Ho1, Hg1. rewrite H2 in Ho2, Hg2. subst w1' w2'.
  cbn [snd] in *.
  apply UpdateRunStatus_spec in H1 as (Ht1 & Hc1 & Hs1 & Ha1 & Hr1 & Hu1).
  apply UpdateRunStatus_spec in H2 as (Ht2 & Hc2 & Hs2 & Ha2 & Hr2 & Hu2).
  split_and!.
  - unfold world_agree. rewrite Ha1, Ha2, Hc1, Hc2. split_and!; congruence.
  - split_and!.
    + exists []. by rewrite !app_nil_r.
    + exists []. by rewrite !app_nil_r.
    + exists []. split; by apply writes_within_same.
  - rewrite Hu1, Hu2. rewrite <- Hops, <- (proj1 HE).
    destruct (db_fault E1 (ops w1)); [done|]. by apply update_runs_agree.
Qed.

Lemma state_agree_record st1 st2 name sr1 sr2 :
  state_agree st1 st2 → step_content sr1 = step_content sr2 →
  state_agree (record_step st1 name sr1) (record_step st2 name sr2).
Proof.
  intros (Hex & Hres & Hrc & Hpr) Hsr. unfold state_agree, record_step.
  cbn [executedSteps stepResults result progress].
  unfold result_content in *. cbn [ExecutionResult.Status ExecutionResult.Error
    ExecutionResult.Steps ExecutionResult.Output].
  rewrite !fmap_insert, Hex, Hres, Hsr. split_and!; [done|done| |done].
  injection Hrc as -> -> HS ->. by rewrite HS.
Qed.

(** What two passes or two loops that ran side by side agree on. *)
Lemma scan_agree id1 id2 variables todo :
  ∀ st1 st2 w1 w2 r1 w1' r2 w2',
  world_agree w1 w2 →
  state_agree st1 st2 →
  runs_agree id1 id2 (kg.runs (db w1)) (kg.runs (db w2)) →
  scan E1 o id1 variables todo st1 w1 = (r1, w1') →
  scan E2 o id2 variables todo st2 w2 = (r2, w2') →
  world_agree w1' w2'
  ∧ ext_agree w1 w1' w2 w2'
  ∧ runs_agree id1 id2 (kg.runs (db w1')) (kg.runs (db w2'))
  ∧ match r1, r2 with
    | inl st1', inl st2' => state_agree st1' st2'
    | inr (res1, e1), inr (res2, e2) =>
        e1 = e2 ∧ result_content res1 = result_content res2
    | _, _ => False
    end.
Proof.
  induction todo as [|step rest IH];
    intros st1 st2 w1 w2 r1 w1' r2 w2' Hw Hst Hruns H1 H2.
  { cbn [scan] in H1, H2. unfold mret, M_ret in H1, H2. simplify_eq.
    split_and!; try done. apply ext_agree_refl. }
  cbn [scan] in H1, H2. pose proof Hst as (Hex & Hres & Hrc & Hpr).
  rewrite <- Hex in H2.
  destruct (executed (executedSteps st1) (WorkflowStep.Name step)); [by eauto|].
  destruct (areDependenciesSatisfied (WorkflowStep.DependsOn step)
              (executedSteps st1)); cbn [negb] in H1, H2; [|by eauto].
  unfold mbind at 1, M_bind at 1 in H1. unfold mbind at 1, M_bind at 1 in H2.
  destruct (executeStep E1 o id1 step variables (stepResults st1) w1)
    as [[sr1 err1] x1] eqn:Hs1.
  destruct (executeStep E2 o id2 step variables (stepResults st2) w2)
    as [[sr2 err2] x2] eqn:Hs2.
  apply executeStep_spec in Hs1 as (Hfr1 & _ & _ & Ho1).
  apply executeStep_spec in Hs2 as (Hfr2 & _ & _ & Ho2).
  destruct (step_outcome_agree _ _ _ _ _ _ _ _ _ _ _ _ _ _ Hw Hres Hfr1 Hfr2
              Ho1 Ho2) as (<- & Hsr & Hwx & Hcalls & Hwrites).
  destruct Hfr1 as (Htr1 & _ & Hru1), Hfr2 as (Htr2 & _ & Hru2).
  unfold mbind at 1, M_bind at 1, note_step at 1 in H1.
  unfold mbind at 1, M_bind at 1, note_step at 1 in H2.
  set (y1 := mkWorld (db x1) (ticks x1) (ops x1) (ranges x1) (stdout x1)
               (calls x1) (trace x1 ++ [(step, bool_decide (err1 = None))])) in H1.
  set (y2 := mkWorld (db x2) (ticks x2) (ops x2) (ranges x2) (stdout x2)
               (calls x2) (trace x2 ++ [(step, bool_decide (err1 = None))])) in H2.
  assert (Hwy : world_agree y1 y2) by exact Hwx.
  assert (Hext : ext_agree w1 y1 w2 y2).
  { split_and!; [|exact Hcalls|exact Hwrites].
    exists [(step, bool_decide (err1 = None))]. cbn [y1 y2 trace].
    by rewrite Htr1, Htr2. }
  assert (Hry : runs_agree id1 id2 (kg.runs (db y1)) (kg.runs (db y2))).
  { cbn [y1 y2 db]. by rewrite Hru1, Hru2. }
  destruct err1 as [e|].
  - unfold mbind at 1, M_bind at 1, Now at 1 in H1.
    unfold mbind at 1, M_bind at 1, Now at 1 in H2.
    unfold mbind at 1, M_bind at 1 in H1. unfold mbind at 1, M_bind at 1 in H2.
    match type of H1 with
    | context [UpdateRunStatus E1 ?a ?b ?c ?d ?z1] =>
        match type of H2 with
        | context [UpdateRunStatus E2 ?a2 _ _ _ ?z2] =>
            destruct (UpdateRunStatus_agree a a2 b c d z1 z2)
              as (Hwz & Hez & Hrz); [exact Hwy|exact Hry|];
            destruct (UpdateRunStatus E1 a b c d z1) as [u1 v1];
            destruct (UpdateRunStatus E2 a2 b c d z2) as [u2 v2]
        end
    end.
    unfold mret, M_ret in H1, H2. cbn [snd] in Hwz, Hez, Hrz. simplify_eq.
    split_and!; try done.
    + eapply ext_agree_trans; [exact Hext|exact Hez].
    + unfold result_content in Hrc |- *. cbn. congruence.
  - eapply IH in H1 as (Hw' & He' & Hr' & Hm); [| | | |exact H2]; try done.
    + split_and!; try done. by eapply ext_agree_trans.
    + by apply state_agree_record.
Qed.

Lemma after_loop_agree id1 id2 st1 st2 w1 w2 out1 w1' out2 w2' :
  world_agree w1 w2 →
  state_agree st1 st2 →
  runs_agree id1 id2 (kg.runs (db w1)) (kg.runs (db w2)) →
  after_loop E1 id1 st1 w1 = (out1, w1') →
  after_loop E2 id2 st2 w2 = (out2, w2') →
  world_agree w1' w2'
  ∧ ext_agree w1 w1' w2 w2'
  ∧ runs_agree id1 id2 (kg.runs (db w1')) (kg.runs (db w2'))
  ∧ outcome_content out1 = outcome_content out2.
Proof.
  intros Hw (Hex & Hres & Hrc & Hpr) Hruns H1 H2. unfold after_loop in H1, H2.
  unfold mbind at 1, M_bind at 1, Now at 1 in H1.
  unfold mbind at 1, M_bind at 1, Now at 1 in H2.
  unfold mbind at 1, M_bind at 1 in H1. unfold mbind at 1, M_bind at 1 in H2.
  cbn [finish ExecutionResult.Output] in H1, H2.
  assert (HO : ExecutionResult.Output (result st1)
               = ExecutionResult.Output (result st2))
    by (unfold result_content in Hrc; congruence).
  rewrite <- HO in H2.
  match type of H1 with
  | context [UpdateRunStatus E1 ?a ?b ?c ?d ?z1] =>
      match type of H2 with
      | context [UpdateRunStatus E2 ?a2 _ _ _ ?z2] =>
          destruct (UpdateRunStatus_agree a a2 b c d z1 z2)
            as (Hwz & Hez & Hrz); [exact Hw|exact Hruns|];
          destruct (UpdateRunStatus E1 a b c d z1) as [u1 v1];
          destruct (UpdateRunStatus E2 a2 b c d z2) as [u2 v2]
      end
  end.
  unfold mret, M_ret in H1, H2. cbn [snd] in Hwz, Hez, Hrz. simplify_eq.
  split_and!; try done.
  unfold outcome_content, result_content in Hrc |- *. cbn. congruence.
Qed.

Lemma loop_agree id1 id2 workflow variables :
  ∀ fuel st1 st2 w1 w2 out1 w1' out2 w2',
  world_agree w1 w2 →
  state_agree st1 st2 →
  runs_agree id1 id2 (kg.runs (db w1)) (kg.runs (db w2)) →
  loop E1 fuel o id1 workflow variables st1 w1 = (out1, w1') →
  loop E2 fuel o id2 workflow variables st2 w2 = (out2, w2') →
  world_agree w1' w2'
  ∧ ext_agree w1 w1' w2 w2'
  ∧ runs_agree id1 id2 (kg.runs (db w1')) (kg.runs (db w2'))
  ∧ outcome_content out1 = outcome_content out2.
Proof.
  induction fuel as [|fuel IH];
    intros st1 st2 w1 w2 out1 w1' out2 w2' Hw Hst Hruns H1 H2;
    pose proof Hst as (Hex & Hres & Hrc & Hpr);
    (destruct (decide (size (executedSteps st1)
                       < length (Workflow.Steps workflow))%nat) as [Hlt|Hge];
     [|rewrite loop_exit in H1 by done;
       rewrite loop_exit in H2 by (by rewrite <- Hex);
       by eapply after_loop_agree]);
    cbn [loop] in H1, H2; rewrite <- Hex in H2;
    rewrite bool_decide_eq_true_2 in H1, H2 by done.
  { unfold mret, M_ret in H1, H2. simplify_eq.
    split_and!; try done. apply ext_agree_refl. }
  unfold mbind at 1, M_bind at 1 in H1. unfold mbind at 1, M_bind at 1 in H2.
  destruct (scan E1 o id1 variables (Workflow.Steps workflow)
              (reset_progress st1) w1) as [r1 x1] eqn:Hs1.
  destruct (scan E2 o id2 variables (Workflow.Steps workflow)
              (reset_progress st2) w2) as [r2 x2] eqn:Hs2.
  assert (Hst' : state_agree (reset_progress st1) (reset_progress st2))
    by (by split_and!).
  destruct (scan_agree _ _ _ _ _ _ _ _ _ _ _ _ Hw Hst' Hruns Hs1 Hs2)
    as (Hwx & Hex' & Hrx & Hm).
  destruct r1 as [st1'|[res1 e1]], r2 as [st2'|[res2 e2]]; try done.
  - pose proof Hm as (_ & _ & _ & Hp). rewrite <- Hp in H2.
    destruct (progress st1'); cbn [negb] in H1, H2.
    + eapply IH in H1 as (? & ? & ? & ?); [| | | |exact H2]; try done.
      split_and!; try done. by eapply ext_agree_trans.
    + unfold mret, M_ret in H1, H2. by simplify_eq.
  - unfold mret, M_ret in H1, H2. destruct Hm as [-> Hm]. simplify_eq.
    split_and!; try done. unfold outcome_content, result_content in Hm |- *.
    cbn. congruence.
Qed.

Lemma CreateRun_exact E run w r w' :
  CreateRun E run w = (r, w') →
  let taken := bool_decide (kg.Run.ID run ∈ kg.RunRow.id <$> kg.runs (db w)) in
  r = match db_fault E (ops w) with
      | Some msg => Some (ErrDatabase msg)
      | None => if taken then Some (ErrConstraint "runs.id") else None
      end
  ∧ ops w' = S (ops w) ∧ ranges w' = ranges w
  ∧ calls w' = calls w ∧ trace w' = trace w ∧ stdout w' = stdout w
  ∧ kg.agents (db w') = kg.agents (db w)
  ∧ kg.artifacts (db w') = kg.artifacts (db w)
  ∧ (r = None →
     kg.runs (db w')
     = kg.runs (db w)
       ++ [kg.RunRow.mk (kg.Run.ID run) (kg.Run.WorkflowName run)
             (kg.Run.Status run) (kg.Run.InputData run) None
             (now E (ticks w)) None None None (kg.Run.Metadata run)]).
Proof.
  unfold CreateRun, kg.insert_run. run_monad. intros H.
  destruct (db_fault E (ops w)); [by simplify_eq|].
  case_bool_decide; by simplify_eq.
Qed.

(** Two runs of a workflow from worlds the executor cannot tell apart, in
    environments that differ only in their clocks, the run id being taken
    in both stores or in neither. *)
Lemma ExecuteWorkflow_agree workflow variables w1 w2 out1 w1' out2 w2' :
  let id1 := "RUN_" +:+ pretty (Unix (now E1 (ticks w1))) in
  let id2 := "RUN_" +:+ pretty (Unix (now E2 (ticks w2))) in
  world_agree w1 w2 →
  (id1 ∈ kg.RunRow.id <$> kg.runs (db w1)
   ↔ id2 ∈ kg.RunRow.id <$> kg.runs (db w2)) →
  ExecuteWorkflow E1 o workflow variables w1 = (out1, w1') →
  ExecuteWorkflow E2 o workflow variables w2 = (out2, w2') →
  ext_agree w1 w1' w2 w2'
  ∧ outcome_content out1 = outcome_content out2
  ∧ ((∀ e, out1 ≠ Returned None (Some (ErrCreateRun e))) →
     runs_agree id1 id2 (kg.runs (db w1')) (kg.runs (db w2'))).
Proof.
  intros id1 id2 Hw Hid H1 H2. unfold ExecuteWorkflow in H1, H2.
  unfold mbind at 1, M_bind at 1, Now at 1 in H1.
  unfold mbind at 1, M_bind at 1, Now at 1 in H2.
  unfold mbind at 1, M_bind at 1, Now at 1 in H1.
  unfold mbind at 1, M_bind at 1, Now at 1 in H2.
  unfold mbind at 1, M_bind at 1 in H1. unfold mbind at 1, M_bind at 1 in H2.
  cbn [ticks] in H1, H2. fold id1 in H1. fold id2 in H2.
  match type of H1 with
  | context [CreateRun E1 ?run ?z] =>
      destruct (CreateRun E1 run z) as [f1 x1] eqn:Hc1
  end.
  match type of H2 with
  | context [CreateRun E2 ?run ?z] =>
      destruct (CreateRun E2 run z) as [f2 x2] eqn:Hc2
  end.
  apply CreateRun_exact in Hc1
    as (Hf1 & Ho1 & Hg1 & Hk1 & Ht1 & Hs1 & Ha1 & Hr1 & Hu1).
  apply CreateRun_exact in Hc2
    as (Hf2 & Ho2 & Hg2 & Hk2 & Ht2 & Hs2 & Ha2 & Hr2 & Hu2).
  cbn [db ticks ops ranges stdout calls trace kg.Run.ID kg.Run.WorkflowName
       kg.Run.Status kg.Run.InputData kg.Run.Metadata] in *.
  pose proof Hw as (Hav & Hops & Hrg & Hlen).
  assert (Hwx : world_agree x1 x2).
  { unfold world_agree. rewrite Ha1, Ha2, Hk1, Hk2. split_and!; congruence. }
  assert (Hex : ext_agree w1 x1 w2 x2).
  { split_and!.
    - exists []. by rewrite !app_nil_r.
    - exists []. by rewrite !app_nil_r.
    - exists []. split; by apply writes_within_same. }
  rewrite <- Hops, <- (proj1 HE) in Hf2.
  assert (Hff : f1 = f2).
  { rewrite Hf1, Hf2. destruct (db_fault E1 (ops w1)); [done|].
    repeat case_bool_decide; try done; tauto. }
  rewrite <- Hff in H2, Hu2. clear Hff Hf2. destruct f1 as [e|].
  { unfold mret, M_ret in H1, H2. inversion H1. inversion H2. subst.
    split_and!; try done. intros Hno. by destruct (Hno e). }
  assert (Hn1 : id1 ∉ kg.RunRow.id <$> kg.runs (db w1)).
  { destruct (db_fault E1 (ops w1)); [done|]. by case_bool_decide. }
  assert (Hn2 : id2 ∉ kg.RunRow.id <$> kg.runs (db w2)) by tauto.
  eapply loop_agree in H1 as (_ & He & Hr & Hout); [| | | |exact H2]; try done.
  - split_and!; try done. by eapply ext_agree_trans.
  - rewrite Hu1, Hu2 by done. eexists _, _, _, _. by split_and!.
Qed.

Lemma sublist_same_length {A} (l1 l2 : list A) :
  l1 `sublist_of` l2 → (length l2 ≤ length l1)%nat → l1 = l2.
Proof.
  induction 1 as [|x l1 l2 _ IH|x l1 l2 Hsub _]; cbn; intros Hlen.
  - done.
  - f_equal. apply IH. lia.
  - apply sublist_length in Hsub. lia.
Qed.

(** When no warning was printed, the rows written are the attempts. *)
Lemma writes_within_all attempts w w' :
  writes_within attempts w w' → stdout w' = stdout w →
  artifact_content <$> run_artifacts w w' = attempts.
Proof.
  intros (rows & lines & Ha & Hs & Hsub & Hlen) Hsame.
  unfold run_artifacts. rewrite Ha, drop_app_length.
  assert (lines = []) as ->.
  { rewrite Hs in Hsame. apply (f_equal length) in Hsame.
    rewrite length_app in Hsame. destruct lines; [done|]. cbn in Hsame. lia. }
  apply sublist_same_length; [done|]. rewrite length_fmap. cbn in Hlen. lia.
Qed.

End agreement.

(** ** Determinism and the parameters of generation *)
Section determinism.
Import orchestrator Notions Scenarios.




Lemma call_ok_fixed agents c : call_ok agents c → fixed_parameters agents c.
Proof.
  intros (agent & input & Hin & ->). unfold fixed_parameters, request_for.
  cbn. split_and!; try done. by exists agent.
Qed.

Lemma with_model_names_agree f w : world_agree w (with_model_names f w).
Proof.
  unfold world_agree, with_model_names. cbn. split_and!; try done.
  rewrite <- list_fmap_compose. by apply list_fmap_ext.
Qed.

(** C10: every call of [Generate] made in a run has temperature 0.7, at
    most 1000 tokens, no stop sequence (and no top-p value or metadata),
    the system prompt of a stored agent and that agent's provider name,
    whatever the step; the calls and the content of the result are the
    same when the model names of the stored agents are replaced by any
    others; and the model the Ollama and OpenAI clients send is the one
    of their own configuration. *)
Theorem generate_parameters_constant (E : Env) (o : Orchestrator)
    (workflow : Workflow.t) (variables : gmap string value) (w : World) :
  Forall (fixed_parameters (kg.agents (db w)))
    (run_calls w (ExecuteWorkflow E o workflow variables w).2)
  ∧ (∀ f : kg.Agent.t → string,
       let w2 := with_model_names f w in
       run_calls w (ExecuteWorkflow E o workflow variables w).2
       = run_calls w2 (ExecuteWorkflow E o workflow variables w2).2
       ∧ outcome_content (ExecuteWorkflow E o workflow variables w).1
         = outcome_content (ExecuteWorkflow E o workflow variables w2).1)
  ∧ (∀ c req, providers.ollama.Model (providers.ollama.request c req)
              = providers.ollama.model c)
  ∧ (∀ c req, providers.openai.Model (providers.openai.request c req)
              = providers.openai.model c).
Proof.
  split_and!.
  - destruct (ExecuteWorkflow E o workflow variables w) as [out w'] eqn:H.
    apply ExecuteWorkflow_spec in H as (_ & (cs & Hcs & Hall) & _).
    cbn [snd]. rewrite (run_calls_app _ _ _ Hcs).
    eapply Forall_impl; [exact Hall|]. apply call_ok_fixed.
  - intros f w2. subst w2.
    destruct (ExecuteWorkflow E o workflow variables w) as [out1 w1'] eqn:H1.
    destruct (ExecuteWorkflow E o workflow variables (with_model_names f w))
      as [out2 w2'] eqn:H2.
    destruct (ExecuteWorkflow_agree E E o (conj (λ _, eq_refl) (λ _ _, eq_refl))
                _ _ _ _ _ _ _ _ (with_model_names_agree f w) (reflexivity _)
                H1 H2) as ((_ & (cs & Hc1 & Hc2) & _) & Hout & _).
    cbn [fst snd]. split; [|exact Hout].
    by rewrite (run_calls_app _ _ _ Hc1), (run_calls_app _ _ _ Hc2).
  - done.
  - done.
Qed.

End determinism.

(** * Further properties of the code *)

(** ** Strings, continued *)
Section more_string_facts.
Import GoStrings Queries QueryShapes.

Lemma HasPrefix_mem_char c s p :
  HasPrefix s p = true → mem_char c p = true → mem_char c s = true.
Proof.
  revert s. induction p as [|x p IH]; intros s Hp Hc; [done|].
  destruct s as [|y s]; [done|]. cbn [HasPrefix] in Hp.
  destruct (decide (y = x)) as [->|]; [|done].
  cbn [mem_char] in *. destruct (decide (x = c)); [done|]. by apply IH.
Qed.

(** A pattern one of whose bytes does not occur in the text is not
    found. *)
Lemma Contains_absent_char c s p :
  mem_char c p = true → mem_char c s = false → Contains s p = false.
Proof.
  intros Hp. rewrite Contains_index_of.
  induction s as [|y s IH]; intros Hs.
  - cbn [index_of]. destruct (HasPrefix "" p) eqn:Hpre; [|done].
    by rewrite (HasPrefix_mem_char c _ _ Hpre Hp) in Hs.
  - cbn [index_of]. destruct (HasPrefix (String y s) p) eqn:Hpre.
    { by rewrite (HasPrefix_mem_char c _ _ Hpre Hp) in Hs. }
    cbn [mem_char] in Hs. destruct (decide (y = c)); [done|].
    specialize (IH Hs). by destruct (index_of s p).
Qed.

Lemma trim_left_all_space ws s :
  all_space ws = true → trim_left (ws +:+ s) = trim_left s.
Proof.
  induction ws as [|c ws IH]; [done|]. cbn [all_space].
  intros [Hc Hws]%andb_true_iff. rewrite append_cons. cbn [trim_left].
  rewrite Hc. auto.
Qed.

Lemma append_empty_r s : s +:+ "" = s.
Proof. induction s as [|c s IH]; [done|]. by rewrite append_cons, IH. Qed.

Lemma TrimSpace_all_space ws : all_space ws = true → TrimSpace ws = "".
Proof.
  intros Hws. unfold TrimSpace. rewrite <- (append_empty_r ws).
  by rewrite trim_left_all_space.
Qed.

Lemma is_space_upper_char c : is_space (upper_char c) = is_space c.
Proof. by destruct c as [[] [] [] [] [] [] [] []]. Qed.

(** A keyword that starts the text, after any white space and in any
    case, starts the trimmed upper-case text. *)
Lemma HasPrefix_keyword kw : ∀ word rest,
  ToUpper word = kw →
  (∀ c, mem_char c kw = true → is_space c = false) →
  HasPrefix (ToUpper (trim_right (word +:+ rest))) kw = true.
Proof.
  induction kw as [|k kw IH]; intros word rest Hw Hchars; [done|].
  destruct word as [|c word]; [done|]. cbn [ToUpper] in Hw.
  injection Hw as Hc Hw. rewrite append_cons.
  assert (is_space c = false) as Hsp.
  { rewrite <- is_space_upper_char, Hc. apply Hchars. cbn [mem_char].
    by rewrite decide_True. }
  rewrite trim_right_cons by done. cbn [ToUpper HasPrefix].
  rewrite decide_True by done. apply IH; [done|].
  intros x Hx. apply Hchars. cbn [mem_char]. by destruct (decide (k = x)).
Qed.

Lemma trim_left_keyword c word rest :
  is_space c = false → trim_left (String c word +:+ rest) = String c word +:+ rest.
Proof. intros Hc. rewrite append_cons. cbn [trim_left]. by rewrite Hc. Qed.

End more_string_facts.

(** ** The query parser, continued *)
Section more_query_facts.
Import GoStrings QueryParser Queries QueryShapes.

Lemma ParseQuery_select_prefix q :
  HasPrefix (ToUpper (TrimSpace q)) "SELECT" = true → ParseQuery q = Ok q.
Proof.
  intros Hs. unfold ParseQuery. rewrite Hs.
  destruct (ToUpper (TrimSpace q)) as [|c x]; [done|].
  cbn [HasPrefix] in *. destruct (decide (c = "S"%char)) as [->|]; [|done].
  reflexivity.
Qed.

Lemma SELECT_chars c : mem_char c "SELECT" = true → is_space c = false.
Proof.
  cbn [mem_char]. repeat (destruct (decide _) as [<-|]; [reflexivity|]). done.
Qed.

Lemma MATCH_chars c : mem_char c "MATCH" = true → is_space c = false.
Proof.
  cbn [mem_char]. repeat (destruct (decide _) as [<-|]; [reflexivity|]). done.
Qed.

(** The text after white space, when it starts with a keyword in any
    case. *)
Lemma keyword_prefix kw ws word rest :
  all_space ws = true → ToUpper word = kw → kw ≠ "" →
  (∀ c, mem_char c kw = true → is_space c = false) →
  HasPrefix (ToUpper (TrimSpace (ws +:+ word +:+ rest))) kw = true.
Proof.
  intros Hws Hw Hne Hchars. unfold TrimSpace. rewrite trim_left_all_space by done.
  destruct word as [|c word]; [by subst|].
  rewrite trim_left_keyword.
  - by apply HasPrefix_keyword.
  - rewrite <- is_space_upper_char. apply Hchars. rewrite <- Hw.
    cbn [ToUpper mem_char]. by rewrite decide_True.
Qed.

(** X1: a query that, after any run of ASCII white space (tab, line
    feed, vertical tab, form feed, carriage return, space), starts with
    the word select written in ASCII letters of any case is returned as
    it is, white space and case included, whatever bytes follow the
    word. *)
Theorem select_passes_through (ws word rest : string) :
  all_space ws = true →
  ToUpper word = "SELECT" →
  ParseQuery (ws +:+ word +:+ rest) = Ok (ws +:+ word +:+ rest).
Proof.
  intros Hws Hw. apply ParseQuery_select_prefix.
  apply keyword_prefix; [done|done|done|apply SELECT_chars].
Qed.

Lemma select_passes_through_witness :
  ParseQuery ("  " +:+ "Select" +:+ " name FROM agents; DROP TABLE agents")
  = Ok ("  " +:+ "Select" +:+ " name FROM agents; DROP TABLE agents").
Proof. apply select_passes_through; reflexivity. Defined.

(** X2: an empty query, or one made only of ASCII white space (tab,
    line feed, vertical tab, form feed, carriage return, space), is
    rejected as an unsupported query type, the message echoing the empty
    trimmed text. *)
Theorem blank_query_rejected (ws : string) :
  all_space ws = true →
  ParseQuery ws = Err "unsupported query type: ".
Proof.
  intros Hws. unfold ParseQuery. by rewrite TrimSpace_all_space.
Qed.

Lemma blank_query_rejected_witness :
  ParseQuery "" = Err "unsupported query type: "
  ∧ ParseQuery (String (ascii_of_nat 9) (String (ascii_of_nat 10) " "))
    = Err "unsupported query type: ".
Proof. split; apply blank_query_rejected; reflexivity. Defined.

(** The label markers of a query whose only colon is the one before
    the label text. *)
Lemma marker_in_labelled pre var lab rest m :
  mem_char ":" pre = false → mem_char ":" var = false →
  mem_char ":" lab = false → mem_char ":" rest = false →
  Contains (pre +:+ var +:+ ":" +:+ lab +:+ rest) (String ":" m)
  = HasPrefix (lab +:+ rest) m.
Proof.
  intros Hpre Hvar Hlab Hrest.
  replace (pre +:+ var +:+ ":" +:+ lab +:+ rest)
    with ((pre +:+ var) +:+ String ":" (lab +:+ rest))
    by apply append_assoc.
  apply Contains_marker; rewrite mem_char_append.
  - by rewrite Hpre, Hvar.
  - by rewrite Hlab, Hrest.
Qed.

Lemma parseSimpleMatchQuery_markers pre var lab rest :
  mem_char ":" pre = false → mem_char ":" var = false →
  mem_char ":" lab = false → mem_char ":" rest = false →
  parseSimpleMatchQuery (pre +:+ var +:+ ":" +:+ lab +:+ rest)
  = if HasPrefix (lab +:+ rest) "Claim" then Ok "SELECT * FROM claims"
    else if HasPrefix (lab +:+ rest) "Agent" then Ok "SELECT * FROM agents"
    else if HasPrefix (lab +:+ rest) "Run" then Ok "SELECT * FROM runs"
    else if HasPrefix (lab +:+ rest) "Artifact" then Ok "SELECT * FROM artifacts"
    else Err "unsupported entity type in simple MATCH query".
Proof.
  intros Hpre Hvar Hlab Hrest. unfold parseSimpleMatchQuery.
  change ":Claim" with (String ":" "Claim").
  change ":Agent" with (String ":" "Agent").
  change ":Run" with (String ":" "Run").
  change ":Artifact" with (String ":" "Artifact").
  by rewrite !marker_in_labelled.
Qed.

Lemma label_name_no_colon l : mem_char ":" (label_name l) = false.
Proof. by destruct l. Qed.

(** X3: a MATCH query without COUNT and WHERE, whose only colon is the
    one before the label, is translated to the unfiltered select over
    the collection of the supported label its label text starts with:
    the label is matched by prefix, so [(n:Runner)] selects from runs. *)
Theorem simple_match_by_label_prefix (var : string) (l : label)
    (suffix rest : string) :
  let q := match_labelled var (label_name l +:+ suffix) rest in
  mem_char ":" var = false →
  mem_char ":" suffix = false →
  mem_char ":" rest = false →
  Contains q "COUNT" = false →
  Contains q "WHERE" = false →
  ParseQuery q = Ok ("SELECT * FROM " +:+ collection l).
Proof.
  intros q Hvar Hsuf Hrest Hcount Hwhere.
  unfold ParseQuery, parseMatchQuery. rewrite Hcount, Hwhere.
  replace (HasPrefix (ToUpper (TrimSpace q)) "MATCH") with true
    by (symmetry; apply (MATCH_prefix (" (" +:+ var +:+ ":"
                           +:+ (label_name l +:+ suffix) +:+ ")" +:+ rest))).
  subst q. unfold match_labelled.
  rewrite (parseSimpleMatchQuery_markers "MATCH (" var
             (label_name l +:+ suffix) (")" +:+ rest)); [|done|done| |].
  - rewrite !append_assoc. by destruct l.
  - by rewrite mem_char_append, label_name_no_colon, Hsuf.
  - by rewrite mem_char_append, Hrest.
Qed.

Lemma simple_match_by_label_prefix_witness :
  ParseQuery (match_labelled "n" (label_name LRun +:+ "ner") " RETURN n")
  = Ok ("SELECT * FROM " +:+ collection LRun)
  ∧ ParseQuery (match_labelled "c" (label_name LClaim +:+ "") " RETURN c")
    = Ok ("SELECT * FROM " +:+ collection LClaim).
Proof. split; apply simple_match_by_label_prefix; reflexivity. Defined.

Lemma plain_spec s :
  plain s = true →
  mem_char ":" s = false ∧ mem_char "O" s = false ∧ mem_char "W" s = false.
Proof.
  unfold plain. intros [[H1 H2]%andb_true_iff H3]%andb_true_iff.
  by apply negb_true_iff in H1, H2, H3.
Qed.

(** X4: the keyword MATCH is recognised in any case, COUNT and WHERE
    only in upper case: a filtered count written in lower case over a
    supported label is translated to the unfiltered select over the
    label's collection, the filter and the count being dropped. *)
Theorem lower_case_keywords_ignored (var : string) (l : label)
    (cond arg : string) :
  plain var = true → plain cond = true → plain arg = true →
  ParseQuery (lower_case_count var l cond arg)
  = Ok ("SELECT * FROM " +:+ collection l).
Proof.
  intros (Hv1 & Hv2 & Hv3)%plain_spec (Hc1 & Hc2 & Hc3)%plain_spec
    (Ha1 & Ha2 & Ha3)%plain_spec.
  set (post := (") where " +:+ cond) +:+ " return count(" +:+ arg +:+ ")").
  assert (Hq : lower_case_count var l cond arg
               = "match (" +:+ var +:+ ":" +:+ label_name l +:+ post).
  { unfold lower_case_count, post. by rewrite !append_assoc. }
  assert (Hp1 : mem_char ":" post = false).
  { unfold post. by rewrite !mem_char_append, Hc1, Ha1. }
  assert (Hp2 : mem_char "O" post = false).
  { unfold post. by rewrite !mem_char_append, Hc2, Ha2. }
  assert (Hp3 : mem_char "W" post = false).
  { unfold post. by rewrite !mem_char_append, Hc3, Ha3. }
  unfold ParseQuery, parseMatchQuery.
  replace (HasPrefix (ToUpper (TrimSpace (lower_case_count var l cond arg))) "MATCH")
    with true.
  2:{ symmetry.
      apply (keyword_prefix "MATCH" "" "match"
               (" (" +:+ var +:+ ":" +:+ label_name l +:+ ") where " +:+ cond
                  +:+ " return count(" +:+ arg +:+ ")"));
        [done|done|done|apply MATCH_chars]. }
  rewrite (Contains_absent_char "O" _ "COUNT"); [|done|].
  2:{ rewrite Hq, !mem_char_append, Hv2, Hp2. by destruct l. }
  rewrite (Contains_absent_char "W" _ "WHERE"); [|done|].
  2:{ rewrite Hq, !mem_char_append, Hv3, Hp3. by destruct l. }
  rewrite Hq, parseSimpleMatchQuery_markers;
    [|done|done|apply label_name_no_colon|done].
  by destruct l.
Qed.

Lemma lower_case_keywords_ignored_witness :
  ParseQuery (lower_case_count "n" LAgent "n.name = 'planner'" "n")
  = Ok ("SELECT * FROM " +:+ collection LAgent).
Proof. apply lower_case_keywords_ignored; reflexivity. Defined.

Lemma replace_char_absent c new s :
  mem_char c new = false →
  mem_char c (replace_from 0 s (String c "") new) = false.
Proof.
  intros Hnew. induction s as [|y s IH]; [done|].
  cbn [replace_from HasPrefix String.length Nat.sub].
  destruct (decide (y = c)) as [->|Hne].
  - by rewrite mem_char_append, Hnew, IH.
  - cbn [mem_char]. by rewrite decide_False by done.
Qed.

(** X5: what [parseWhereQuery] returns holds no double quote: every
    double quote of the condition, inside a literal or not, has become a
    single quote, and the text starts with the select over agents. *)
Theorem where_translation_has_no_double_quote (query sql : string) :
  parseWhereQuery query = Ok sql →
  mem_char (ascii_of_nat 34) sql = false
  ∧ HasPrefix sql "SELECT * FROM agents WHERE " = true.
Proof.
  unfold parseWhereQuery. destruct (Contains query ":Agent"); [|done].
  case_bool_decide; [done|]. intros [= <-]. cbv zeta. split.
  - rewrite mem_char_append. unfold dquote.
    by rewrite replace_char_absent.
  - reflexivity.
Qed.

Lemma where_translation_has_no_double_quote_witness :
  mem_char (ascii_of_nat 34) "SELECT * FROM agents WHERE name = 'planner' RETURN n"
  = false
  ∧ HasPrefix "SELECT * FROM agents WHERE name = 'planner' RETURN n"
      "SELECT * FROM agents WHERE " = true.
Proof.
  apply (where_translation_has_no_double_quote planner_query). reflexivity.
Defined.

(** X6: translating is idempotent: the text [ParseQuery] returns for a
    query is returned unchanged when it is parsed again. *)
Theorem ParseQuery_idempotent (query sql : string) :
  ParseQuery query = Ok sql → ParseQuery sql = Ok sql.
Proof.
  intros H. pose proof H as H0. unfold ParseQuery in H.
  destruct (HasPrefix (ToUpper (TrimSpace query)) "MATCH").
  - unfold parseMatchQuery, parseCountQuery, parseSimpleMatchQuery in H.
    destruct (Contains query "COUNT").
    { repeat (destruct (Contains query _); [by injection H as <-|]). done. }
    destruct (Contains query "WHERE").
    2:{ repeat (destruct (Contains query _); [by injection H as <-|]). done. }
    unfold parseWhereQuery in H. destruct (Contains query ":Agent"); [|done].
    case_bool_decide; [done|]. injection H as <-.
    apply ParseQuery_select_prefix.
    match goal with
    | |- context [("SELECT * FROM agents WHERE " +:+ ?x)%string] =>
        apply (keyword_prefix "SELECT" "" "SELECT" (" * FROM agents WHERE " +:+ x));
          [done|done|done|apply SELECT_chars]
    end.
  - destruct (HasPrefix (ToUpper (TrimSpace query)) "SELECT"); [|done].
    by injection H as <-.
Qed.

Lemma ParseQuery_idempotent_witness :
  ParseQuery "SELECT * FROM agents WHERE name = 'planner' RETURN n"
  = Ok "SELECT * FROM agents WHERE name = 'planner' RETURN n".
Proof. apply (ParseQuery_idempotent planner_query). reflexivity. Defined.

(** X7: a MATCH query that holds none of the four label markers is an
    error on each of the three paths, never a statement: a label that
    does not start with Claim, Agent, Run or Artifact is not mapped. *)
Theorem unmapped_label_is_error (query : string) :
  HasPrefix (ToUpper (TrimSpace query)) "MATCH" = true →
  Contains query ":Claim" = false →
  Contains query ":Agent" = false →
  Contains query ":Run" = false →
  Contains query ":Artifact" = false →
  ∃ msg, ParseQuery query = Err msg ∧ unsupported_entity msg.
Proof.
  intros Hm H1 H2 H3 H4.
  unfold ParseQuery, parseMatchQuery, parseCountQuery, parseWhereQuery,
    parseSimpleMatchQuery, unsupported_entity.
  rewrite Hm, H1, H2, H3, H4.
  destruct (Contains query "COUNT"); [eauto|].
  destruct (Contains query "WHERE"); eauto.
Qed.

Lemma unmapped_label_is_error_witness :
  ∃ msg, ParseQuery "MATCH (s:Span) WHERE s.status = 'running' RETURN s" = Err msg
         ∧ unsupported_entity msg.
Proof. apply unmapped_label_is_error; reflexivity. Defined.

End more_query_facts.

(** ** The executor: what a run records and what it writes *)
Section store_facts.
Import orchestrator Notions RunNotions.
Context (E : Env) (o : Orchestrator) (runID : string)
  (variables : gmap string value).

Lemma own_artifacts_refl w w' :
  kg.artifacts (db w') = kg.artifacts (db w) → own_artifacts runID w w'.
Proof. intros H. exists []. by rewrite app_nil_r. Qed.

Lemma own_artifacts_trans w w' w'' :
  own_artifacts runID w w' → own_artifacts runID w' w'' →
  own_artifacts runID w w''.
Proof.
  intros (r1 & H1 & F1) (r2 & H2 & F2). exists (r1 ++ r2).
  split; [by rewrite H2, H1, <- app_assoc|]. by apply Forall_app.
Qed.

(** One step, seen from the store and from its result. *)
Lemma executeStep_more step results w sr err w' :
  executeStep E o runID step variables results w = ((sr, err), w') →
  own_artifacts runID w w'
  ∧ trace w' = trace w
  ∧ kg.agents (db w') = kg.agents (db w)
  ∧ kg.runs (db w') = kg.runs (db w)
  ∧ StepResult.Name sr = WorkflowStep.Name step
  ∧ StepResult.Input sr = ""
  ∧ (StepResult.Status sr = "completed" ∨ StepResult.Status sr = "failed").
Proof.
  intros H. apply executeStep_spec in H as ((Ht & Ha & Hr) & Hn & _ & Hout).
  assert (Hin : ∀ n a s i out e m,
            step_content sr = (n, a, s, i, out, e, m) →
            StepResult.Input sr = i ∧ StepResult.Status sr = s).
  { unfold step_content. intros * Heq. by simplify_eq. }
  destruct Hout as [e _ Hc _ _ _ Hart _|agent _ _ _ Hc _ _ _ Hart _
                   |agent prov e input _ _ _ _ _ Hc _ _ Hart _
                   |agent prov resp input _ _ _ _ _ Hc _ _ Hart];
    apply Hin in Hc as [Hi Hs]; split_and!; try done; eauto;
    try (by apply own_artifacts_refl).
  destruct Hart as [(e & Hart & _)|(row & Hart & Hrun & _)].
  - by apply own_artifacts_refl.
  - exists [row]. split; [done|]. by repeat constructor.
Qed.

Lemma results_inv_record st step sr :
  results_inv runID st →
  StepResult.Name sr = WorkflowStep.Name step →
  StepResult.Input sr = "" →
  StepResult.Status sr = "completed" ∨ StepResult.Status sr = "failed" →
  results_inv runID (record_step st (WorkflowStep.Name step) sr).
Proof.
  intros [Hs Ho Hr Hd He] Hn Hi Hst. split; cbn.
  - by rewrite Hs.
  - done.
  - done.
  - intros n. unfold executed. destruct (decide (n = WorkflowStep.Name step)) as [->|Hne].
    + rewrite !lookup_insert_eq. cbn. split; [done|by eauto].
    + rewrite !lookup_insert_ne by done. apply Hd.
  - intros n sr'. destruct (decide (n = WorkflowStep.Name step)) as [->|Hne].
    + rewrite lookup_insert_eq. intros [= <-]. done.
    + rewrite lookup_insert_ne by done. apply He.
Qed.

Lemma results_inv_reset st :
  results_inv runID st → results_inv runID (reset_progress st).
Proof. intros [? ? ? ? ?]. by split. Qed.

(** The ignored [UpdateRunStatus] that ends a run. *)
Lemma UpdateRunStatus_updated status output err w r w' :
  UpdateRunStatus E runID status output err w = (r, w') →
  trace w' = trace w
  ∧ calls w' = calls w
  ∧ kg.agents (db w') = kg.agents (db w)
  ∧ kg.artifacts (db w') = kg.artifacts (db w)
  ∧ runs_updated E runID status output err (kg.runs (db w)) (kg.runs (db w')).
Proof.
  intros H. apply UpdateRunStatus_spec in H as (Ht & Hc & _ & Ha & Hart & Hr).
  split_and!; try done. unfold runs_updated.
  destruct (db_fault E (ops w)) eqn:Hf; [left|right]; eauto.
Qed.

(** One pass, seen from the store and from the result. *)
Lemma scan_more todo :
  ∀ st w r w',
  results_inv runID st →
  scan E o runID variables todo st w = (r, w') →
  own_artifacts runID w w'
  ∧ kg.agents (db w') = kg.agents (db w)
  ∧ match r with
    | inl st' => results_inv runID st' ∧ kg.runs (db w') = kg.runs (db w)
    | inr (res, e) =>
        ∃ st' s t,
          results_inv runID st'
          ∧ res = finish (result st') "failed" (Error e) t
          ∧ executed (executedSteps st') (WorkflowStep.Name s) = false
          ∧ last (trace w') = Some (s, false)
          ∧ runs_updated E runID "failed" "" (Error e)
              (kg.runs (db w)) (kg.runs (db w'))
    end.
Proof.
  induction todo as [|step rest IH]; intros st w r w' Hinv H.
  { cbn [scan] in H. run_monad. simplify_eq.
    split_and!; try done. by apply own_artifacts_refl. }
  cbn [scan] in H.
  destruct (executed (executedSteps st) (WorkflowStep.Name step)) eqn:Hex;
    [by eapply IH|].
  destruct (areDependenciesSatisfied (WorkflowStep.DependsOn step)
              (executedSteps st)); cbn [negb] in H; [|by eapply IH].
  unfold mbind at 1, M_bind at 1 in H.
  destruct (executeStep E o runID step variables (stepResults st) w)
    as [[sr err] w1] eqn:Hrun.
  apply executeStep_more in Hrun
    as (Hart1 & Htr1 & Hag1 & Hruns1 & Hname & Hinput & Hstatus).
  destruct err as [e|].
  - run_monad. rewrite bool_decide_eq_false_2 in H by done.
    match type of H with
    | context [UpdateRunStatus E ?a ?b ?c ?d ?w0] =>
        destruct (UpdateRunStatus E a b c d w0) as [u w2] eqn:Hupd
    end.
    apply UpdateRunStatus_updated in Hupd as (Ht2 & _ & Ha2 & Hart2 & Hr2).
    cbn [trace db] in Ht2, Ha2, Hart2, Hr2. simplify_eq.
    split_and!.
    + eapply own_artifacts_trans; [done|]. by apply own_artifacts_refl.
    + congruence.
    + exists st, step, (now E (ticks w1)). split_and!; try done.
      * by rewrite Ht2, last_snoc.
      * by rewrite <- Hruns1.
  - unfold mbind at 1, M_bind at 1, note_step at 1 in H.
    eapply IH in H as (Hart & Hag & Hr).
    2:{ by apply results_inv_record. }
    cbn [db] in Hart, Hag. split_and!.
    + eapply own_artifacts_trans; [done|].
      destruct Hart as (rows & ? & ?). by exists rows.
    + congruence.
    + destruct r as [st'|[res e]].
      * destruct Hr as [? Hr]. cbn [db] in Hr. split; [done|congruence].
      * destruct Hr as (st' & s & t & ? & ? & ? & ? & Hr).
        cbn [db] in Hr. exists st', s, t. split_and!; try done.
        by rewrite <- Hruns1.
Qed.

(** The loop and what follows it. *)
Lemma loop_more workflow :
  ∀ fuel st w out w',
  results_inv runID st →
  loop E fuel o runID workflow variables st w = (out, w') →
  own_artifacts runID w w'
  ∧ kg.agents (db w') = kg.agents (db w)
  ∧ match out with
    | Returned (Some res) None =>
        ended_on runID res "completed" ""
        ∧ runs_updated E runID "completed" "map[]" ""
            (kg.runs (db w)) (kg.runs (db w'))
    | Returned (Some res) (Some e) =>
        ∃ st' s t,
          results_inv runID st'
          ∧ res = finish (result st') "failed" (Error e) t
          ∧ executed (executedSteps st') (WorkflowStep.Name s) = false
          ∧ last (trace w') = Some (s, false)
          ∧ runs_updated E runID "failed" "" (Error e)
              (kg.runs (db w)) (kg.runs (db w'))
    | Returned None _ => kg.runs (db w') = kg.runs (db w)
    | OutOfFuel => True
    end.
Proof.
  assert (Hafter : ∀ st w out w',
            results_inv runID st →
            after_loop E runID st w = (out, w') →
            own_artifacts runID w w'
            ∧ kg.agents (db w') = kg.agents (db w)
            ∧ ∃ res, out = Returned (Some res) None
                     ∧ ended_on runID res "completed" ""
                     ∧ runs_updated E runID "completed" "map[]" ""
                         (kg.runs (db w)) (kg.runs (db w'))).
  { intros st w out w' Hinv H. unfold after_loop in H.
    unfold mbind at 1, M_bind at 1, Now at 1 in H.
    unfold mbind at 1, M_bind at 1 in H.
    match type of H with
    | context [UpdateRunStatus E ?a ?b ?c ?d ?w0] =>
        destruct (UpdateRunStatus E a b c d w0) as [u w2] eqn:Hupd
    end.
    cbn [finish ExecutionResult.Output] in Hupd.
    rewrite (ri_output _ _ Hinv) in Hupd.
    apply UpdateRunStatus_updated in Hupd as (_ & _ & Ha2 & Hart2 & Hr2).
    cbn [db] in Ha2, Hart2, Hr2. unfold mret, M_ret in H. simplify_eq.
    split_and!; [by apply own_artifacts_refl|done|].
    eexists. split; [done|]. split; [by eexists st, _|done]. }
  induction fuel as [|fuel IH]; intros st w out w' Hinv H;
    (destruct (decide (size (executedSteps st)
                       < length (Workflow.Steps workflow))%nat) as [Hlt|Hge];
     [|rewrite loop_exit in H by done;
       apply Hafter in H as (? & ? & res & -> & ? & ?); done]).
  { cbn [loop] in H. rewrite bool_decide_eq_true_2 in H by done.
    unfold mret, M_ret in H. simplify_eq.
    split_and!; [by apply own_artifacts_refl|done|done]. }
  cbn [loop] in H. rewrite bool_decide_eq_true_2 in H by done.
  unfold mbind at 1, M_bind at 1 in H.
  destruct (scan E o runID variables (Workflow.Steps workflow)
              (reset_progress st) w) as [pass w1] eqn:Hscan.
  apply scan_more in Hscan as (Hart1 & Hag1 & Hr); [|by apply results_inv_reset].
  destruct pass as [st'|[res e]].
  - destruct Hr as [Hinv' Hruns1].
    destruct (progress st'); cbn [negb] in H.
    + apply IH in H as (Hart & Hag & Hout); [|done].
      split_and!; [by eapply own_artifacts_trans|congruence|].
      rewrite <- Hruns1. exact Hout.
    + unfold mret, M_ret in H. by simplify_eq.
  - unfold mret, M_ret in H. by simplify_eq.
Qed.

End store_facts.

Section run_store_facts.
Import orchestrator Notions RunNotions.
Context (E : Env) (o : Orchestrator).

Lemma results_inv_init runID startTime :
  results_inv runID
    (mkLoop ∅ ∅ (ExecutionResult.mk runID "running" startTime None None ∅ ∅ "")
       false).
Proof.
  split; [done|done|done| |].
  - intros n. unfold executed. cbn. rewrite !lookup_empty. cbn.
    split; [by intros [? ?]|done].
  - intros n sr. cbn. by rewrite lookup_empty.
Qed.

(** A whole run, seen from the store and from the result: the run
    record cannot be created and nothing is done, or the record is
    created and the run ends in one of the ways of the loop. *)
Lemma ExecuteWorkflow_more workflow variables w out w' :
  ExecuteWorkflow E o workflow variables w = (out, w') →
  let runID := "RUN_" +:+ pretty (Unix (now E (ticks w))) in
  kg.agents (db w') = kg.agents (db w)
  ∧ own_artifacts runID w w'
  ∧ ((∃ e, out = Returned None (Some (ErrCreateRun e))
           ∧ db w' = db w ∧ trace w' = trace w ∧ calls w' = calls w
           ∧ stdout w' = stdout w
           ∧ ((db_fault E (ops w) = None ∧ e = ErrConstraint "runs.id"
               ∧ runID ∈ kg.RunRow.id <$> kg.runs (db w))
              ∨ (∃ msg, db_fault E (ops w) = Some msg ∧ e = ErrDatabase msg)))
     ∨ (db_fault E (ops w) = None
        ∧ (runID ∉ kg.RunRow.id <$> kg.runs (db w))
        ∧ ∃ row,
            created_row workflow variables runID row
            ∧ match out with
              | Returned (Some res) None =>
                  ended_on runID res "completed" ""
                  ∧ runs_updated E runID "completed" "map[]" ""
                      (kg.runs (db w) ++ [row]) (kg.runs (db w'))
              | Returned (Some res) (Some e) =>
                  ∃ st' s t,
                    results_inv runID st'
                    ∧ res = finish (result st') "failed" (Error e) t
                    ∧ executed (executedSteps st') (WorkflowStep.Name s) = false
                    ∧ last (trace w') = Some (s, false)
                    ∧ runs_updated E runID "failed" "" (Error e)
                        (kg.runs (db w) ++ [row]) (kg.runs (db w'))
              | Returned None _ => kg.runs (db w') = kg.runs (db w) ++ [row]
              | OutOfFuel => True
              end)).
Proof.
  intros H runID. unfold ExecuteWorkflow in H.
  unfold mbind at 1, M_bind at 1, Now at 1 in H.
  unfold mbind at 1, M_bind at 1, Now at 1 in H.
  unfold mbind at 1, M_bind at 1 in H. cbn [ticks] in H.
  unfold CreateRun, kg.insert_run in H. run_monad.
  cbn [kg.Run.ID kg.Run.WorkflowName kg.Run.Status kg.Run.InputData
       kg.Run.Metadata] in H.
  destruct (db_fault E (ops w)) as [msg|] eqn:Hfault.
  { simplify_eq. split_and!; [done|by apply own_artifacts_refl|].
    left. eexists. split_and!; try done. eauto. }
  fold runID in H. case_bool_decide as Hid.
  { simplify_eq. split_and!; [done|by apply own_artifacts_refl|].
    left. eexists. split_and!; try done. eauto. }
  apply loop_more in H as (Hart & Hag & Hout); [|apply results_inv_init].
  cbn [db kg.agents kg.artifacts kg.runs] in Hart, Hag, Hout.
  split_and!; [done| |].
  { destruct Hart as (rows & ? & ?). by exists rows. }
  right. split_and!; [done|done|]. eexists. split; [by eexists|].
  exact Hout.
Qed.

End run_store_facts.

(** ** The executor: further properties of a run *)
Section run_extras.
Import GoStrings orchestrator Notions RunNotions Scenarios MoreScenarios.

Lemma runs_updated_own E runID status output err base row rs' :
  runID ∉ kg.RunRow.id <$> base →
  kg.RunRow.id row = runID →
  runs_updated E runID status output err (base ++ [row]) rs' →
  ∃ row', rs' = base ++ [row']
          ∧ kg.RunRow.id row' = runID
          ∧ kg.RunRow.workflow_name row' = kg.RunRow.workflow_name row
          ∧ kg.RunRow.input_data row' = kg.RunRow.input_data row
          ∧ kg.RunRow.metadata row' = kg.RunRow.metadata row
          ∧ ((∀ n, db_fault E n = None) →
             kg.RunRow.status row' = status
             ∧ kg.RunRow.output_data row' = Some output
             ∧ kg.RunRow.error_message row' = Some err).
Proof.
  intros Hbase Hid [[-> (n & msg & Hf)]|[t ->]].
  - exists row. split_and!; try done. intros Hnf. by rewrite Hnf in Hf.
  - rewrite fmap_app, update_row_other by done. cbn [fmap list_fmap].
    eexists. split; [done|]. unfold kg.update_row.
    by rewrite bool_decide_eq_true_2 by done.
Qed.

(** X8: a run changes nothing in the store but rows of its own: the
    agents are as before, the rows of earlier runs and the earlier
    artifacts are untouched and in place, at most one run row is added,
    under the id of the run and with the workflow name and the rendered
    variables, and every artifact row added carries the id of the run. *)
Theorem run_touches_only_its_rows (E : Env) (o : Orchestrator)
    (workflow : Workflow.t) (variables : gmap string value) (w : World) :
  let w' := (ExecuteWorkflow E o workflow variables w).2 in
  let runID := "RUN_" +:+ pretty (Unix (now E (ticks w))) in
  kg.agents (db w') = kg.agents (db w)
  ∧ (∃ rows, kg.artifacts (db w') = kg.artifacts (db w) ++ rows
             ∧ Forall (λ row, kg.ArtifactRow.run_id row = runID) rows)
  ∧ (kg.runs (db w') = kg.runs (db w)
     ∨ ∃ row, kg.runs (db w') = kg.runs (db w) ++ [row]
              ∧ kg.RunRow.id row = runID
              ∧ kg.RunRow.workflow_name row = Workflow.Name workflow
              ∧ kg.RunRow.input_data row = fmt_map variables).
Proof.
  intros w' runID. subst w'.
  pose proof (ExecuteWorkflow_returns E o workflow variables w) as Hret.
  destruct (ExecuteWorkflow E o workflow variables w) as [out w'] eqn:H.
  cbn [fst snd] in *.
  apply ExecuteWorkflow_more in H as (Hag & Hart & Hout). fold runID in Hart, Hout.
  split_and!; [done|done|].
  destruct Hout as [(e & _ & -> & _)|(_ & Hfresh & row & (t & Hrow) & Hout)];
    [by left|right].
  assert (Hid : kg.RunRow.id row = runID) by by subst row.
  assert (Hown : ∀ status output err,
            runs_updated E runID status output err (kg.runs (db w) ++ [row])
              (kg.runs (db w')) →
            ∃ row', kg.runs (db w') = kg.runs (db w) ++ [row']
                    ∧ kg.RunRow.id row' = runID
                    ∧ kg.RunRow.workflow_name row' = Workflow.Name workflow
                    ∧ kg.RunRow.input_data row' = fmt_map variables).
  { intros status output err Hup.
    eapply runs_updated_own in Hup as (row' & ? & ? & Hwn & Hin & _); [|done..].
    exists row'. rewrite Hwn, Hin. by subst row. }
  destruct out as [[res|] [e|]|]; try done.
  - destruct Hout as (st' & s & t' & _ & _ & _ & _ & Hup). by eapply Hown.
  - destruct Hout as [_ Hup]. by eapply Hown.
  - exists row. by subst row.
  - exists row. by subst row.
Qed.

(** X9: a run started in the same second as an earlier run that
    created its record cannot create its own: the two ids are equal, so
    the second call returns the create-run error with a nil result,
    executes no step, calls no provider and leaves the store as it
    was. *)
Theorem same_second_runs_collide (E : Env) (o : Orchestrator)
    (workflow1 workflow2 : Workflow.t) (variables1 variables2 : gmap string value)
    (w : World) (out1 : outcome) (w1 : World) :
  ExecuteWorkflow E o workflow1 variables1 w = (out1, w1) →
  (∀ e, out1 ≠ Returned None (Some (ErrCreateRun e))) →
  Unix (now E (ticks w1)) = Unix (now E (ticks w)) →
  ∃ e w2,
    ExecuteWorkflow E o workflow2 variables2 w1
    = (Returned None (Some (ErrCreateRun e)), w2)
    ∧ db w2 = db w1 ∧ trace w2 = trace w1 ∧ calls w2 = calls w1
    ∧ (db_fault E (ops w1) = None → e = ErrConstraint "runs.id").
Proof.
  intros H1 Hcreated Hsec.
  pose proof (ExecuteWorkflow_returns E o workflow1 variables1 w) as Hret.
  rewrite H1 in Hret. cbn [fst] in Hret.
  apply ExecuteWorkflow_more in H1 as (_ & _ & Hout1).
  destruct Hout1 as [(e & -> & _)|(_ & Hfresh & row & (t & Hrow) & Hout1)];
    [by destruct (Hcreated e)|].
  assert (Hid : kg.RunRow.id row = "RUN_" +:+ pretty (Unix (now E (ticks w))))
    by by subst row.
  assert (Hin : "RUN_" +:+ pretty (Unix (now E (ticks w1)))
                ∈ kg.RunRow.id <$> kg.runs (db w1)).
  { rewrite Hsec.
    assert (∃ row', kg.runs (db w1) = kg.runs (db w) ++ [row']
                    ∧ kg.RunRow.id row' = "RUN_" +:+ pretty (Unix (now E (ticks w))))
      as (row' & -> & <-).
    { destruct out1 as [[res|] [e|]|]; try done.
      - destruct Hout1 as (st' & s & t' & _ & _ & _ & _ & Hup).
        eapply runs_updated_own in Hup as (row' & ? & ? & _); [|done..]. eauto.
      - destruct Hout1 as [_ Hup].
        eapply runs_updated_own in Hup as (row' & ? & ? & _); [|done..]. eauto.
      - eauto.
      - eauto. }
    rewrite fmap_app. apply elem_of_app. right. by left. }
  destruct (ExecuteWorkflow E o workflow2 variables2 w1) as [out2 w2] eqn:H2.
  apply ExecuteWorkflow_more in H2 as (_ & _ & Hout2).
  destruct Hout2 as [(e & -> & Hdb & Htr & Hc & _ & He)|(_ & Hfresh2 & _)];
    [|done].
  exists e, w2. split_and!; try done. intros Hnf.
  destruct He as [(_ & -> & _)|(msg & Hf & _)]; [done|congruence].
Qed.

Lemma same_second_runs_collide_witness :
  ∃ e w2,
    ExecuteWorkflow E_quick o_echo chain chain_vars quick_run.2
    = (Returned None (Some (ErrCreateRun e)), w2)
    ∧ db w2 = db quick_run.2 ∧ trace w2 = trace quick_run.2
    ∧ calls w2 = calls quick_run.2
    ∧ (db_fault E_quick (ops quick_run.2) = None → e = ErrConstraint "runs.id").
Proof.
  apply (same_second_runs_collide E_quick o_echo chain chain chain_vars
           chain_vars (world chain_agents) quick_run.1 quick_run.2).
  - apply surjective_pairing.
  - by vm_compute.
  - by vm_compute.
Defined.

(** X10: when a step returns an error, the result that comes back
    holds no entry for that step: the step result built for it, with
    its own error text, is dropped, and only the error of the run tells
    what happened. *)
Theorem failed_step_not_in_result (E : Env) (o : Orchestrator)
    (workflow : Workflow.t) (variables : gmap string value) (w : World)
    (res : ExecutionResult.t) (e : error) (w' : World) :
  ExecuteWorkflow E o workflow variables w = (Returned (Some res) (Some e), w') →
  ∃ s, last (run_trace w w') = Some (s, false)
       ∧ s ∈ Workflow.Steps workflow
       ∧ ExecutionResult.Steps res !! WorkflowStep.Name s = None
       ∧ ExecutionResult.Status res = "failed"
       ∧ ExecutionResult.Error res = Error e.
Proof.
  intros H. pose proof H as H0.
  apply ExecuteWorkflow_spec in H0
    as (_ & _ & [(e' & ? & _)|(passes & row & Ht & _ & Hok & _ & Hout)]);
    [done|].
  apply ExecuteWorkflow_more in H as (_ & _ & [(e' & ? & _)|(_ & _ & row' & _ & Hmore)]);
    [done|].
  destruct Hmore as (st' & s & t & Hinv & Hres & Hex & Hlast & _).
  inversion Hout as [| |res' e' pre s' Htr _ _ _ _ _ _]; subst.
  rewrite Ht, Htr, app_assoc, last_snoc in Hlast. simplify_eq.
  exists s. rewrite (run_trace_app _ _ _ Ht), Htr, last_snoc.
  split_and!; try done.
  - apply (tr_steps _ _ _ Hok (s, false)). rewrite Htr.
    apply elem_of_app. right. by left.
  - cbn [finish ExecutionResult.Steps]. rewrite (ri_steps _ _ Hinv).
    destruct (stepResults st' !! WorkflowStep.Name s) eqn:Hl; [|done].
    assert (is_Some (stepResults st' !! WorkflowStep.Name s)) as Hs by eauto.
    apply (ri_dom _ _ Hinv) in Hs. congruence.
Qed.

Lemma failed_step_not_in_result_witness :
  ∃ s, last (run_trace (world chain_agents) failing_run.2) = Some (s, false)
       ∧ s ∈ Workflow.Steps chain
       ∧ ExecutionResult.Steps (result_of failing_run.1) !! WorkflowStep.Name s
         = None
       ∧ ExecutionResult.Status (result_of failing_run.1) = "failed"
       ∧ ExecutionResult.Error (result_of failing_run.1)
         = Error (error_of failing_run.1).
Proof.
  apply (failed_step_not_in_result E0 o_failing chain chain_vars
           (world chain_agents)).
  by vm_compute.
Defined.

(** X11: the rendered input of a step is never recorded: in every
    result [ExecuteWorkflow] returns, completed or failed, each step
    result has an empty Input, bears the name it is stored under, and
    has status completed or failed. *)
Theorem step_results_never_hold_input (E : Env) (o : Orchestrator)
    (workflow : Workflow.t) (variables : gmap string value) (w : World) :
  ∀ res err n sr,
    (ExecuteWorkflow E o workflow variables w).1 = Returned (Some res) err →
    ExecutionResult.Steps res !! n = Some sr →
    StepResult.Input sr = ""
    ∧ StepResult.Name sr = n
    ∧ (StepResult.Status sr = "completed" ∨ StepResult.Status sr = "failed").
Proof.
  intros res err n sr Hout Hn.
  destruct (ExecuteWorkflow E o workflow variables w) as [out w'] eqn:H.
  cbn [fst] in Hout. subst out.
  apply ExecuteWorkflow_more in H as (_ & _ & [(e' & ? & _)|(_ & _ & row' & _ & Hmore)]);
    [done|].
  assert (∃ st status msg t, results_inv ("RUN_" +:+ pretty (Unix (now E (ticks w)))) st
                             ∧ res = finish (result st) status msg t)
    as (st & status & msg & t & Hinv & ->).
  { destruct err as [e|].
    - destruct Hmore as (st' & s & t & ? & ? & _). eauto 10.
    - destruct Hmore as [(st' & t & ? & ?) _]. eauto 10. }
  cbn [finish ExecutionResult.Steps] in Hn. rewrite (ri_steps _ _ Hinv) in Hn.
  destruct (ri_each _ _ Hinv n sr Hn) as (? & ? & ?). done.
Qed.

Lemma step_results_never_hold_input_witness :
  StepResult.Input plan_result = ""
  ∧ StepResult.Name plan_result = "plan"
  ∧ (StepResult.Status plan_result = "completed"
     ∨ StepResult.Status plan_result = "failed").
Proof.
  apply (step_results_never_hold_input E0 o_echo chain chain_vars
           (world chain_agents) (result_of chain_run.1) None);
    by vm_compute.
Defined.

(** X12: the output of a run is never filled: every result that comes
    back has an empty Output map, and a run that completes while the
    database works leaves, after the rows that were there, one row
    under its id with status completed, the text of the empty map as
    output data, an empty error message and the rendered variables as
    input data. *)
Theorem completed_run_stores_empty_output (E : Env) (o : Orchestrator)
    (workflow : Workflow.t) (variables : gmap string value) (w : World)
    (res : ExecutionResult.t) (err : option error) (w' : World) :
  ExecuteWorkflow E o workflow variables w = (Returned (Some res) err, w') →
  ExecutionResult.Output res = ∅
  ∧ ExecutionResult.RunID res = "RUN_" +:+ pretty (Unix (now E (ticks w)))
  ∧ (err = None → (∀ n, db_fault E n = None) →
     ∃ row, kg.runs (db w') = kg.runs (db w) ++ [row]
            ∧ kg.RunRow.id row = ExecutionResult.RunID res
            ∧ kg.RunRow.status row = "completed"
            ∧ kg.RunRow.output_data row = Some "map[]"
            ∧ kg.RunRow.error_message row = Some ""
            ∧ kg.RunRow.input_data row = fmt_map variables).
Proof.
  intros H.
  apply ExecuteWorkflow_more in H
    as (_ & _ & [(e' & ? & _)|(_ & Hfresh & row & (t0 & Hrow) & Hmore)]);
    [done|].
  assert (∃ st status msg t, results_inv ("RUN_" +:+ pretty (Unix (now E (ticks w)))) st
                             ∧ res = finish (result st) status msg t)
    as (st & status & msg & t & Hinv & ->).
  { destruct err as [e|].
    - destruct Hmore as (st' & s & t & ? & ? & _). eauto 10.
    - destruct Hmore as [(st' & t & ? & ?) _]. eauto 10. }
  cbn [finish ExecutionResult.Output ExecutionResult.RunID].
  split; [apply Hinv|]. split; [apply Hinv|]. intros -> Hnf.
  destruct Hmore as [_ Hup].
  eapply runs_updated_own in Hup as (row' & -> & Hid & _ & Hin & _ & Hset);
    [|done|by subst row].
  destruct (Hset Hnf) as (? & ? & ?). exists row'.
  split_and!; try done.
  - by rewrite (ri_run _ _ Hinv).
  - rewrite Hin. by subst row.
Qed.

Lemma completed_run_stores_empty_output_witness :
  ExecutionResult.Output (result_of chain_run.1) = ∅
  ∧ ExecutionResult.RunID (result_of chain_run.1) = "RUN_1700000000"
  ∧ kg.RunRow.output_data <$> kg.runs (db chain_run.2) = [Some "map[]"].
Proof.
  destruct (completed_run_stores_empty_output E0 o_echo chain chain_vars
              (world chain_agents) (result_of chain_run.1) None chain_run.2)
    as (Hout & Hid & Hrow); [by vm_compute|].
  split; [exact Hout|]. split; [by vm_compute|].
  destruct (Hrow eq_refl (λ _, eq_refl)) as (row & Hruns & _ & _ & Hdata & _).
  rewrite Hruns. cbn [world db kg.runs app fmap list_fmap]. by rewrite Hdata.
Defined.

(** X13: a workflow in which two steps bear the same name never
    completes: whatever the providers answer, the run ends with the
    create-run error, with the error of a step, or, when every executed
    step came back without error, with the stall error. *)
Theorem duplicate_step_names_never_complete (E : Env) (o : Orchestrator)
    (workflow : Workflow.t) (variables : gmap string value) (w : World) :
  ¬ NoDup (step_names (Workflow.Steps workflow)) →
  let out := (ExecuteWorkflow E o workflow variables w).1 in
  (∃ e, out = Returned None (Some (ErrCreateRun e)))
  ∨ (∃ res e, out = Returned (Some res) (Some e))
  ∨ out = Returned None (Some ErrStalled).
Proof.
  intros Hdup out. subst out.
  destruct (ExecuteWorkflow E o workflow variables w) as [out w'] eqn:H.
  cbn [fst].
  apply ExecuteWorkflow_spec in H
    as (_ & _ & [(e & -> & _)|(passes & row & _ & _ & Hok & _ & Hout)]);
    [by eauto|].
  destruct Hout as [| res _ Hlen _ _ _ _ _ _ |res e pre s _ _ _ _ _ _ _];
    [by auto| |by eauto 6].
  destruct Hdup. pose proof (trace_ok_full _ _ _ Hok Hlen) as Hperm.
  unfold step_names. rewrite <- Hperm, <- list_fmap_compose.
  apply (tr_nodup _ _ _ Hok).
Qed.

Lemma duplicate_step_names_never_complete_witness :
  (∃ e, twice_run.1 = Returned None (Some (ErrCreateRun e)))
  ∨ (∃ res e, twice_run.1 = Returned (Some res) (Some e))
  ∨ twice_run.1 = Returned None (Some ErrStalled).
Proof.
  apply (duplicate_step_names_never_complete E0 o_echo twice ∅
           (world chain_agents)).
  intros Hnd. apply NoDup_cons in Hnd as [Hnot _]. apply Hnot. by left.
Defined.

(** X14: a workflow without steps completes at once: when the run
    record can be created, the result is completed with no step, no
    provider is called, nothing is printed, no artifact is written,
    and, the database working on, the run row is marked completed. *)
Theorem empty_workflow_completes (E : Env) (o : Orchestrator)
    (workflow : Workflow.t) (variables : gmap string value) (w : World) :
  Workflow.Steps workflow = [] →
  db_fault E (ops w) = None →
  "RUN_" +:+ pretty (Unix (now E (ticks w))) ∉ kg.RunRow.id <$> kg.runs (db w) →
  ∃ res w',
    ExecuteWorkflow E o workflow variables w = (Returned (Some res) None, w')
    ∧ ExecutionResult.Status res = "completed"
    ∧ ExecutionResult.Steps res = ∅
    ∧ calls w' = calls w ∧ trace w' = trace w ∧ stdout w' = stdout w
    ∧ kg.artifacts (db w') = kg.artifacts (db w)
    ∧ (db_fault E (S (ops w)) = None →
       kg.RunRow.status <$> last (kg.runs (db w')) = Some "completed").
Proof.
  intros Hsteps Hfault Hfresh.
  unfold ExecuteWorkflow, CreateRun, UpdateRunStatus, kg.insert_run.
  rewrite Hsteps. run_monad.
  cbn [kg.Run.ID kg.Run.WorkflowName kg.Run.Status kg.Run.InputData
       kg.Run.Metadata].
  rewrite Hfault, bool_decide_eq_false_2 by done.
  cbn [loop length]. rewrite Hsteps, bool_decide_eq_false_2.
  2:{ cbn [executedSteps length]. rewrite map_size_empty. lia. }
  unfold UpdateRunStatus. run_monad. destruct (db_fault E (S (ops w))) eqn:Hf2.
  - eexists _, _. split; [done|]. cbn. split_and!; try done.
  - eexists _, _. split; [done|]. cbn. split_and!; try done.
    intros _. unfold kg.update_run_status. cbn [kg.runs].
    rewrite fmap_app. cbn [fmap list_fmap]. rewrite last_snoc. cbn.
    unfold kg.update_row. cbn [kg.RunRow.id].
    by rewrite bool_decide_eq_true_2 by done.
Qed.

Lemma empty_workflow_completes_witness :
  ∃ res w',
    ExecuteWorkflow E0 NewOrchestrator no_steps chain_vars (world [])
    = (Returned (Some res) None, w')
    ∧ ExecutionResult.Status res = "completed"
    ∧ ExecutionResult.Steps res = ∅
    ∧ calls w' = [] ∧ trace w' = [] ∧ stdout w' = []
    ∧ kg.artifacts (db w') = []
    ∧ (db_fault E0 1 = None →
       kg.RunRow.status <$> last (kg.runs (db w')) = Some "completed").
Proof.
  apply (empty_workflow_completes E0 NewOrchestrator no_steps chain_vars
           (world [])); [reflexivity|reflexivity|].
  cbn. intros H. by apply elem_of_nil in H.
Defined.

Lemma replace_from_absent s old new :
  index_of s old = None → replace_from 0 s old new = s.
Proof.
  induction s as [|c s IH]; [done|]. cbn [index_of replace_from].
  destruct (HasPrefix (String c s) old); [done|].
  destruct (index_of s old); [done|]. intros _. by rewrite IH.
Qed.

(** Replacing a text that does not occur changes nothing. *)
Lemma ReplaceAll_absent s c old new :
  Contains s (String c old) = false → ReplaceAll s (String c old) new = s.
Proof.
  rewrite Contains_index_of. intros H. unfold ReplaceAll.
  apply replace_from_absent. by destruct (index_of s (String c old)).
Qed.

Lemma foldl_fixed {A B} (f : A → B → A) (a : A) (l : list B) :
  (∀ b, f a b = a) → foldl f a l = a.
Proof. intros Hf. induction l as [|b l IH]; [done|]. cbn. by rewrite Hf. Qed.

(** X15: placeholders are filled by plain text replacement, and what
    is not filled is left as it is: an input in which no placeholder of
    a given variable and no output placeholder of a recorded step
    occurs is rendered unchanged, in every order of the maps; no error
    is raised for a placeholder nothing fills. *)
Theorem unfilled_input_is_unchanged (E : Env) (input : string)
    (variables : gmap string value) (stepResults : gmap string StepResult.t)
    (w : World) :
  (∀ key value, variables !! key = Some value →
                Contains input ("{{." +:+ key +:+ "}}") = false) →
  (∀ name sr, stepResults !! name = Some sr →
              Contains input ("{{." +:+ name +:+ ".output}}") = false) →
  (substituteVariables E input variables stepResults w).1 = input.
Proof.
  intros Hvars Hres. rewrite substituteVariables_render. cbn [fst].
  unfold render. rewrite (foldl_fixed _ input).
  - apply foldl_fixed. intros name.
    destruct (stepResults !! name) as [sr|] eqn:Hl; [|done].
    apply (ReplaceAll_absent input "{" ("{." +:+ name +:+ ".output}}")).
    by apply (Hres name sr).
  - intros key. destruct (variables !! key) as [value|] eqn:Hl; [|done].
    apply (ReplaceAll_absent input "{" ("{." +:+ key +:+ "}}")).
    by apply (Hvars key value).
Qed.

Lemma unfilled_input_is_unchanged_witness :
  (substituteVariables E_rev open_input chain_vars {["plan" := plan_result]}
     (world [])).1 = open_input.
Proof.
  apply unfilled_input_is_unchanged.
  - unfold chain_vars.
    intros key value [<- _]%lookup_singleton_Some. reflexivity.
  - intros name sr [<- _]%lookup_singleton_Some. reflexivity.
Defined.

End run_extras.

(** ** The driver *)
Section driver_facts.
Import orchestrator Notions Scenarios driver.

Lemma find_append {A} (f : A → bool) (l1 l2 : list A) :
  find f (l1 ++ l2)
  = match find f l1 with Some x => Some x | None => find f l2 end.
Proof.
  induction l1 as [|x l1 IH]; [done|]. cbn [app find]. by destruct (f x).
Qed.

(** X16: [CreateAgent] then [GetAgent]: when the id is not stored yet,
    the agent is stored and read back with every field given, its two
    timestamps set by the database, the agents stored before being read
    back as before; when the id is stored already, [CreateAgent] fails
    on the key, stores nothing, and the agent stored under the id is
    read back unchanged. *)
Theorem CreateAgent_then_GetAgent (E : Env) (agent : kg.Agent.t) (w : World) :
  db_fault E (ops w) = None →
  db_fault E (S (ops w)) = None →
  let created := CreateAgent E agent w in
  let got := GetAgent E (kg.Agent.ID agent) created.2 in
  match kg.select_agent (kg.Agent.ID agent) (db w) with
  | None =>
      created.1 = None
      ∧ got.1 = inl (stored_at (now E (ticks w)) agent)
      ∧ ∀ id, id ≠ kg.Agent.ID agent →
              kg.select_agent id (db created.2) = kg.select_agent id (db w)
  | Some old =>
      created.1 = Some (ErrConstraint "agents.id")
      ∧ db created.2 = db w
      ∧ got.1 = inl old
  end.
Proof.
  intros Hf1 Hf2 created got. subst created got.
  unfold CreateAgent, GetAgent, insert_agent. run_monad. rewrite Hf1.
  destruct (kg.select_agent (kg.Agent.ID agent) (db w)) as [old|] eqn:Hsel.
  - pose proof Hsel as Hsel'. apply select_agent_Some in Hsel' as [Hin Hid].
    rewrite bool_decide_eq_true_2.
    2:{ apply list_elem_of_fmap. by exists old. }
    cbn [db ops fst snd]. rewrite Hf2, Hsel. by cbn.
  - pose proof Hsel as Hnone. rewrite select_agent_None in Hnone.
    rewrite bool_decide_eq_false_2.
    2:{ intros (a & Ha & Hin)%list_elem_of_fmap. by apply (Hnone a). }
    cbn [db ops fst snd]. rewrite Hf2. cbn [fst snd db].
    unfold kg.select_agent in *. cbn [kg.agents].
    split; [done|]. split.
    + rewrite find_append, Hsel. cbn [find kg.Agent.ID].
      by rewrite bool_decide_eq_true_2.
    + intros id Hne. rewrite find_append.
      cbn [find kg.Agent.ID]. rewrite bool_decide_eq_false_2 by done.
      clear Hsel. by destruct (find _ (kg.agents (db w))).
Qed.

Lemma CreateAgent_then_GetAgent_witness :
  let created := CreateAgent E0 (agent "AGENT_2" "critic" "stub") (world named_agents) in
  let again := CreateAgent E0 (agent "AGENT_1" "impostor" "none") (world named_agents) in
  (created.1 = None
   ∧ (GetAgent E0 "AGENT_2" created.2).1
     = inl (stored_at (now E0 0) (agent "AGENT_2" "critic" "stub")))
  ∧ (again.1 = Some (ErrConstraint "agents.id")
     ∧ (GetAgent E0 "AGENT_1" again.2).1 = inl (agent "AGENT_1" "planner" "stub")).
Proof.
  split.
  - destruct (CreateAgent_then_GetAgent E0 (agent "AGENT_2" "critic" "stub")
                (world named_agents) eq_refl eq_refl) as (H1 & H2 & _).
    by split.
  - destruct (CreateAgent_then_GetAgent E0 (agent "AGENT_1" "impostor" "none")
                (world named_agents) eq_refl eq_refl) as (H1 & _ & H2).
    by split.
Defined.

(** X17: [UpdateRunStatus], the database working, returns a nil error
    whether or not a run has the id: the rows keep their ids and their
    places, a row with another id is untouched (so nothing changes when
    no row has the id), and a row with the id gets the status, output
    and error message given, whatever its status was, keeps its workflow
    name, input, metadata and start, and gets a duration that is a whole
    number of seconds, in milliseconds. *)
Theorem UpdateRunStatus_rewrites_matching_rows (E : Env)
    (runID status outputData errorMessage : string) (w : World) :
  db_fault E (ops w) = None →
  let r := UpdateRunStatus E runID status outputData errorMessage w in
  r.1 = None
  ∧ kg.RunRow.id <$> kg.runs (db r.2) = kg.RunRow.id <$> kg.runs (db w)
  ∧ (runID ∉ kg.RunRow.id <$> kg.runs (db w) → db r.2 = db w)
  ∧ ∀ i row,
      kg.runs (db w) !! i = Some row →
      ∃ row',
        kg.runs (db r.2) !! i = Some row'
        ∧ (kg.RunRow.id row ≠ runID → row' = row)
        ∧ (kg.RunRow.id row = runID →
           run_row_content row'
           = (kg.RunRow.workflow_name row, status, kg.RunRow.input_data row,
              Some outputData, Some errorMessage, kg.RunRow.metadata row)
           ∧ kg.RunRow.started_at row' = kg.RunRow.started_at row
           ∧ ∃ d, kg.RunRow.duration_ms row' = Some d ∧ (1000 | d)).
Proof.
  intros Hf r. subst r. unfold UpdateRunStatus. run_monad. rewrite Hf.
  cbn [fst snd db kg.update_run_status kg.runs]. split_and!.
  - done.
  - rewrite <- list_fmap_compose. apply list_fmap_ext. intros i row _.
    cbn. unfold kg.update_row. by case_bool_decide.
  - intros Hnot. unfold kg.update_run_status.
    rewrite update_row_other by done. by destruct (db w).
  - intros i row Hi. rewrite list_lookup_fmap, Hi. cbn.
    eexists. split; [done|]. unfold kg.update_row. split.
    + intros Hne. by rewrite bool_decide_eq_false_2 by done.
    + intros Heq. rewrite bool_decide_eq_true_2 by done.
      split_and!; [done|done|]. eexists. split; [done|].
      exists (Unix (now E (ticks w)) - Unix (kg.RunRow.started_at row)). lia.
Qed.

Lemma UpdateRunStatus_rewrites_matching_rows_witness :
  let r := UpdateRunStatus E0 "RUN_1700000000" "running" "" "again" chain_run.2 in
  r.1 = None
  ∧ kg.RunRow.status <$> kg.runs (db chain_run.2) = ["completed"]
  ∧ ∃ row', kg.runs (db r.2) !! 0%nat = Some row'
            ∧ kg.RunRow.status row' = "running"
            ∧ kg.RunRow.error_message row' = Some "again".
Proof.
  destruct (UpdateRunStatus_rewrites_matching_rows E0 "RUN_1700000000"
              "running" "" "again" chain_run.2 eq_refl) as (Hnil & _ & _ & Hrow).
  split; [exact Hnil|]. split; [by vm_compute|].
  destruct (Hrow 0%nat (default (kg.RunRow.mk "" "" "" "" None 0 None None None "")
                          (kg.runs (db chain_run.2) !! 0%nat)))
    as (row' & Hl & _ & Hset); [by vm_compute|].
  exists row'. split; [exact Hl|].
  destruct Hset as (Hc & _); [by vm_compute|].
  split.
  - exact (f_equal (λ c : string * string * string * option string
                           * option string * string, c.1.1.1.1.2) Hc).
  - exact (f_equal (λ c : string * string * string * option string
                           * option string * string, c.1.2) Hc).
Defined.

Lemma Milliseconds_not_positive now endTime :
  endTime ≤ now →
  Milliseconds (Until now endTime) ≤ 0
  ∧ (now - endTime < 1000000 → Milliseconds (Until now endTime) = 0).
Proof.
  intros Hle. unfold Milliseconds, Until, Sub, minDuration, maxDuration. split.
  - change 0 with (0 ÷ 1000000). apply Z.quot_le_mono; lia.
  - intros Hlt. rewrite Z.max_r, Z.min_r by lia.
    apply Z.quot_small_iff; lia.
Qed.

(** X18: the duration [UpdateSpan] stores is the time from the moment
    of the call to the end time given, in milliseconds, not the time the
    span took: for an end time that is not in the future it is never
    positive, and it is zero when the call follows the end by less than
    a millisecond, whatever the start of the span; rows with another id
    are untouched. *)
Theorem UpdateSpan_duration_is_time_until_end (now endTime : Z)
    (spanID status metadata : string) (spans : list SpanRow.t) :
  endTime ≤ now →
  let r := UpdateSpan None now spanID endTime status metadata spans in
  r.1 = None
  ∧ (∀ row, row ∈ r.2 → SpanRow.id row = spanID →
       SpanRow.end_time row = Some endTime
       ∧ ∃ d, SpanRow.duration_ms row = Some d
              ∧ d ≤ 0
              ∧ (now - endTime < 1000000 → d = 0))
  ∧ (∀ row, row ∈ spans → SpanRow.id row ≠ spanID → row ∈ r.2)
  ∧ SpanRow.start_time <$> r.2 = SpanRow.start_time <$> spans.
Proof.
  intros Hle r. subst r. unfold UpdateSpan. cbn [fst snd].
  destruct (Milliseconds_not_positive now endTime Hle) as [Hd H0].
  split_and!.
  - done.
  - intros row (old & -> & Hin)%list_elem_of_fmap. unfold update_span.
    case_bool_decide as Hid; cbn [SpanRow.id]; [|done].
    intros _. split; [done|]. eexists. by split.
  - intros row Hin Hne. apply list_elem_of_fmap. exists row. split; [|done].
    unfold update_span. by rewrite bool_decide_eq_false_2 by done.
  - rewrite <- list_fmap_compose. apply list_fmap_ext. intros i row _.
    cbn. unfold update_span. by case_bool_decide.
Qed.

Lemma UpdateSpan_duration_is_time_until_end_witness :
  SpanRow.duration_ms <$> closed_span 1700000000000000000 2500000000 0
  = [Some 0]
  ∧ (∃ d, SpanRow.duration_ms <$> closed_span 1700000000000000000 2500000000 3000000
          = [Some d] ∧ d ≤ 0).
Proof.
  split; [by vm_compute|].
  destruct (UpdateSpan_duration_is_time_until_end
              (1700000000000000000 + 2500000000 + 3000000)
              (1700000000000000000 + 2500000000) "SPAN_1" "completed" ""
              (CreateSpan None
                 (Span.mk "SPAN_1" "RUN_1" "" "agent.planner"
                    1700000000000000000 None None "running" "") []).2)
    as (_ & Hrow & _); [lia|].
  destruct (Hrow (SpanRow.mk "SPAN_1" "RUN_1" "" "agent.planner"
                    1700000000000000000 (Some (1700000000000000000 + 2500000000))
                    (Some (-3)) "completed" ""))
    as (_ & d & Hd & Hle & _); [by left|done|].
  exists d. split; [|exact Hle]. cbn in Hd. injection Hd as <-. by vm_compute.
Defined.

End driver_facts.

(** ** The provider clients *)
Section client_facts.
Import providers clients orchestrator Notions.





(** The calls of a run, and the agent each was made for. *)
Lemma run_calls_ok E o workflow variables w :
  Forall (call_ok (kg.agents (db w)))
    (run_calls w (ExecuteWorkflow E o workflow variables w).2).
Proof.
  destruct (ExecuteWorkflow E o workflow variables w) as [out w'] eqn:H.
  apply ExecuteWorkflow_spec in H as (_ & (cs & Hcs & Hall) & _).
  cbn [snd]. by rewrite (run_calls_app _ _ _ Hcs).
Qed.

(** X21: what the executor sends through the Ollama client: for every
    call of every run the request carries the model of the client, the
    rendered prompt, no streaming, and as only options the temperature
    0.7 and a top-p of 0; the token limit of 1000 the executor sets is
    not sent, nor are stop sequences: two requests that agree on prompt,
    system prompt, temperature and top-p are sent as the same request. *)
Theorem run_requests_through_ollama (E : Env) (o : Orchestrator)
    (workflow : Workflow.t) (variables : gmap string value) (w : World)
    (c : ollama.Client) :
  Forall (λ call,
            let sent := ollama.request c call.2 in
            ollama.Model sent = ollama.model c
            ∧ ollama.Prompt sent = GenerateRequest.Prompt call.2
            ∧ ollama.Stream sent = false
            ∧ ollama.Options sent
              = <["temperature" := 7 # 10]> (<["top_p" := 0%Q]> ∅))
    (run_calls w (ExecuteWorkflow E o workflow variables w).2)
  ∧ ∀ req req',
      GenerateRequest.Prompt req = GenerateRequest.Prompt req' →
      GenerateRequest.SystemPrompt req = GenerateRequest.SystemPrompt req' →
      GenerateRequest.Temperature req = GenerateRequest.Temperature req' →
      GenerateRequest.TopP req = GenerateRequest.TopP req' →
      ollama.request c req = ollama.request c req'.
Proof.
  split.
  - eapply Forall_impl; [apply run_calls_ok|].
    intros call (agent & input & _ & ->). by cbn.
  - intros req req' H1 H2 H3 H4. unfold ollama.request.
    by rewrite H1, H2, H3, H4.
Qed.

Lemma run_requests_through_ollama_witness :
  ollama.request stub.ollama_client stub.request
  = ollama.request stub.ollama_client
      (GenerateRequest.mk "hello" "be brief" 5 (7 # 10) 0 ["END"] ∅).
Proof.
  by apply (run_requests_through_ollama Scenarios.E0 Scenarios.o_echo
              Scenarios.chain Scenarios.chain_vars
              (Scenarios.world Scenarios.chain_agents)).
Defined.

(** X22: what the executor hands to the OpenAI client: for every call
    of every run the request struct carries the model of the client, a
    token limit of 1000, the temperature 0.7, a top-p of 0 and no stop
    sequence, and its messages are the system prompt of a stored agent,
    left out when that prompt is empty, followed by the rendered prompt
    as the one user message.  The JSON body written for it has the
    fields model, messages, max_tokens and temperature and no other:
    top_p, being 0, and stop, being empty, are left out by
    [omitempty], so the API receives neither. *)
Theorem run_requests_through_openai (E : Env) (o : Orchestrator)
    (workflow : Workflow.t) (variables : gmap string value) (w : World)
    (c : openai.Client) :
  Forall (λ call,
            let built := openai.request c call.2 in
            openai.Model built = openai.model c
            ∧ openai.MaxTokens built = 1000
            ∧ openai.Temperature built = 7 # 10
            ∧ openai.TopP built = 0%Q
            ∧ openai.Stop built = []
            ∧ ∃ agent,
                agent ∈ kg.agents (db w)
                ∧ let messages :=
                    (if bool_decide (kg.Agent.SystemPrompt agent = "")
                     then []
                     else [openai.mkMessage "system"
                             (kg.Agent.SystemPrompt agent)])
                    ++ [openai.mkMessage "user"
                          (GenerateRequest.Prompt call.2)] in
                  openai.Messages built = messages
                  ∧ openai_api.body built
                    = JObject
                        [("model", JString (openai.model c));
                         ("messages",
                          JArray (openai_api.message_body <$> messages));
                         ("max_tokens", JInt 1000);
                         ("temperature", JFloat (7 # 10))])
    (run_calls w (ExecuteWorkflow E o workflow variables w).2).
Proof.
  eapply Forall_impl; [apply run_calls_ok|].
  intros call (agent & input & Hin & ->). cbn. split_and!; try done.
  exists agent. split; [done|].
  unfold openai_api.body, openai.request. cbn.
  by repeat case_bool_decide.
Qed.

End client_facts.

(** ** The prompt loader *)
Section prompt_facts.
Import prompt.
Context {T : Type} (parse : string → string → T + string)
  (execute : T → gmap string value → string + string).

Lemma load_all_templates items : ∀ (l : Loader) name,
  templates (load_all parse l items) !! name
  = match latest parse items name with
    | Some tmpl => Some tmpl
    | None => templates l !! name
    end.
Proof.
  induction items as [|[n content] rest IH]; intros l name; [done|].
  cbn [load_all foldl latest fst snd]. fold (load_all parse).
  change (foldl _ ?l0 rest) with (load_all parse l0 rest).
  rewrite IH. destruct (latest parse rest name); [done|].
  unfold LoadPrompt. destruct (decide (n = name)) as [->|Hne].
  - destruct (parse name content); cbn [snd templates]; [|done].
    by rewrite lookup_insert_eq.
  - destruct (parse n content); cbn [snd templates]; [|done].
    by rewrite lookup_insert_ne.
Qed.

Lemma latest_is_Some items name :
  is_Some (latest parse items name)
  ↔ ∃ content tmpl, (name, content) ∈ items ∧ parse name content = inl tmpl.
Proof.
  induction items as [|[n content] rest IH]; cbn [latest fst snd].
  - split; [by intros [? ?]|]. intros (? & ? & Hin & _).
    by apply elem_of_nil in Hin.
  - destruct (latest parse rest name) as [tmpl|] eqn:Hl.
    + split; [|by eauto]. intros _.
      destruct IH as [IH _]. destruct IH as (c & t & Hin & Hp); [by eauto|].
      exists c, t. split; [by right|done].
    + split.
      * destruct (decide (n = name)) as [->|Hne]; [|by intros [? ?]].
        destruct (parse name content) as [tmpl|] eqn:Hp; [|by intros [? ?]].
        intros _. exists content, tmpl. split; [by left|done].
      * intros (c & t & [Heq|Hin]%elem_of_cons & Hp).
        -- injection Heq as <- <-. rewrite decide_True by done.
           rewrite Hp. by eauto.
        -- destruct IH as [_ IH]. destruct IH as [? ?]; [by eauto|done].
Qed.

(** X23: after any series of loads into a new loader, rendering a name
    uses the template of the last load of that name that parsed: a name
    never loaded, or whose loads all failed, is reported as not found,
    and a load that fails to parse leaves the template loaded before
    under the name in use; an error of the execution is returned with
    an empty text. *)
Theorem RenderPrompt_uses_latest_load (items : list (string * string))
    (name : string) (variables : gmap string value) :
  RenderPrompt execute (load_all parse NewLoader items) name variables
  = match latest parse items name with
    | None => ("", Some ("prompt template '" +:+ name +:+ "' not found"))
    | Some tmpl =>
        match execute tmpl variables with
        | inr msg => ("", Some ("failed to render template: " +:+ msg))
        | inl text => (text, None)
        end
    end.
Proof.
  unfold RenderPrompt. rewrite load_all_templates.
  by destruct (latest parse items name).
Qed.

(** X24: the available prompts after any series of loads into a new
    loader are the names of which some load parsed, each listed once
    however often it was loaded, in the order of the range loop. *)
Theorem GetAvailablePrompts_lists_loaded (order : list string → list string)
    (items : list (string * string)) :
  (∀ keys, order keys ≡ₚ keys) →
  let names := GetAvailablePrompts order (load_all parse NewLoader items) in
  NoDup names
  ∧ ∀ name, name ∈ names
            ↔ ∃ content tmpl, (name, content) ∈ items
                              ∧ parse name content = inl tmpl.
Proof.
  intros Horder names. subst names. unfold GetAvailablePrompts. split.
  - rewrite Horder. apply NoDup_elements.
  - intros name. rewrite Horder, elem_of_elements, elem_of_dom.
    rewrite load_all_templates. cbn [NewLoader templates].
    rewrite lookup_empty, <- latest_is_Some.
    destruct (latest parse items name); [by split; eauto|].
    split; by intros [? ?].
Qed.

End prompt_facts.

Section guard_facts.
Import prompt.

Lemma first_missing_None keys (variables : gmap string value) :
  first_missing keys variables = None ↔ ∀ key, key ∈ keys → key ∈ dom variables.
Proof.
  induction keys as [|k keys IH]; cbn [first_missing].
  - split; [|done]. intros _ key Hin. by apply elem_of_nil in Hin.
  - destruct (variables !! k) as [v|] eqn:Hk.
    + rewrite IH. split.
      * intros H key [->|Hin]%elem_of_cons; [|by auto].
        apply elem_of_dom. by eauto.
      * intros H key Hin. apply H. by right.
    + split; [done|]. intros H.
      assert (k ∈ dom variables) as Hd by (apply H; by left).
      apply elem_of_dom in Hd as [? ?]. congruence.
Qed.

Lemma first_missing_Some keys (variables : gmap string value) key :
  first_missing keys variables = Some key → key ∈ keys ∧ key ∉ dom variables.
Proof.
  induction keys as [|k keys IH]; cbn [first_missing]; [done|].
  destruct (variables !! k) as [v|] eqn:Hk.
  - intros [? ?]%IH. split; [by right|done].
  - intros [= <-]. split; [by left|]. by apply not_elem_of_dom.
Qed.

(** X25: [ValidateGuards] accepts the variables exactly when no guard
    has the condition required or every variable the prompt declares
    is given, in any order of the map; a guard with another condition
    never fails; and the error names a declared variable that is not
    given, the message of the guard being left unused. *)
Theorem ValidateGuards_accepts_iff (order : nat → list string → list string)
    (p : Prompt) (variables : gmap string value) :
  (∀ n keys, order n keys ≡ₚ keys) →
  (ValidateGuards order p variables = None
   ↔ (∀ guard, guard ∈ Guards p → Condition guard ≠ "required")
     ∨ (∀ key, key ∈ dom (Variables p) → key ∈ dom variables))
  ∧ ∀ msg,
      ValidateGuards order p variables = Some msg →
      ∃ key, key ∈ dom (Variables p) ∧ (key ∉ dom variables)
             ∧ msg = "guard validation failed: required variable '" +:+ key
                       +:+ "' not provided".
Proof.
  intros Horder. unfold ValidateGuards. generalize 0%nat.
  induction (Guards p) as [|guard rest IH]; intros n; cbn [validate].
  { split; [|done]. split; [|done]. intros _. left. intros g Hg.
    by apply elem_of_nil in Hg. }
  destruct (IH n) as [IHn1 IHn2]. destruct (IH (S n)) as [IHs1 IHs2].
  case_bool_decide as Hc.
  - destruct (first_missing _ variables) as [key|] eqn:Hm.
    + apply first_missing_Some in Hm as [Hin Hnot].
      rewrite Horder, elem_of_elements in Hin. split.
      * split; [done|]. intros [Hall|Hall].
        -- destruct (Hall guard); [by left|done].
        -- by destruct Hnot; apply Hall.
      * intros msg [= <-]. by exists key.
    + rewrite first_missing_None in Hm. split; [|done].
      rewrite IHs1. split.
      * intros _. right. intros key Hk. apply Hm.
        by rewrite Horder, elem_of_elements.
      * intros [Hall|Hall]; [|by right].
        destruct (Hall guard); [by left|done].
  - split; [|done]. rewrite IHn1. split.
    + intros [Hall|Hall]; [left|by right].
      intros g [->|Hg]%elem_of_cons; [done|by auto].
    + intros [Hall|Hall]; [left|by right].
      intros g Hg. apply Hall. by right.
Qed.

Lemma ValidateGuards_accepts_iff_witness :
  ValidateGuards (λ _ keys, keys) stub.gated
    {["task" := VString "ship"; "tone" := VString "dry"; "more" := VInt 1]}
  = None
  ∧ ∃ key, key ∈ dom (Variables stub.gated)
           ∧ ValidateGuards (λ _ keys, reverse keys) stub.gated
               {["task" := VString "ship"]}
             = Some ("guard validation failed: required variable '" +:+ key
                       +:+ "' not provided").
Proof.
  split.
  - apply (ValidateGuards_accepts_iff (λ _ keys, keys)); [done|].
    right. intros key Hk. apply elem_of_dom.
    apply elem_of_dom in Hk as [v Hv]. unfold stub.gated in Hv. cbn in Hv.
    apply lookup_insert_Some in Hv as [[<- _]|[_ Hv]]; [by eexists|].
    apply lookup_singleton_Some in Hv as [<- _]. by eexists.
  - destruct (ValidateGuards_accepts_iff (λ _ keys, reverse keys) stub.gated
                {["task" := VString "ship"]}) as [_ Herr].
    { intros n keys. apply reverse_Permutation. }
    destruct (Herr "guard validation failed: required variable 'tone' not provided")
      as (key & Hin & _ & Hmsg); [by vm_compute|].
    exists key. split; [done|]. rewrite <- Hmsg. by vm_compute.
Defined.

End guard_facts.

Section loader_witnesses.
Import prompt.

Lemma GetAvailablePrompts_lists_loaded_witness :
  let names :=
    GetAvailablePrompts (λ keys, reverse keys)
      (load_all stub.parse NewLoader stub.loads) in
  NoDup names ∧ "greet" ∈ names ∧ "plan" ∈ names.
Proof.
  intros names.
  destruct (GetAvailablePrompts_lists_loaded stub.parse (λ keys, reverse keys)
              stub.loads) as [Hnd Hin].
  { intros keys. apply reverse_Permutation. }
  split; [exact Hnd|]. split; apply Hin.
  - exists "Hello {{.name}}", "Hello {{.name}}". split; [by left|by vm_compute].
  - exists "Plan {{.task}}", "Plan {{.task}}".
    split; [right; by left|by vm_compute].
Defined.

End loader_witnesses.

(** ** The scaffold command *)
Section cli_facts.
Import cli.
Context (Join : list string → string).

(** A plan carried out: every operation up to the first failure is
    issued, none after it, and nothing is printed. *)
Lemma run_plan_spec fs_fault plan : ∀ st,
  let r := run_plan fs_fault plan st in
  printed r.2 = printed st
  ∧ ((∀ i, (i < length plan)%nat → fs_fault (length (issued st) + i)%nat = None) →
     r.1 = None ∧ issued r.2 = issued st ++ plan.*1)
  ∧ ∀ i msg,
      (∀ j, (j < i)%nat → fs_fault (length (issued st) + j)%nat = None) →
      fs_fault (length (issued st) + i)%nat = Some msg →
      ∀ op words, plan !! i = Some (op, words) →
        r.1 = Some (words +:+ msg)
        ∧ issued r.2 = issued st ++ take (S i) plan.*1.
Proof.
  induction plan as [|[op words] rest IH]; intros st r; subst r.
  { cbn. split_and!; [done| |done]. intros _. by rewrite app_nil_r. }
  cbn [run_plan fs]. specialize (IH (mkState (issued st ++ [op]) (printed st))).
  cbn zeta in IH. cbn [issued printed] in IH. rewrite length_app in IH.
  cbn [length] in IH. destruct IH as (IHp & IHok & IHfail).
  destruct (fs_fault (length (issued st))) as [msg0|] eqn:H0.
  - cbn [fst snd printed issued]. split_and!; [done| |].
    + intros Hall. specialize (Hall 0%nat). rewrite Nat.add_0_r in Hall.
      rewrite Hall in H0 by (cbn; lia). done.
    + intros i msg Hprev Hi op' words' Hl. destruct i as [|i].
      * rewrite Nat.add_0_r in Hi. cbn in Hl. by simplify_eq.
      * specialize (Hprev 0%nat). rewrite Nat.add_0_r in Hprev.
        rewrite Hprev in H0 by lia. done.
  - split_and!; [done| |].
    + intros Hall. destruct IHok as [-> ->].
      * intros i Hi. replace (length (issued st) + 1 + i)%nat
          with (length (issued st) + S i)%nat by lia.
        apply Hall. cbn. lia.
      * split; [done|]. cbn [fmap list_fmap fst]. by rewrite <- app_assoc.
    + intros i msg Hprev Hi op' words' Hl. destruct i as [|i].
      * rewrite Nat.add_0_r in Hi. congruence.
      * cbn in Hl.
        assert (Hp' : ∀ j, (j < i)%nat →
                  fs_fault (length (issued st) + 1 + j)%nat = None).
        { intros j Hj. replace (length (issued st) + 1 + j)%nat
            with (length (issued st) + S j)%nat by lia.
          apply Hprev. lia. }
        assert (Hi' : fs_fault (length (issued st) + 1 + i)%nat = Some msg).
        { by replace (length (issued st) + 1 + i)%nat
            with (length (issued st) + S i)%nat by lia. }
        destruct (IHfail i msg Hp' Hi' op' words' Hl) as [-> ->].
        split; [done|]. cbn [fmap list_fmap fst take].
        by rewrite <- app_assoc.
Qed.

(** [buildProject] on a known template carries out the plan of the
    scaffold, then prints. *)
Lemma buildProject_plan fs_fault template appName outputDir st :
  known_template template →
  buildProject Join fs_fault template appName outputDir st
  = let '(err, st') :=
      run_plan fs_fault (scaffold_plan Join appName outputDir)
        (print (building_line template appName outputDir) st) in
    match err with
    | Some e => (Some e, st')
    | None =>
        (None, mkState (issued st') (printed st' ++ success_lines outputDir))
    end.
Proof.
  intros Hk. unfold buildProject, generateResearchScaffold, generateChatScaffold.
  assert (Hgen : (if decide (template = "1+4")
                  then generateBasicScaffold Join fs_fault appName outputDir
                  else if decide (template = "research")
                  then generateBasicScaffold Join fs_fault appName outputDir
                  else if decide (template = "chat")
                  then generateBasicScaffold Join fs_fault appName outputDir
                  else λ st, (Some ("unknown template: " +:+ template), st))
                 = generateBasicScaffold Join fs_fault appName outputDir).
  { destruct Hk as [-> | [-> | ->]]; reflexivity. }
  unfold scaffold_plan, building_line. cbn [run_plan fs print issued printed].
  destruct (fs_fault (length (issued st))); [reflexivity|].
  transitivity (generateBasicScaffold Join fs_fault appName outputDir
                  (mkState (issued st ++ [MkdirAll outputDir 493])
                     (printed st ++ [building_line template appName outputDir]))).
  { rewrite <- Hgen. by repeat destruct (decide _). }
  unfold generateBasicScaffold, workerConfigs.
  cbn [make_dirs write_workers fs print issued printed].
  repeat (cbn [make_dirs write_workers fs print issued printed];
          rewrite ?length_app; cbn [length];
          match goal with
          | |- context [fs_fault ?n] => destruct (fs_fault n); [reflexivity|]
          end).
  unfold print, success_lines. cbn [issued printed].
  rewrite <- !app_assoc. reflexivity.
Qed.

(** X26: the template is checked only after the output directory has
    been asked for: with a template that is none of the three known,
    [buildProject] issues the one [MkdirAll] of the output directory,
    writes no file, and fails, with the error of that operation when it
    failed and with the unknown-template error otherwise. *)
Theorem unknown_template_fails_after_mkdir (fs_fault : nat → option string)
    (template appName outputDir : string) (st : State) :
  ¬ known_template template →
  let r := buildProject Join fs_fault template appName outputDir st in
  issued r.2 = issued st ++ [MkdirAll outputDir 493]
  ∧ printed r.2 = printed st ++ [building_line template appName outputDir]
  ∧ r.1 = Some (match fs_fault (length (issued st)) with
                | Some msg => "failed to create output directory: " +:+ msg
                | None => "unknown template: " +:+ template
                end).
Proof.
  intros Hk r. subst r. unfold buildProject, known_template in *.
  cbn [fs print issued printed].
  destruct (fs_fault (length (issued st))); [done|].
  repeat (destruct (decide _) as [->|_]; [tauto|]). done.
Qed.

(** X27: for each of the three known templates [buildProject] carries
    out one and the same plan of thirteen operations and stops at the
    first that fails: when none fails, all are issued in order, no
    error is returned and the success lines are printed; when the
    operation number i is the first to fail, the operations up to it
    are issued and none after it, the error is the one of that
    operation after the words of its step, and no success line is
    printed. *)
Theorem scaffold_stops_at_first_failure (fs_fault : nat → option string)
    (template appName outputDir : string) (st : State) :
  known_template template →
  let r := buildProject Join fs_fault template appName outputDir st in
  let plan := scaffold_plan Join appName outputDir in
  ((∀ i, (i < 13)%nat → fs_fault (length (issued st) + i)%nat = None) →
   r.1 = None
   ∧ issued r.2 = issued st ++ plan.*1
   ∧ printed r.2
     = printed st ++ building_line template appName outputDir
                       :: success_lines outputDir)
  ∧ ∀ i msg op words,
      (∀ j, (j < i)%nat → fs_fault (length (issued st) + j)%nat = None) →
      fs_fault (length (issued st) + i)%nat = Some msg →
      plan !! i = Some (op, words) →
      r.1 = Some (words +:+ msg)
      ∧ issued r.2 = issued st ++ take (S i) plan.*1
      ∧ printed r.2 = printed st ++ [building_line template appName outputDir].
Proof.
  intros Hk r plan. subst r. rewrite buildProject_plan by done.
  pose proof (run_plan_spec fs_fault plan
                (print (building_line template appName outputDir) st))
    as (Hp & Hok & Hfail).
  cbn [print issued printed] in Hp, Hok, Hfail. fold plan.
  destruct (run_plan fs_fault plan _) as [err st'] eqn:Hrun.
  cbn [fst snd] in *. split.
  - intros Hall. destruct (Hok Hall) as [-> Hi]. cbn [fst snd issued printed].
    split_and!; [done|done|]. rewrite Hp, <- app_assoc. done.
  - intros i msg op words Hprev Hi Hl.
    destruct (Hfail i msg Hprev Hi op words Hl) as [-> Hiss].
    by cbn [fst snd].
Qed.

End cli_facts.

Section cli_witnesses.
Import cli.

Lemma unknown_template_fails_after_mkdir_witness :
  let r := buildProject slashes (λ _, None) "rag" "demo" "out" fresh in
  issued r.2 = [MkdirAll "out" 493]
  ∧ r.1 = Some "unknown template: rag".
Proof.
  destruct (unknown_template_fails_after_mkdir slashes (λ _, None) "rag" "demo"
              "out" fresh) as (Hi & _ & He).
  - intros [H|[H|H]]; discriminate H.
  - by split.
Defined.

Lemma scaffold_stops_at_first_failure_witness :
  let r := buildProject slashes (failing_at 7) "chat" "demo" "out" fresh in
  r.1 = Some ("failed to create researcher config: " +:+ "permission denied")
  ∧ length (issued r.2) = 8%nat
  ∧ printed r.2 = [building_line "chat" "demo" "out"].
Proof.
  destruct (scaffold_stops_at_first_failure slashes (failing_at 7) "chat"
              "demo" "out" fresh) as [_ Hfail].
  - right. by right.
  - destruct (Hfail 7%nat "permission denied"
                (WriteFile (slashes ["out"; "agents"; "researcher.yaml"])
                   (workerConfig "researcher"
                      "Agent that researches and gathers information") 420)
                "failed to create researcher config: ")
      as (He & Hi & Hp).
    + intros j Hj. cbn. unfold failing_at. by rewrite decide_False by lia.
    + reflexivity.
    + reflexivity.
    + split; [exact He|]. split; [by rewrite Hi|exact Hp].
Defined.

End cli_witnesses.
